(** * repo_zip_to_txt: the archive-to-text aggregator

    A shallow embedding of [src/repo_zip_to_txt.py] and the properties of
    its single function [generate_repository_description].

    Python [str] values are lists of Unicode code points, [bytes] values are
    lists of [Byte.byte], Python integers are [Z] (sizes, the size option) or
    [nat] (counters, which only ever count list elements).  The operating
    system is POSIX: [os.sep] is ["/"] and [os.path.normcase] is the
    identity.  Console diagnostics ([print] under [verbose], warnings,
    error messages, the progress indicator) are not part of the report and
    are not modelled, and neither is the [verbose] flag that only steers
    them; the success summary of lines 309-314 is. *)

From Stdlib Require Import Strings.String Strings.Ascii Strings.Byte.
From Stdlib Require Import Numbers.DecimalString Numbers.DecimalZ.
From Stdlib Require Import NArith ZArith Lia Bool List.
From Stdlib Require Import Permutation Sorted.
Import ListNotations.

Set Implicit Arguments.
Set Warnings "-register-all".

(** ** Python values *)

Module Py.

(** A Python [str]: a sequence of code points. *)
Definition str := list N.

(** A Python [bytes] object. *)
Definition bytes := list byte.

(** An ASCII literal of the source as a [str]. *)
Definition lit (s : string) : str :=
  map N_of_ascii (list_ascii_of_string s).

Definition nl : str := [10%N].

Fixpoint eqb (a b : str) : bool :=
  match a, b with
  | [], [] => true
  | x :: a', y :: b' => N.eqb x y && eqb a' b'
  | _, _ => false
  end.

(** [a <= b] on [str]: lexicographic on code points. *)
Fixpoint leb (a b : str) : bool :=
  match a, b with
  | [], _ => true
  | _ :: _, [] => false
  | x :: a', y :: b' =>
      if N.ltb x y then true
      else if N.eqb x y then leb a' b' else false
  end.

(** [s.startswith(p)] *)
Fixpoint startswith (s p : str) : bool :=
  match p, s with
  | [], _ => true
  | _ :: _, [] => false
  | y :: p', x :: s' => N.eqb x y && startswith s' p'
  end.

(** [s.endswith(p)] *)
Definition endswith (s p : str) : bool :=
  startswith (rev s) (rev p).

(** [s.lower()] on the ASCII letters.  The only use is the test
    [zip_path.lower().endswith('.zip')], and no code point outside ASCII
    lowers to a string ending in [z], [i] or [p]. *)
Definition lower_char (c : N) : N :=
  if (65 <=? c)%N && (c <=? 90)%N then (c + 32)%N else c.

Definition lower (s : str) : str := map lower_char s.

(** [s.count(c)] for a one-character [c]. *)
Definition count (c : N) (s : str) : nat :=
  length (filter (N.eqb c) s).

(** [c * n]: the string [c] repeated [n] times. *)
Definition times (c : str) (n : nat) : str :=
  concat (repeat c n).

(** [sep.join(xs)] *)
Fixpoint join (sep : str) (xs : list str) : str :=
  match xs with
  | [] => []
  | [x] => x
  | x :: rest => x ++ sep ++ join sep rest
  end.

(** [s.split(sep)] for a one-character separator. *)
Fixpoint split_on (sep : N) (s : str) : list str :=
  match s with
  | [] => [[]]
  | c :: s' =>
      if N.eqb c sep then [] :: split_on sep s'
      else match split_on sep s' with
           | [] => [[c]]
           | w :: ws => (c :: w) :: ws
           end
  end.

(** [str(n)] for an integer. *)
Definition of_Z (n : Z) : str :=
  lit (NilZero.string_of_int (Z.to_int n)).

Definition of_nat (n : nat) : str := of_Z (Z.of_nat n).

(** [str(x)] for an optional integer: [None] prints as its name. *)
Definition of_opt_Z (x : option Z) : str :=
  match x with
  | Some n => of_Z n
  | None => lit "None"
  end.

(** Round-half-even of the quotient [a / b], for [0 <= a] and [0 < b]
    with [b] even. *)
Definition div_half_even (a b : Z) : Z :=
  let q := (a / b)%Z in
  let r := (a mod b)%Z in
  if (b / 2 <? r)%Z then (q + 1)%Z
  else if (r =? b / 2)%Z && Z.odd q then (q + 1)%Z
  else q.

(** The bits an integer [n >= 0] has beyond the 53 of a float's
    significand. *)
Definition excess_bits (n : Z) : Z := Z.max 0 (Z.log2 n - 52).

(** [n / 1024] for an integer [0 <= n], as the numerator over [1024].
    True division of integers is correctly rounded, and dividing by a
    power of two only moves the exponent: the float is [n] rounded to 53
    significant bits, ties to even, over [1024].  An [n] of at most 53
    bits is kept as it is.  (No file size is near [2^1034], where the
    division would overflow.) *)
Definition float_kb_times_1024 (n : Z) : Z :=
  let unit := (2 ^ excess_bits n)%Z in
  if (unit =? 1)%Z then n else (div_half_even n unit * unit)%Z.

(** [f"{n / 1024:.1f}"] for an integer [n >= 0], in tenths: formatting
    rounds the exact value of the float to one decimal, half to even. *)
Definition tenths_of_kb (n : Z) : Z :=
  div_half_even (10 * float_kb_times_1024 n) 1024.

Definition fmt_kb (n : Z) : str :=
  let t := tenths_of_kb n in
  of_Z (t / 10) ++ lit "." ++ of_Z (t mod 10).

(** [xs.sort()] on a list of [str]: a stable insertion sort. *)
Fixpoint insert (x : str) (xs : list str) : list str :=
  match xs with
  | [] => [x]
  | y :: ys => if leb x y then x :: y :: ys else y :: insert x ys
  end.

Definition sort (xs : list str) : list str :=
  fold_right insert [] xs.

(** The exceptions a call on the operating system raises, with the text
    [str(e)] gives: the function tells [OSError] from the rest. *)
Inductive exn :=
| OSError (msg : str)            (* IOError is the same class *)
| OtherException (msg : str).

(** [str(e)] *)
Definition exn_msg (e : exn) : str :=
  match e with
  | OSError m => m
  | OtherException m => m
  end.

(** The exception a decoder raises.  The function catches it and never
    prints it, so its text is not part of the model. *)
Inductive decode_error := UnicodeDecodeError.

End Py.

(** ** [os.path] on POSIX *)

Module Posixpath.
Import Py.

Definition sep_char : N := 47%N.     (* "/" *)
Definition sep : str := [sep_char].
Definition dot_char : N := 46%N.     (* "." *)
Definition curdir : str := [dot_char].
Definition pardir : str := [dot_char; dot_char].

(** [os.path.join(a, b)] *)
Definition join (a b : str) : str :=
  if startswith b sep then b
  else match a with
       | [] => b
       | _ => if endswith a sep then a ++ b else a ++ sep ++ b
       end.

(** [os.path.basename(p)]: what follows the last separator. *)
Definition basename (p : str) : str :=
  last (split_on sep_char p) [].

(** [s.rstrip('/')], through the reversed string. *)
Fixpoint lstrip_sep (s : str) : str :=
  match s with
  | c :: s' => if N.eqb c sep_char then lstrip_sep s' else s
  | [] => []
  end.

Definition rstrip_sep (s : str) : str := rev (lstrip_sep (rev s)).

(** [os.path.dirname(p)] *)
Definition dirname (p : str) : str :=
  let head := firstn (length p - length (basename p)) p in
  match rstrip_sep head with
  | [] => head                        (* empty, or separators only *)
  | h => h
  end.

Fixpoint span_dots (s : str) : str * str :=
  match s with
  | c :: s' =>
      if N.eqb c dot_char
      then let '(d, r) := span_dots s' in (c :: d, r)
      else ([], s)
  | [] => ([], [])
  end.

(** Splits [s] at its first dot: what precedes it and what follows. *)
Fixpoint break_dot (s : str) : option (str * str) :=
  match s with
  | [] => None
  | c :: s' =>
      if N.eqb c dot_char then Some ([], s')
      else match break_dot s' with
           | Some (a, b) => Some (c :: a, b)
           | None => None
           end
  end.

(** [os.path.splitext(p)]: the extension starts at the last dot of the
    last component, leading dots of that component not counting. *)
Definition splitext (p : str) : str * str :=
  let base := basename p in
  let head := firstn (length p - length base) p in
  let '(dots, rest) := span_dots base in
  match break_dot (rev rest) with
  | Some (rext, rroot) =>
      (head ++ dots ++ rev rroot, dot_char :: rev rext)
  | None => (p, [])
  end.

Fixpoint drop_common (a b : list str) : list str * list str :=
  match a, b with
  | x :: a', y :: b' => if eqb x y then drop_common a' b' else (a, b)
  | _, _ => (a, b)
  end.

Definition components (p : str) : list str :=
  filter (fun x => negb (eqb x [])) (split_on sep_char p).

(** [os.path.relpath(path, start)].  [abspath] is the identity on its
    arguments here: [start] is the temporary directory or a directory in
    it, [path] is built from [start] by [join] with entry names. *)
Definition relpath (path start : str) : str :=
  let '(s', p') := drop_common (components start) (components path) in
  match map (fun _ => pardir) s' ++ p' with
  | [] => curdir
  | rel_list => Py.join sep rel_list
  end.

End Posixpath.

(** ** [fnmatch.fnmatch] on POSIX

    The pattern language of [fnmatch.translate]: [*] matches any run of
    characters (separators included), [?] one character, [[seq]] and
    [[!seq]] a character class with ranges, a [[] that is never closed
    stands for itself.  The match is anchored at both ends. *)

Module Fnmatch.
Import Py.

Inductive item :=
| One (c : N)
| Range (lo hi : N).

Inductive tok :=
| Star
| Any
| Class (negated : bool) (items : list item)
| Lit (c : N).

Definition star_c : N := 42%N.
Definition quest_c : N := 63%N.
Definition lbr_c : N := 91%N.
Definition rbr_c : N := 93%N.
Definition bang_c : N := 33%N.
Definition dash_c : N := 45%N.

(** The items of a class body: [a-b] is a range when both ends exist. *)
Fixpoint items_of (s : str) : list item :=
  match s with
  | [] => []
  | a :: s1 =>
      match s1 with
      | d :: b :: s2 =>
          if N.eqb d dash_c then Range a b :: items_of s2
          else One a :: items_of s1
      | _ => One a :: items_of s1
      end
  end.

(** Scans for the closing bracket: the body before it and the rest. *)
Fixpoint until_rbr (s : str) : option (str * str) :=
  match s with
  | [] => None
  | c :: s' =>
      if N.eqb c rbr_c then Some ([], s')
      else match until_rbr s' with
           | Some (body, rest) => Some (c :: body, rest)
           | None => None
           end
  end.

(** After an opening bracket: an optional [!], then a [[]] that comes
    first belongs to the body. *)
Definition class_of (s : str) : option (tok * str) :=
  let '(neg, s1) :=
    match s with
    | c :: s' => if N.eqb c bang_c then (true, s') else (false, s)
    | [] => (false, s)
    end in
  let '(first, s2) :=
    match s1 with
    | c :: s' => if N.eqb c rbr_c then ([c], s') else ([], s1)
    | [] => ([], s1)
    end in
  match until_rbr s2 with
  | Some (body, rest) => Some (Class neg (items_of (first ++ body)), rest)
  | None => None
  end.

Fixpoint translate_fuel (fuel : nat) (pat : str) : list tok :=
  match fuel, pat with
  | O, _ => []
  | _, [] => []
  | S fuel', c :: pat' =>
      if N.eqb c star_c then Star :: translate_fuel fuel' pat'
      else if N.eqb c quest_c then Any :: translate_fuel fuel' pat'
      else if N.eqb c lbr_c then
        match class_of pat' with
        | Some (t, rest) => t :: translate_fuel fuel' rest
        | None => Lit c :: translate_fuel fuel' pat'
        end
      else Lit c :: translate_fuel fuel' pat'
  end.

Definition translate (pat : str) : list tok :=
  translate_fuel (length pat) pat.

Definition item_has (c : N) (i : item) : bool :=
  match i with
  | One x => N.eqb c x
  | Range lo hi => N.leb lo c && N.leb c hi
  end.

Definition tok_accepts (t : tok) (c : N) : bool :=
  match t with
  | Star | Any => true
  | Class neg items => xorb neg (existsb (item_has c) items)
  | Lit x => N.eqb c x
  end.

Fixpoint matches (ts : list tok) (s : str) {struct ts} : bool :=
  match ts with
  | [] => match s with [] => true | _ => false end
  | Star :: ts' =>
      (fix star (s : str) : bool :=
         matches ts' s ||
         match s with
         | [] => false
         | _ :: s' => star s'
         end) s
  | t :: ts' =>
      match s with
      | [] => false
      | c :: s' => tok_accepts t c && matches ts' s'
      end
  end.

(** [fnmatch.fnmatch(name, pat)] *)
Definition fnmatch (name pat : str) : bool :=
  matches (translate pat) name.

End Fnmatch.

(** ** Text-mode reading: codecs and newline translation *)

Module Codec.
Import Py.

(** The [errors=] argument of [open]. *)
Inductive errors := Strict | Replace.

Definition replacement_char : N := 65533%N.   (* U+FFFD *)

(** What a byte starts: an ASCII character, a multi-byte sequence with
    [need] continuation bytes of which the next lies in [lo..hi], or
    nothing valid. *)
Inductive start_class :=
| Single (c : N)
| Lead (need : nat) (acc lo hi : N)
| BadStart.

Definition start_of (b : N) : start_class :=
  if (b <? 128)%N then Single b
  else if (b <? 194)%N then BadStart
  else if (b <? 224)%N then Lead 1 (b - 192) 128 191
  else if (b =? 224)%N then Lead 2 0 160 191
  else if (b =? 237)%N then Lead 2 13 128 159
  else if (b <? 240)%N then Lead 2 (b - 224) 128 191
  else if (b =? 240)%N then Lead 3 0 144 191
  else if (b <? 244)%N then Lead 3 (b - 240) 128 191
  else if (b =? 244)%N then Lead 3 4 128 143
  else BadStart.

(** A decoding error: raised under [Strict], one U+FFFD under
    [Replace], after which decoding goes on. *)
Definition on_error (e : errors) (k : decode_error + str)
  : decode_error + str :=
  match e with
  | Strict => inl UnicodeDecodeError
  | Replace =>
      match k with
      | inl x => inl x
      | inr s => inr (replacement_char :: s)
      end
  end.

Definition emit (c : N) (k : decode_error + str) : decode_error + str :=
  match k with
  | inl x => inl x
  | inr s => inr (c :: s)
  end.

(** The UTF-8 decoder.  [pending] is the sequence in progress, if any:
    continuation bytes still needed, the bits read so far and the range
    allowed for the next byte.  An ill-formed sequence is one error up to
    the offending byte, which is then looked at afresh. *)
Fixpoint utf8_from (e : errors) (pending : option (nat * N * N * N))
         (bs : bytes) : decode_error + str :=
  match bs with
  | [] =>
      match pending with
      | None => inr []
      | Some _ => on_error e (inr [])
      end
  | b :: bs' =>
      let v := Byte.to_N b in
      let afresh :=
        match start_of v with
        | Single c => emit c (utf8_from e None bs')
        | Lead need acc lo hi => utf8_from e (Some (need, acc, lo, hi)) bs'
        | BadStart => on_error e (utf8_from e None bs')
        end in
      match pending with
      | None => afresh
      | Some (need, acc, lo, hi) =>
          if (lo <=? v)%N && (v <=? hi)%N then
            let acc' := (acc * 64 + (v - 128))%N in
            match need with
            | S (S n) => utf8_from e (Some (S n, acc', 128, 191)%N) bs'
            | _ => emit acc' (utf8_from e None bs')
            end
          else on_error e afresh
      end
  end.

(** [bytes.decode('utf-8', errors)] *)
Definition decode_utf8 (e : errors) (bs : bytes) : decode_error + str :=
  utf8_from e None bs.

(** [bytes.decode('latin-1')]: every byte is its own code point. *)
Definition decode_latin1 (bs : bytes) : str := map Byte.to_N bs.

(** Universal newlines ([newline=None] on reading): ["\r\n"] and a lone
    ["\r"] both become ["\n"]. *)
Fixpoint universal_newlines (s : str) : str :=
  match s with
  | [] => []
  | c :: r =>
      if (c =? 13)%N then
        10%N :: match r with
                | d :: r' =>
                    if (d =? 10)%N then universal_newlines r'
                    else universal_newlines r
                | [] => []
                end
      else c :: universal_newlines r
  end.

Inductive encoding := Utf8 (e : errors) | Latin1.

(** What [f.read()] returns in text mode from the bytes of the file. *)
Definition decode_text (enc : encoding) (bs : bytes)
  : decode_error + str :=
  match enc with
  | Utf8 e =>
      match decode_utf8 e bs with
      | inl x => inl x
      | inr s => inr (universal_newlines s)
      end
  | Latin1 => inr (universal_newlines (decode_latin1 bs))
  end.

End Codec.

(** ** The file system and the other collaborators *)

Module Repo.
Import Py.

(** What [extractall] leaves in the temporary directory: files and
    directories, the entries of a directory in the order in which the
    file system lists them. *)
Inductive node :=
| File (name : str)
| Dir (name : str) (entries : list node).

Definition node_name (n : node) : str :=
  match n with File name => name | Dir name _ => name end.

Definition isdir (n : node) : bool :=
  match n with Dir _ _ => true | File _ => false end.

Definition isfile (n : node) : bool :=
  match n with File _ => true | Dir _ _ => false end.

Definition entries_of (n : node) : list node :=
  match n with Dir _ es => es | File _ => [] end.

(** The outcome of [zipfile.ZipFile(zip_path).extractall(temp_dir)]. *)
Inductive extraction :=
| BadZipFile
| ExtractFailed (e : exn)
| Extracted (extracted_items : list node).

(** The calls the function makes on the outside world.  [getsize] raises
    nothing but [OSError] on a path; [read_probe p n] is [open(p, 'rb')]
    followed by [read(n)]; [read_file] is the bytes a text-mode [open]
    and [read] obtain before decoding, or the exception the operating
    system raises instead.  The file system does not change while the
    function runs: the same call gives the same answer. *)
Record world := {
  path_exists : str -> bool;
  mkdtemp : exn + str;
  extractall : str -> str -> extraction;
  getsize : str -> str + Z;
  read_probe : str -> nat -> exn + bytes;
  read_file : str -> exn + bytes;
  makedirs : str -> option exn;
  write_file : str -> str -> option exn
}.

(** The calls made, in order, whether they succeed or not. *)
Inductive effect :=
| MkTemp
| ExtractAll (zip_path temp_dir : str)
| GetSize (path : str)
| ReadProbe (path : str)
| ReadText (path : str) (enc : Codec.encoding)
| MakeDirs (path : str)
| WriteFile (path text : str)
| RmTemp (temp_dir : str).

(** *** [os.walk(top, topdown=True)], exhausted by [list] *)

Definition walk_item : Type := str * list str * list str.

Definition dirnames (es : list node) : list str :=
  map node_name (filter isdir es).

Definition filenames (es : list node) : list str :=
  map node_name (filter isfile es).

Fixpoint walk_node (parent : str) (n : node) : list walk_item :=
  match n with
  | File _ => []
  | Dir name es =>
      let top := Posixpath.join parent name in
      (top, dirnames es, filenames es) :: flat_map (walk_node top) es
  end.

(** The whole generator is consumed before the loop of line 141 starts,
    so every directory under [top] is in the list, in listing order. *)
Definition os_walk (top : str) (es : list node) : list walk_item :=
  (top, dirnames es, filenames es) :: flat_map (walk_node top) es.

(** *** Root resolution (lines 70-96) *)

Definition potential_dirs (extracted_items : list node) : list node :=
  filter (fun d => isdir d && negb (startswith (node_name d) (lit ".")))
         extracted_items.

Definition base_name_zip (zip_path : str) : str :=
  fst (Posixpath.splitext (Posixpath.basename zip_path)).

Record resolved := {
  repo_root_in_temp : str;
  repo_display_name : str;
  root_entries : list node
}.

Definition resolve_root (temp_dir zip_path : str)
           (extracted_items : list node) : resolved :=
  match potential_dirs extracted_items with
  | [d] =>
      {| repo_root_in_temp := Posixpath.join temp_dir (node_name d);
         repo_display_name := node_name d;
         root_entries := entries_of d |}
  | _ =>
      {| repo_root_in_temp := temp_dir;
         repo_display_name := base_name_zip zip_path;
         root_entries := extracted_items |}
  end.

(** *** The structure walk (lines 114-197) *)

Record walk_state := {
  structure_lines : list str;
  files_to_process : list (str * str);
  total_dirs : nat;
  total_files : nat;
  excluded_dirs_count : nat;
  excluded_files_count : nat
}.

Definition walk_init : walk_state :=
  {| structure_lines := []; files_to_process := [];
     total_dirs := 0; total_files := 0;
     excluded_dirs_count := 0; excluded_files_count := 0 |}.

Section Walker.
Variable fnmatch : str -> str -> bool.
Variable exclude_patterns : list str.
Variable root_path : str.          (* repo_root_in_temp *)
Variable display_name : str.       (* repo_display_name *)

(** The helper of lines 122-135. *)
Definition is_excluded (path_to_check relative_to : str) : bool :=
  match exclude_patterns with
  | [] => false
  | _ =>
      let relative_path_for_match :=
        Posixpath.relpath path_to_check relative_to in
      existsb
        (fun pattern =>
           fnmatch relative_path_for_match pattern
           || fnmatch (Posixpath.basename path_to_check) pattern)
        exclude_patterns
  end.

Definition indent_of (level : nat) : str :=
  times (lit "  ") level ++ lit "|-- ".

(** Lines 187-197, one file of the sorted list. *)
Definition list_file (root relative_path file_indent : str)
           (st : walk_state) (f : str) : walk_state :=
  let full_file_path := Posixpath.join root f in
  let relative_file_path_header :=
    if eqb relative_path Posixpath.curdir then f
    else Posixpath.join relative_path f in
  {| structure_lines := structure_lines st ++ [file_indent ++ f ++ nl];
     files_to_process :=
       files_to_process st
       ++ [(relative_file_path_header, full_file_path)];
     total_dirs := total_dirs st;
     total_files := S (total_files st);
     excluded_dirs_count := excluded_dirs_count st;
     excluded_files_count := excluded_files_count st |}.

(** One iteration of the loop of line 141.  The assignments to
    [dirs[:]] and [dirs.sort()] change a list no one reads again. *)
Definition walk_step (st : walk_state) (item : walk_item) : walk_state :=
  let '(root, dirs, files) := item in
  if is_excluded root root_path && negb (eqb root root_path) then
    {| structure_lines := structure_lines st;
       files_to_process := files_to_process st;
       total_dirs := total_dirs st;
       total_files := total_files st;
       excluded_dirs_count := excluded_dirs_count st + (1 + length dirs);
       excluded_files_count := excluded_files_count st + length files |}
  else
    let relative_path := Posixpath.relpath root root_path in
    let at_top := eqb relative_path Posixpath.curdir in
    let level :=
      if at_top then 0
      else count Posixpath.sep_char relative_path + 1 in
    let line :=
      if at_top then display_name ++ lit "/" ++ nl
      else indent_of level ++ Posixpath.basename root ++ lit "/" ++ nl in
    let file_indent := indent_of (level + 1) in
    let kept_dirs :=
      filter (fun d =>
                negb (is_excluded (Posixpath.join root d) root_path))
             dirs in
    let filtered_files :=
      filter (fun f =>
                negb (is_excluded (Posixpath.join root f) root_path))
             files in
    let st1 :=
      {| structure_lines := structure_lines st ++ [line];
         files_to_process := files_to_process st;
         total_dirs := S (total_dirs st);
         total_files := total_files st;
         excluded_dirs_count :=
           excluded_dirs_count st + (length dirs - length kept_dirs);
         excluded_files_count :=
           excluded_files_count st
           + length (filter (fun f =>
                               is_excluded (Posixpath.join root f)
                                           root_path)
                            files) |} in
    fold_left (list_file root relative_path file_indent)
              (sort filtered_files) st1.

Definition walk (items_to_walk : list walk_item) : walk_state :=
  fold_left walk_step items_to_walk walk_init.

End Walker.

(** *** Rendering the file contents (lines 212-286) *)

Record render_state := {
  output_lines : list str;
  processed_files : nat;
  skipped_binary : nat;
  skipped_size : nat;
  read_errors : nat;
  io_log : list effect
}.

Definition append (l : str) (st : render_state) : render_state :=
  {| output_lines := output_lines st ++ [l];
     processed_files := processed_files st;
     skipped_binary := skipped_binary st;
     skipped_size := skipped_size st;
     read_errors := read_errors st;
     io_log := io_log st |}.

Definition log (e : effect) (st : render_state) : render_state :=
  {| output_lines := output_lines st;
     processed_files := processed_files st;
     skipped_binary := skipped_binary st;
     skipped_size := skipped_size st;
     read_errors := read_errors st;
     io_log := io_log st ++ [e] |}.

Definition count_processed (st : render_state) : render_state :=
  {| output_lines := output_lines st;
     processed_files := S (processed_files st);
     skipped_binary := skipped_binary st;
     skipped_size := skipped_size st;
     read_errors := read_errors st;
     io_log := io_log st |}.

Definition count_binary (st : render_state) : render_state :=
  {| output_lines := output_lines st;
     processed_files := processed_files st;
     skipped_binary := S (skipped_binary st);
     skipped_size := skipped_size st;
     read_errors := read_errors st;
     io_log := io_log st |}.

Definition count_size (st : render_state) : render_state :=
  {| output_lines := output_lines st;
     processed_files := processed_files st;
     skipped_binary := skipped_binary st;
     skipped_size := S (skipped_size st);
     read_errors := read_errors st;
     io_log := io_log st |}.

Definition count_error (st : render_state) : render_state :=
  {| output_lines := output_lines st;
     processed_files := processed_files st;
     skipped_binary := skipped_binary st;
     skipped_size := skipped_size st;
     read_errors := S (read_errors st);
     io_log := io_log st |}.

Definition begin_marker (rel_path_header : str) : str :=
  lit "--- BEGIN FILE: " ++ rel_path_header ++ lit " ---" ++ nl.

Definition end_marker (rel_path_header : str) : str :=
  nl ++ lit "--- END FILE: " ++ rel_path_header ++ lit " ---" ++ nl ++ nl.

Definition size_notice (file_size : Z) (max_file_size_kb : option Z)
  : str :=
  lit "[File content skipped - size (" ++ fmt_kb file_size
  ++ lit " KB) exceeds limit (" ++ of_opt_Z max_file_size_kb
  ++ lit " KB)]" ++ nl.

Definition size_error_notice (e_size : str) : str :=
  lit "[Error checking file size: " ++ e_size ++ lit "]" ++ nl.

Definition probe_error_notice (e : exn) : str :=
  match e with
  | OSError m =>
      lit "[Error checking if file is binary: " ++ m ++ lit "]" ++ nl
  | _ =>
      lit "[Unexpected error checking if file is binary: "
      ++ exn_msg e ++ lit "]" ++ nl
  end.

Definition binary_notice : str :=
  lit "[Binary file - content skipped]" ++ nl.

Definition latin1_warning : str :=
  lit "[WARNING: Could not read as UTF-8, read as Latin-1]" ++ nl.

Definition fallback_error_notice (e : exn) : str :=
  lit "[Error reading file (tried UTF-8, Latin-1): " ++ exn_msg e
  ++ lit "]" ++ nl.

Definition read_error_notice (e : exn) : str :=
  match e with
  | OSError m => lit "[Error reading file: " ++ m ++ lit "]" ++ nl
  | _ => lit "[Unexpected error reading file: " ++ exn_msg e
         ++ lit "]" ++ nl
  end.

(** [b'\0' in chunk] *)
Definition has_null (chunk : bytes) : bool :=
  existsb (fun b => N.eqb (Byte.to_N b) 0) chunk.

(** Line 48. *)
Definition max_size_bytes (max_file_size_kb : option Z) : option Z :=
  match max_file_size_kb with
  | Some k => if (0 <? k)%Z then Some (k * 1024)%Z else None
  | None => None
  end.

Definition exceeds (file_size : Z) (limit : option Z) : bool :=
  match limit with
  | Some m => (m <? file_size)%Z
  | None => false
  end.

Section Renderer.
Variable w : world.
Variable max_file_size_kb : option Z.

(** Lines 259-280: the text branch.  [open] and [read] in text mode
    either raise what the operating system raises or decode the bytes of
    the file, and only decoding raises [UnicodeDecodeError]. *)
Definition render_text (rel_path_header full_path : str)
           (st : render_state) : render_state :=
  let enc := Codec.Utf8 Codec.Replace in
  let st := log (ReadText full_path enc) st in
  match read_file w full_path with
  | inl e_read => count_error (append (read_error_notice e_read) st)
  | inr bs =>
      match Codec.decode_text enc bs with
      | inr content => append content st
      | inl UnicodeDecodeError =>
          let st := log (ReadText full_path Codec.Latin1) st in
          match read_file w full_path with
          | inr bs_latin =>
              let content :=
                Codec.universal_newlines (Codec.decode_latin1 bs_latin) in
              append content (append latin1_warning st)
          | inl e_fallback =>
              count_error (append (fallback_error_notice e_fallback) st)
          end
      end
  end.

(** One iteration of the loop of line 217. *)
Definition render_file (st : render_state) (rec : str * str)
  : render_state :=
  let '(rel_path_header, full_path) := rec in
  let st := count_processed st in
  let st := append (begin_marker rel_path_header) st in
  let st := log (GetSize full_path) st in
  match getsize w full_path with
  | inl e_size =>
      let st := append (size_error_notice e_size) st in
      let st := count_error st in
      append (end_marker rel_path_header) st
  | inr file_size =>
      if exceeds file_size (max_size_bytes max_file_size_kb) then
        let st := append (size_notice file_size max_file_size_kb) st in
        let st := count_size st in
        append (end_marker rel_path_header) st
      else
        let st := log (ReadProbe full_path) st in
        match read_probe w full_path 1024 with
        | inl e_bin_check =>
            let st := append (probe_error_notice e_bin_check) st in
            let st := count_error st in
            append (end_marker rel_path_header) st
        | inr chunk =>
            let st :=
              if has_null chunk
              then append binary_notice (count_binary st)
              else render_text rel_path_header full_path st in
            append (end_marker rel_path_header) st
        end
  end.

Definition render (st : render_state)
           (records : list (str * str)) : render_state :=
  fold_left render_file records st.

End Renderer.

(** *** The report (lines 102-112 and 199-208) *)

Definition rule (c : string) : str := times (lit c) 80.

Definition header_lines (zip_path : str) (exclude_patterns : list str)
           (max_file_size_kb : option Z) : list str :=
  [lit "Repository structure and content from file: "
   ++ Posixpath.basename zip_path ++ nl]
  ++ match exclude_patterns with
     | [] => []
     | _ => [lit "Applied exclusion patterns: "
             ++ join (lit ", ") exclude_patterns ++ nl]
     end
  ++ match max_size_bytes max_file_size_kb with
     | Some _ => [lit "Applied max file size limit: "
                  ++ of_opt_Z max_file_size_kb ++ lit " KB" ++ nl]
     | None => []
     end
  ++ [rule "=" ++ nl;
      lit "DIRECTORY STRUCTURE:" ++ nl;
      rule "-" ++ nl].

Definition totals_lines (ws : walk_state) : list str :=
  [nl ++ lit "(Included directories: " ++ of_nat (total_dirs ws)
   ++ lit ", Included files: " ++ of_nat (total_files ws)]
  ++ (if (0 <? excluded_dirs_count ws)%nat
         || (0 <? excluded_files_count ws)%nat
      then [lit ", Excluded dirs: " ++ of_nat (excluded_dirs_count ws)
            ++ lit ", Excluded files: "
            ++ of_nat (excluded_files_count ws)]
      else [])
  ++ [lit ")" ++ nl;
      nl ++ rule "=" ++ nl;
      lit "FILE CONTENTS:" ++ nl;
      rule "-" ++ nl ++ nl].

(** The lines printed on success (lines 309-314). *)
Definition success_lines (output_txt_path : str) (ws : walk_state)
           (rs : render_state) : list str :=
  [rule "-";
   lit "Success! File '" ++ output_txt_path ++ lit "' has been created.";
   lit "  Summary: Included Files: " ++ of_nat (processed_files rs)
   ++ lit ", Skipped Binary: " ++ of_nat (skipped_binary rs)
   ++ lit ", Skipped Size: " ++ of_nat (skipped_size rs)
   ++ lit ", Read Errors: " ++ of_nat (read_errors rs)]
  ++ (if (0 <? excluded_files_count ws)%nat
         || (0 <? excluded_dirs_count ws)%nat
      then [lit "           Excluded Dirs: "
            ++ of_nat (excluded_dirs_count ws)
            ++ lit ", Excluded Files: "
            ++ of_nat (excluded_files_count ws)]
      else [])
  ++ [rule "-"].

(** *** The whole function *)

(** What a call leaves behind: the value returned, the calls made on the
    outside world, and the success summary that was printed (empty when
    the call fails; error messages are console diagnostics). *)
Record result := {
  returned : bool;
  effects : list effect;
  summary : list str
}.

Definition failure (es : list effect) : result :=
  {| returned := false; effects := es; summary := [] |}.

Section Run.
Variable fnmatch : str -> str -> bool.
Variable w : world.
Variable zip_path output_txt_path : str.
Variable exclude_patterns : list str.
Variable max_file_size_kb : option Z.

(** Lines 29-34: the input is there and is named like an archive. *)
Definition input_accepted : bool :=
  path_exists w zip_path && endswith (lower zip_path) (lit ".zip").

(** The structure walk of the resolved root. *)
Definition walk_of (r : resolved) : walk_state :=
  walk fnmatch exclude_patterns (repo_root_in_temp r)
       (repo_display_name r)
       (os_walk (repo_root_in_temp r) (root_entries r)).

(** The state in which the content loop starts. *)
Definition render_init (ws : walk_state) : render_state :=
  {| output_lines :=
       header_lines zip_path exclude_patterns max_file_size_kb
       ++ structure_lines ws ++ totals_lines ws;
     processed_files := 0; skipped_binary := 0; skipped_size := 0;
     read_errors := 0; io_log := [] |}.

Definition render_of (ws : walk_state) : render_state :=
  render w max_file_size_kb (render_init ws) (files_to_process ws).

(** Lines 296-322: create the output directory if need be, write. *)
Definition save (pre : list effect) (temp_dir : str) (ws : walk_state)
           (rs : render_state) : result :=
  let text := concat (output_lines rs) in
  let output_dir := Posixpath.dirname output_txt_path in
  let must_create :=
    negb (eqb output_dir []) && negb (path_exists w output_dir) in
  let made :=
    if must_create then makedirs w output_dir else None in
  let dir_effects := if must_create then [MakeDirs output_dir] else [] in
  match made with
  | Some _ => failure (pre ++ dir_effects ++ [RmTemp temp_dir])
  | None =>
      let es := pre ++ dir_effects
                ++ [WriteFile output_txt_path text; RmTemp temp_dir] in
      match write_file w output_txt_path text with
      | Some _ => failure es
      | None =>
          {| returned := true; effects := es;
             summary := success_lines output_txt_path ws rs |}
      end
  end.

Definition generate_repository_description : result :=
  if negb (path_exists w zip_path) then failure []
  else if negb (endswith (lower zip_path) (lit ".zip")) then failure []
  else
    match mkdtemp w with
    | inl _ => failure [MkTemp]
    | inr temp_dir =>
        let staged := [MkTemp; ExtractAll zip_path temp_dir] in
        match extractall w zip_path temp_dir with
        | BadZipFile => failure (staged ++ [RmTemp temp_dir])
        | ExtractFailed _ => failure (staged ++ [RmTemp temp_dir])
        | Extracted extracted_items =>
            let r := resolve_root temp_dir zip_path extracted_items in
            let ws := walk_of r in
            let rs := render_of ws in
            save (staged ++ io_log rs) temp_dir ws rs
        end
    end.

End Run.

End Repo.

(** ** The command line (lines 337-403) *)

Module Cli.
Import Py Repo.

(** What [parser.parse_args()] returns: the archive, [-o], the [-e]
    patterns in the order given (none by default), [-mfs], [-v]. *)
Record args := {
  input_zip : str;
  output : option str;
  exclude : list str;
  max_file_size : option Z;
  verbose : bool
}.

(** Lines 377-378: the name used when [-o] is absent or empty. *)
Definition default_output (input_zip : str) : str :=
  base_name_zip input_zip ++ lit "_structure_and_content.txt".

(** Lines 375-378. *)
Definition output_path (a : args) : str :=
  match output a with
  | Some (c :: p) => c :: p
  | _ => default_output (input_zip a)
  end.

(** [main]: the run and the exit status of the process, [1] through
    [exit(1)] when the run fails and [0] when [main] returns. *)
Definition main (fnmatch : str -> str -> bool) (w : world) (a : args)
  : Z * result :=
  let run :=
    generate_repository_description
      fnmatch w (input_zip a) (output_path a) (exclude a)
      (max_file_size a) in
  (if returned run then 0%Z else 1%Z, run).

End Cli.

(** ** Vocabulary of the properties *)

Import Py Repo.

(** The three calls the content loop makes on the file at [p] succeed and
    agree on its bytes [bs]. *)
Definition readable (w : world) (p : str) (bs : bytes) : Prop :=
  getsize w p = inr (Z.of_nat (length bs))
  /\ read_probe w p 1024 = inr (firstn 1024 bs)
  /\ read_file w p = inr bs.

(** The file at [p] is intact and holds the bytes [bs], whatever is asked
    of it: [getsize] gives their number, a binary [read(n)] the first [n]
    of them, or all if there are fewer, and a read to the end all of
    them. *)
Definition intact (w : world) (p : str) (bs : bytes) : Prop :=
  getsize w p = inr (Z.of_nat (length bs))
  /\ (forall n, read_probe w p n = inr (firstn n bs))
  /\ read_file w p = inr bs.

(** The integer a decimal numeral denotes, if it is one. *)
Definition decimal_value (s : str) : option Z :=
  option_map Z.of_int
    (NilZero.int_of_string (string_of_list_ascii (map ascii_of_N s))).

(** The size of [bs] passes the configured limit, if there is one. *)
Definition within_limit (bs : bytes) (max_file_size_kb : option Z) : Prop :=
  exceeds (Z.of_nat (length bs)) (max_size_bytes max_file_size_kb) = false.

(** A per-file failure and the notice it leaves: an I/O error while
    sizing, while probing for a null byte or while reading the text, or
    another exception while probing or reading. *)
Inductive file_failure (w : world) (max_file_size_kb : option Z) (p : str)
  : str -> Prop :=
| SizeFails e :
    getsize w p = inl e ->
    file_failure w max_file_size_kb p
      (lit "[Error checking file size: " ++ e ++ lit "]" ++ nl)
| ProbeFails n e :
    getsize w p = inr n ->
    exceeds n (max_size_bytes max_file_size_kb) = false ->
    read_probe w p 1024 = inl (OSError e) ->
    file_failure w max_file_size_kb p
      (lit "[Error checking if file is binary: " ++ e ++ lit "]" ++ nl)
| ReadFails n chunk e :
    getsize w p = inr n ->
    exceeds n (max_size_bytes max_file_size_kb) = false ->
    read_probe w p 1024 = inr chunk ->
    has_null chunk = false ->
    read_file w p = inl (OSError e) ->
    file_failure w max_file_size_kb p
      (lit "[Error reading file: " ++ e ++ lit "]" ++ nl)
| ProbeRaises n e :
    getsize w p = inr n ->
    exceeds n (max_size_bytes max_file_size_kb) = false ->
    read_probe w p 1024 = inl (OtherException e) ->
    file_failure w max_file_size_kb p
      (lit "[Unexpected error checking if file is binary: " ++ e
       ++ lit "]" ++ nl)
| ReadRaises n chunk e :
    getsize w p = inr n ->
    exceeds n (max_size_bytes max_file_size_kb) = false ->
    read_probe w p 1024 = inr chunk ->
    has_null chunk = false ->
    read_file w p = inl (OtherException e) ->
    file_failure w max_file_size_kb p
      (lit "[Unexpected error reading file: " ++ e ++ lit "]" ++ nl).

(** The lines one record contributes: the two markers that name it,
    around a body of one or two chunks. *)
Definition file_block (rec : str * str) (block : list str) : Prop :=
  exists body,
    block = [lit "--- BEGIN FILE: " ++ fst rec ++ lit " ---" ++ nl]
            ++ body
            ++ [nl ++ lit "--- END FILE: " ++ fst rec ++ lit " ---"
                ++ nl ++ nl]
    /\ (length body = 1 \/ length body = 2).

(** C4 as the claim words it: in the report of a run, the strictly
    decoded text of an included file stands between its markers. *)
Definition roundtrip_verbatim : Prop :=
  forall (fnmatch : str -> str -> bool) (w : world) (zip_path : str)
         (exclude_patterns : list str) (m : option Z) (r : resolved)
         (h p : str) (bs : bytes) (s : str),
    let ws := walk_of fnmatch exclude_patterns r in
    In (h, p) (files_to_process ws) ->
    readable w p bs ->
    has_null (firstn 1024 bs) = false ->
    Codec.decode_utf8 Codec.Strict bs = inr s ->
    within_limit bs m ->
    exists before after : str,
      concat (output_lines (render_of w zip_path exclude_patterns m ws))
      = before ++ begin_marker h ++ s ++ end_marker h ++ after.

Ltac flatten_lines :=
  cbn [output_lines processed_files skipped_binary skipped_size read_errors
       io_log append log count_processed count_binary count_size
       count_error];
  rewrite <- ?app_assoc; cbn [app].

(** Several calls entered in the log, in order. *)
Definition log_all (ops : list effect) (st : render_state) : render_state :=
  fold_left (fun s e => log e s) ops st.

(** Every listed file is a record, and every structure line is a
    directory or a listed file. *)
Definition tally (st : walk_state) : Prop :=
  total_files st = length (files_to_process st)
  /\ length (structure_lines st) = total_dirs st + total_files st.

(** The order of [list.sort] on names. *)
Definition name_le (a b : str) : Prop := leb a b = true.

(** The directories and the files of a tree. *)
Fixpoint count_dirs (n : node) : nat :=
  match n with
  | File _ => 0
  | Dir _ es => S (list_sum (map count_dirs es))
  end.

Fixpoint count_files (n : node) : nat :=
  match n with
  | File _ => 1
  | Dir _ es => list_sum (map count_files es)
  end.

(** The calls that look at one file of the archive. *)
Definition file_call (e : effect) : bool :=
  match e with
  | GetSize _ | ReadProbe _ | ReadText _ _ => true
  | _ => false
  end.

(** The paths sized, in the order of the calls. *)
Definition sized (es : list effect) : list str :=
  flat_map (fun e => match e with GetSize p => [p] | _ => [] end) es.

(** What becomes of a file in the content loop, read off the calls on
    it: skipped for its size, skipped as binary, failed, or emitted. *)
Inductive verdict := Oversized | Binary | Failed | Emitted.

Definition verdict_eqb (a b : verdict) : bool :=
  match a, b with
  | Oversized, Oversized | Binary, Binary
  | Failed, Failed | Emitted, Emitted => true
  | _, _ => false
  end.

Definition verdict_of (w : world) (m : option Z) (p : str) : verdict :=
  match getsize w p with
  | inl _ => Failed
  | inr n =>
      if exceeds n (max_size_bytes m) then Oversized
      else match read_probe w p 1024 with
           | inl _ => Failed
           | inr chunk =>
               if has_null chunk then Binary
               else match read_file w p with
                    | inl _ => Failed
                    | inr _ => Emitted
                    end
           end
  end.

(** How many of the records end with verdict [v]. *)
Definition tally_of (w : world) (m : option Z) (v : verdict)
           (records : list (str * str)) : nat :=
  length (filter (fun rec => verdict_eqb (verdict_of w m (snd rec)) v)
                 records).

(** The calls of a run after staging: the file calls, then the output
    directory if it has to be made, then the write if it got that far,
    then the removal of the temporary directory. *)
Definition run_tail (w : world) (output_txt_path temp_dir text : str)
           (es : list effect) : Prop :=
  exists reads dirs writes,
    es = reads ++ dirs ++ writes ++ [RmTemp temp_dir]
    /\ forallb file_call reads = true
    /\ (dirs = []
        \/ dirs = [MakeDirs (Posixpath.dirname output_txt_path)]
           /\ Posixpath.dirname output_txt_path <> []
           /\ path_exists w (Posixpath.dirname output_txt_path) = false)
    /\ (writes = [] \/ writes = [WriteFile output_txt_path text]).

(** A name as a file system gives it: not empty, without a separator,
    and neither ["."] nor [".."]. *)
Definition entry_name (n : str) : Prop :=
  n <> [] /\ ~ In Posixpath.sep_char n
  /\ n <> Posixpath.curdir /\ n <> Posixpath.pardir.

(** A tree in which every entry has such a name. *)
Inductive well_named : node -> Prop :=
| WellNamedFile name :
    entry_name name -> well_named (File name)
| WellNamedDir name es :
    entry_name name -> Forall well_named es -> well_named (Dir name es).

(** A walk item whose directory lies some names below [R] and whose
    files have proper names. *)
Definition item_below (R : str) (item : walk_item) : Prop :=
  exists cs,
    Forall entry_name cs
    /\ Posixpath.components (fst (fst item)) = Posixpath.components R ++ cs
    /\ Forall entry_name (snd item).

(** A tree in which no directory holds two entries of the same name. *)
Inductive distinct_siblings : node -> Prop :=
| DistinctFile name : distinct_siblings (File name)
| DistinctDir name es :
    NoDup (map node_name es) -> Forall distinct_siblings es ->
    distinct_siblings (Dir name es).

(** The components of the directory of a walk item. *)
Definition item_key (item : walk_item) : list str :=
  Posixpath.components (fst (fst item)).

(** The entries of a tree, each as the names that lead to it from outside
    the tree, its own name last, with whether it is a directory. *)
Fixpoint node_paths (n : node) : list (list str * bool) :=
  match n with
  | File name => [([name], false)]
  | Dir name es =>
      ([name], true)
      :: map (fun e => (name :: fst e, snd e)) (flat_map node_paths es)
  end.

Definition tree_paths (es : list node) : list (list str * bool) :=
  flat_map node_paths es.

(** A walk item of the tree [es] unpacked at [R]: its directory is [R]
    or the directory entry that the names [cs] lead to, and its files
    are the file entries right below. *)
Definition item_in_tree (R : str) (es : list node) (item : walk_item)
  : Prop :=
  exists cs,
    item_key item = Posixpath.components R ++ cs
    /\ Forall entry_name cs
    /\ Forall entry_name (snd item)
    /\ (cs = []
        \/ In (cs, true) (tree_paths es)
           /\ exists cs' name,
               cs = cs' ++ [name]
               /\ Posixpath.basename (fst (fst item)) = name)
    /\ (forall f, In f (snd item) -> In (cs ++ [f], false) (tree_paths es)).

(** ** Sample archives *)

Module Sample.

Definition bytes_of (s : string) : bytes :=
  map byte_of_ascii (list_ascii_of_string s).

(** File contents by absolute path; a path that is absent cannot be
    opened. *)
Definition disk := list (str * bytes).

Fixpoint content (d : disk) (p : str) : option bytes :=
  match d with
  | [] => None
  | (q, bs) :: d' => if eqb p q then Some bs else content d' p
  end.

Definition enoent : str := lit "[Errno 2] No such file or directory".

(** The archive [repo.zip], unpacked into [/tmp/t] as [items]. *)
Definition world_of (items : list node) (d : disk) : world :=
  {| path_exists := fun p => eqb p (lit "repo.zip");
     mkdtemp := inr (lit "/tmp/t");
     extractall := fun _ _ => Extracted items;
     getsize := fun p =>
       match content d p with
       | Some bs => inr (Z.of_nat (length bs))
       | None => inl enoent
       end;
     read_probe := fun p n =>
       match content d p with
       | Some bs => inr (firstn n bs)
       | None => inl (OSError enoent)
       end;
     read_file := fun p =>
       match content d p with
       | Some bs => inr bs
       | None => inl (OSError enoent)
       end;
     makedirs := fun _ => None;
     write_file := fun _ _ => None |}.

Definition zip : str := lit "repo.zip".
Definition out : str := lit "out.txt".

Definition empty_state : render_state :=
  {| output_lines := []; processed_files := 0; skipped_binary := 0;
     skipped_size := 0; read_errors := 0; io_log := [] |}.

(** [proj/build/sub/file.txt] *)
Definition nested : list node :=
  [Dir (lit "proj")
     [Dir (lit "build") [Dir (lit "sub") [File (lit "file.txt")]]]].

(** [proj/b/] and [proj/a/], listed by the file system in either order. *)
Definition entries_b_a : list node := [Dir (lit "b") []; Dir (lit "a") []].

Definition entries_a_b : list node := [Dir (lit "a") []; Dir (lit "b") []].

Definition listed_b_a : list node := [Dir (lit "proj") entries_b_a].

Definition listed_a_b : list node := [Dir (lit "proj") entries_a_b].

(** [proj/] with a text file, a binary file, a file that is not UTF-8,
    one with a Windows line end, one of exactly 1 KB, one a byte over,
    and one that vanished after the listing. *)
Definition proj_entries : list node :=
  [File (lit "a.txt"); File (lit "bin.dat"); File (lit "l1.txt");
   File (lit "crlf.txt"); File (lit "kb.txt"); File (lit "over.txt");
   File (lit "gone.txt")].

Definition proj : list node := [Dir (lit "proj") proj_entries].

Definition p_a : str := lit "/tmp/t/proj/a.txt".
Definition p_bin : str := lit "/tmp/t/proj/bin.dat".
Definition p_l1 : str := lit "/tmp/t/proj/l1.txt".
Definition p_crlf : str := lit "/tmp/t/proj/crlf.txt".
Definition p_kb : str := lit "/tmp/t/proj/kb.txt".
Definition p_over : str := lit "/tmp/t/proj/over.txt".
Definition p_gone : str := lit "/tmp/t/proj/gone.txt".

Definition b_crlf : bytes := [x61; x0d; x0a; x62].     (* a CR LF b *)

Definition proj_disk : disk :=
  [(p_a, bytes_of "hello");
   (p_bin, [x00; x01; x02]);
   (p_l1, [xff]);
   (p_crlf, b_crlf);
   (p_kb, repeat x78 1024);
   (p_over, repeat x78 1025)].

Definition w_proj : world := world_of proj proj_disk.

(** The root and the structure walk of [proj] without exclusions. *)
Definition r_proj : resolved := resolve_root (lit "/tmp/t") zip proj.

Definition ws_proj : walk_state := walk_of Fnmatch.fnmatch [] r_proj.

(** [late.bin]: 1024 bytes that are not null, then a null byte. *)
Definition p_late : str := lit "/tmp/t/proj/late.bin".

Definition b_late : bytes := repeat x78 1024 ++ [x00].

Definition w_late : world := world_of proj [(p_late, b_late)].

(** A file system of which only the sizes matter: [getsize] answers from
    a table, and nothing can be opened. *)
Definition size_of (sizes : list (str * Z)) (p : str) : option Z :=
  option_map snd (find (fun e => eqb p (fst e)) sizes).

Definition sizes_only (sizes : list (str * Z)) : world :=
  {| path_exists := fun p => eqb p (lit "repo.zip");
     mkdtemp := inr (lit "/tmp/t");
     extractall := fun _ _ => Extracted [];
     getsize := fun p =>
       match size_of sizes p with
       | Some n => inr n
       | None => inl enoent
       end;
     read_probe := fun _ _ => inl (OSError enoent);
     read_file := fun _ => inl (OSError enoent);
     makedirs := fun _ => None;
     write_file := fun _ _ => None |}.

Definition w_sizes : world :=
  sizes_only [(lit "f1025", 1025%Z); (lit "f1536", 1536%Z);
              (lit "f1280", 1280%Z); (lit "f1792", 1792%Z);
              (lit "f1mb", 1048576%Z);
              (lit "fbig", (2 ^ 60 + 128)%Z)].

(** [w], except that the files of [no_open] cannot be opened, and those
    of [no_read] can but fail while their text is read. *)
Definition eacces : str := lit "[Errno 13] Permission denied".

Definition eio : str := lit "[Errno 5] Input/output error".

Definition faulty (w : world) (no_open no_read : list str) : world :=
  {| path_exists := path_exists w;
     mkdtemp := mkdtemp w;
     extractall := extractall w;
     getsize := getsize w;
     read_probe := fun p n =>
       if existsb (eqb p) no_open then inl (OSError eacces)
       else read_probe w p n;
     read_file := fun p =>
       if existsb (eqb p) no_open then inl (OSError eacces)
       else if existsb (eqb p) no_read then inl (OSError eio)
       else read_file w p;
     makedirs := makedirs w;
     write_file := write_file w |}.

(** [proj] of which [a.txt] cannot be opened and [crlf.txt] fails while
    it is read; [gone.txt] has vanished as before. *)
Definition w_faulty : world := faulty w_proj [p_a] [p_crlf].

(** [proj/] with the one file [a.txt]. *)
Definition one : list node := [Dir (lit "proj") [File (lit "a.txt")]].

Definition w_one : world := world_of one [(p_a, bytes_of "hello")].

(** [proj/src/lib/util.py] beside [proj/README]. *)
Definition deep : list node :=
  [Dir (lit "proj")
     [File (lit "README");
      Dir (lit "src") [Dir (lit "lib") [File (lit "util.py")]]]].

(** Two patterns, and the command line [repo.zip -e *.dat -e gone.txt]. *)
Definition pats : list str := [lit "*.dat"; lit "gone.txt"].

Definition cli : Cli.args :=
  {| Cli.input_zip := zip; Cli.output := None; Cli.exclude := pats;
     Cli.max_file_size := None; Cli.verbose := false |}.

End Sample.

(** ** The codecs *)

Section CodecFacts.
Import Codec.

(** Under [errors='replace'] the decoder has no way to raise. *)
Lemma utf8_replace_total (bs : bytes) :
  forall pending, exists s, utf8_from Replace pending bs = inr s.
Proof.
  induction bs as [|b bs IH]; intros pending; cbn [utf8_from].
  - destruct pending; simpl; eauto.
  - assert (Hfresh : exists s,
               match start_of (Byte.to_N b) with
               | Single c => emit c (utf8_from Replace None bs)
               | Lead need acc lo hi =>
                   utf8_from Replace (Some (need, acc, lo, hi)) bs
               | BadStart => on_error Replace (utf8_from Replace None bs)
               end = inr s).
    { destruct (start_of (Byte.to_N b)) as [c|need acc lo hi|].
      - destruct (IH None) as [s Hs]. rewrite Hs. simpl. eauto.
      - apply IH.
      - destruct (IH None) as [s Hs]. rewrite Hs. simpl. eauto. }
    destruct pending as [[[[need acc] lo] hi]|]; [|exact Hfresh].
    destruct ((lo <=? Byte.to_N b)%N && (Byte.to_N b <=? hi)%N).
    + destruct need as [|[|n]].
      * destruct (IH None) as [s Hs]. rewrite Hs. simpl. eauto.
      * destruct (IH None) as [s Hs]. rewrite Hs. simpl. eauto.
      * apply IH.
    + destruct Hfresh as [s Hs]. rewrite Hs. simpl. eauto.
Qed.

Lemma emit_inr c k s :
  emit c k = inr s -> exists s', k = inr s' /\ s = c :: s'.
Proof.
  destruct k as [x|s']; simpl; intros H; [discriminate|].
  injection H as <-. eauto.
Qed.

(** Bytes that decode strictly decode to the same text under
    [errors='replace']. *)
Lemma utf8_strict_replace (bs : bytes) :
  forall pending s,
    utf8_from Strict pending bs = inr s ->
    utf8_from Replace pending bs = inr s.
Proof.
  induction bs as [|b bs IH]; intros pending s; cbn [utf8_from].
  - destruct pending; simpl; [discriminate|auto].
  - assert (Hfresh : forall s,
               match start_of (Byte.to_N b) with
               | Single c => emit c (utf8_from Strict None bs)
               | Lead need acc lo hi =>
                   utf8_from Strict (Some (need, acc, lo, hi)) bs
               | BadStart => on_error Strict (utf8_from Strict None bs)
               end = inr s ->
               match start_of (Byte.to_N b) with
               | Single c => emit c (utf8_from Replace None bs)
               | Lead need acc lo hi =>
                   utf8_from Replace (Some (need, acc, lo, hi)) bs
               | BadStart => on_error Replace (utf8_from Replace None bs)
               end = inr s).
    { intros s0. destruct (start_of (Byte.to_N b)) as [c|need acc lo hi|].
      - intros H. apply emit_inr in H as (s' & Hs' & ->).
        rewrite (IH _ _ Hs'). reflexivity.
      - apply IH.
      - simpl. discriminate. }
    destruct pending as [[[[need acc] lo] hi]|]; [|apply Hfresh].
    destruct ((lo <=? Byte.to_N b)%N && (Byte.to_N b <=? hi)%N).
    + destruct need as [|[|n]].
      * intros H. apply emit_inr in H as (s' & Hs' & ->).
        rewrite (IH _ _ Hs'). reflexivity.
      * intros H. apply emit_inr in H as (s' & Hs' & ->).
        rewrite (IH _ _ Hs'). reflexivity.
      * apply IH.
    + simpl. discriminate.
Qed.

Lemma decode_text_replace_total (bs : bytes) :
  exists s, decode_text (Utf8 Replace) bs = inr s.
Proof.
  unfold decode_text, decode_utf8.
  destruct (utf8_replace_total bs None) as [s ->]. eauto.
Qed.

Lemma decode_text_of_valid (bs : bytes) (s : str) :
  decode_utf8 Strict bs = inr s ->
  decode_text (Utf8 Replace) bs = inr (universal_newlines s).
Proof.
  unfold decode_text, decode_utf8. intros H.
  rewrite (utf8_strict_replace _ _ H). reflexivity.
Qed.

(** Text without a carriage return passes newline translation as it is. *)
Lemma universal_newlines_no_cr (s : str) :
  ~ In 13%N s -> universal_newlines s = s.
Proof.
  induction s as [|c r IH]; simpl; intros H; [reflexivity|].
  destruct (N.eqb_spec c 13) as [->|Hc].
  - exfalso. apply H. now left.
  - f_equal. apply IH. intros Hin. apply H. now right.
Qed.

End CodecFacts.

(** ** One iteration of the content loop *)

Lemma to_N_zero (b : byte) : Byte.to_N b = 0%N <-> b = x00.
Proof.
  split; [|intros ->; reflexivity].
  intros H. pose proof (Byte.of_to_N b) as Hb.
  rewrite H in Hb. simpl in Hb. congruence.
Qed.

(** [b'\0' in chunk], in terms of positions. *)
Lemma has_null_spec (chunk : bytes) :
  has_null chunk = true <-> exists i, nth_error chunk i = Some x00.
Proof.
  unfold has_null. rewrite existsb_exists. split.
  - intros (b & Hin & Hb). apply N.eqb_eq, to_N_zero in Hb. subst b.
    apply In_nth_error in Hin. exact Hin.
  - intros (i & Hi). exists x00. split; [|reflexivity].
    eapply nth_error_In; eauto.
Qed.

(** The probe is the first [min(1024, size)] bytes. *)
Lemma probe_null_spec (bs : bytes) :
  has_null (firstn 1024 bs) = true
  <-> exists i, i < Nat.min 1024 (length bs) /\ nth_error bs i = Some x00.
Proof.
  rewrite has_null_spec. split.
  - intros (i & Hi).
    assert (Hlt : i < length (firstn 1024 bs)).
    { apply nth_error_Some. congruence. }
    rewrite length_firstn in Hlt.
    exists i. split; [exact Hlt|].
    rewrite nth_error_firstn in Hi.
    destruct (Nat.ltb_spec i 1024); [exact Hi|lia].
  - intros (i & Hlt & Hi). exists i.
    rewrite nth_error_firstn.
    destruct (Nat.ltb_spec i 1024); [exact Hi|lia].
Qed.

Section RenderFacts.
Variable w : world.
Variable max_file_size_kb : option Z.

(** The text branch of an intact file: decoded with replacement, never
    through the Latin-1 branch. *)
Lemma render_text_read (h p : str) (bs : bytes) (st : render_state) :
  read_file w p = inr bs ->
  exists content,
    Codec.decode_text (Codec.Utf8 Codec.Replace) bs = inr content
    /\ render_text w h p st
       = append content
                (log (ReadText p (Codec.Utf8 Codec.Replace)) st).
Proof.
  intros Hread.
  destruct (decode_text_replace_total bs) as [content Hc].
  exists content. split; [exact Hc|].
  unfold render_text. rewrite Hread, Hc. reflexivity.
Qed.

Lemma render_file_binary (st : render_state) (h p : str) (n : Z)
      (chunk : bytes) :
  getsize w p = inr n ->
  exceeds n (max_size_bytes max_file_size_kb) = false ->
  read_probe w p 1024 = inr chunk ->
  has_null chunk = true ->
  render_file w max_file_size_kb st (h, p)
  = append (end_marker h)
      (append binary_notice
         (count_binary
            (log (ReadProbe p)
               (log (GetSize p)
                  (append (begin_marker h) (count_processed st)))))).
Proof.
  intros Hsize Hlim Hprobe Hnull. unfold render_file.
  rewrite Hsize, Hlim, Hprobe, Hnull. reflexivity.
Qed.

Lemma render_file_text (st : render_state) (h p : str) (n : Z)
      (chunk bs : bytes) :
  getsize w p = inr n ->
  exceeds n (max_size_bytes max_file_size_kb) = false ->
  read_probe w p 1024 = inr chunk ->
  has_null chunk = false ->
  read_file w p = inr bs ->
  exists content,
    Codec.decode_text (Codec.Utf8 Codec.Replace) bs = inr content
    /\ render_file w max_file_size_kb st (h, p)
       = append (end_marker h)
           (append content
              (log (ReadText p (Codec.Utf8 Codec.Replace))
                 (log (ReadProbe p)
                    (log (GetSize p)
                       (append (begin_marker h)
                               (count_processed st)))))).
Proof.
  intros Hsize Hlim Hprobe Hnull Hread. unfold render_file.
  rewrite Hsize, Hlim, Hprobe, Hnull.
  destruct (render_text_read h p
              (log (ReadProbe p)
                 (log (GetSize p)
                    (append (begin_marker h) (count_processed st))))
              Hread) as (content & Hc & ->).
  exists content. split; [exact Hc|reflexivity].
Qed.

Lemma render_file_oversized (st : render_state) (h p : str) (n : Z) :
  getsize w p = inr n ->
  exceeds n (max_size_bytes max_file_size_kb) = true ->
  render_file w max_file_size_kb st (h, p)
  = append (end_marker h)
      (count_size
         (append (size_notice n max_file_size_kb)
            (log (GetSize p)
               (append (begin_marker h) (count_processed st))))).
Proof.
  intros Hsize Hlim. unfold render_file.
  rewrite Hsize, Hlim. reflexivity.
Qed.

(** Whatever happens to the file, the iteration counts it once and
    appends its two markers around one or two chunks. *)
Lemma render_file_block (st : render_state) (rec : str * str) :
  processed_files (render_file w max_file_size_kb st rec) = S (processed_files st)
  /\ exists block,
      file_block rec block
      /\ output_lines (render_file w max_file_size_kb st rec) = output_lines st ++ block.
Proof.
  destruct rec as [h p]. unfold render_file, file_block.
  cbn [fst].
  destruct (getsize w p) as [e|n].
  { split; [reflexivity|]. eexists. split.
    - exists [size_error_notice e]. split; [reflexivity|now left].
    - flatten_lines. reflexivity. }
  destruct (exceeds n (max_size_bytes max_file_size_kb)).
  { split; [reflexivity|]. eexists. split.
    - exists [size_notice n max_file_size_kb].
      split; [reflexivity|now left].
    - flatten_lines. reflexivity. }
  destruct (read_probe w p 1024) as [e|chunk].
  { split; [reflexivity|]. eexists. split.
    - exists [probe_error_notice e]. split; [reflexivity|now left].
    - flatten_lines. reflexivity. }
  destruct (has_null chunk).
  { split; [reflexivity|]. eexists. split.
    - exists [binary_notice]. split; [reflexivity|now left].
    - flatten_lines. reflexivity. }
  unfold render_text.
  destruct (read_file w p) as [e|bs].
  { split; [reflexivity|]. eexists. split.
    - exists [read_error_notice e]. split; [reflexivity|now left].
    - flatten_lines. reflexivity. }
  destruct (Codec.decode_text (Codec.Utf8 Codec.Replace) bs)
    as [[]|content].
  - split; [reflexivity|]. eexists. split.
    + exists [latin1_warning;
              Codec.universal_newlines (Codec.decode_latin1 bs)].
      split; [reflexivity|now right].
    + flatten_lines. reflexivity.
  - split; [reflexivity|]. eexists. split.
    + exists [content]. split; [reflexivity|now left].
    + flatten_lines. reflexivity.
Qed.

End RenderFacts.

(** ** The content loop as a whole *)

(** The loop appends one block per record, in order, and counts each
    record once. *)
Lemma render_blocks (w : world) (m : option Z) (records : list (str * str)) :
  forall st,
  exists blocks,
    Forall2 file_block records blocks
    /\ output_lines (render w m st records)
       = output_lines st ++ concat blocks
    /\ processed_files (render w m st records)
       = processed_files st + length records.
Proof.
  induction records as [|rec rest IH]; intros st; cbn [render fold_left].
  - exists []. split; [constructor|split].
    + now rewrite app_nil_r.
    + cbn [length]. lia.
  - destruct (render_file_block w m st rec) as (Hcount & block & Hblock & Hout).
    destruct (IH (render_file w m st rec)) as (blocks & Hall & Hrest & Hn).
    exists (block :: blocks). unfold render in Hrest, Hn.
    repeat split.
    + now constructor.
    + rewrite Hrest, Hout. cbn [concat]. now rewrite app_assoc.
    + rewrite Hn, Hcount. cbn [length]. lia.
Qed.

Lemma render_cons (w : world) (m : option Z) (st : render_state)
      (rec : str * str) (rest : list (str * str)) :
  render w m st (rec :: rest) = render w m (render_file w m st rec) rest.
Proof. reflexivity. Qed.

(** A block appended by one iteration is still there, untouched, when the
    loop ends. *)
Lemma render_keeps_block (w : world) (m : option Z)
      (records : list (str * str)) (rec : str * str) (block : list str) :
  In rec records ->
  (forall st,
      output_lines (render_file w m st rec) = output_lines st ++ block) ->
  forall st,
  exists before after,
    output_lines (render w m st records) = before ++ block ++ after.
Proof.
  intros Hin Hblock.
  induction records as [|r rest IH]; [contradiction|].
  intros st. rewrite render_cons. destruct Hin as [->|Hin].
  - destruct (render_blocks w m rest (render_file w m st rec))
      as (blocks & _ & Hout & _).
    exists (output_lines st), (concat blocks).
    rewrite Hout, Hblock. now rewrite app_assoc.
  - apply IH. exact Hin.
Qed.

(** ** C3: the decoding strategy *)

(** C3 (the code departs from the claim).  The file [l1.txt] holds the one
    byte [0xFF], which is not UTF-8: a strict decode fails.  The renderer
    does not fall back to Latin-1: it opens the file with
    [errors='replace'], so the byte comes out as U+FFFD, without a warning
    and without a second read, where the claim has [U+00FF] after the
    Latin-1 warning. *)
Theorem C3_invalid_utf8_replaced_not_latin1 :
  let st := render_file Sample.w_proj None Sample.empty_state
                        (lit "l1.txt", Sample.p_l1) in
  Codec.decode_utf8 Codec.Strict [xff] = inl UnicodeDecodeError
  /\ Codec.decode_latin1 [xff] = [255%N]
  /\ output_lines st
     = [begin_marker (lit "l1.txt"); [Codec.replacement_char];
        end_marker (lit "l1.txt")]
  /\ output_lines st
     <> [begin_marker (lit "l1.txt"); latin1_warning; [255%N];
         end_marker (lit "l1.txt")]
  /\ io_log st
     = [GetSize Sample.p_l1; ReadProbe Sample.p_l1;
        ReadText Sample.p_l1 (Codec.Utf8 Codec.Replace)]
  /\ read_errors st = 0.
Proof.
  cbv zeta. repeat split; try (vm_compute; reflexivity).
  vm_compute. discriminate.
Qed.

(** ** C4: round trip of text files *)
(** C4 (counterexample).  In the archive [proj/], [crlf.txt] holds
    [a CR LF b], which is valid UTF-8 without a null byte.  Its block reads
    [a LF b]: the whole report has no carriage return, so the decoded text
    is not in it. *)
Lemma C4_counterexample_crlf : ~ roundtrip_verbatim.
Proof.
  intros Hclaim.
  destruct (Hclaim Fnmatch.fnmatch Sample.w_proj Sample.zip [] None
                   Sample.r_proj (lit "crlf.txt") Sample.p_crlf
                   Sample.b_crlf [97; 13; 10; 98]%N)
    as (before & after & Hout).
  - vm_compute. tauto.
  - repeat split.
  - reflexivity.
  - reflexivity.
  - reflexivity.
  - match type of Hout with
    | ?report = _ =>
        assert (Hcr : existsb (N.eqb 13) report = true)
    end.
    { rewrite Hout. rewrite !existsb_app. cbn [existsb N.eqb Pos.eqb orb].
      rewrite !orb_true_r. reflexivity. }
    vm_compute in Hcr. discriminate Hcr.
Qed.

(** C4 (amended).  For every record of a run whose file is intact, has no
    null byte in its first 1024 bytes, is valid UTF-8 and passes the size
    limit, the report holds the decoded text between the record's BEGIN
    and END markers after universal-newline translation (CR LF and lone CR
    become LF); text without a carriage return stands there verbatim. *)
Theorem C4_roundtrip_up_to_newlines
        (fnmatch : str -> str -> bool) (w : world) (zip_path : str)
        (exclude_patterns : list str) (m : option Z) (r : resolved)
        (h p : str) (bs : bytes) (s : str) :
  let ws := walk_of fnmatch exclude_patterns r in
  In (h, p) (files_to_process ws) ->
  readable w p bs ->
  has_null (firstn 1024 bs) = false ->
  Codec.decode_utf8 Codec.Strict bs = inr s ->
  within_limit bs m ->
  (exists before after : str,
      concat (output_lines (render_of w zip_path exclude_patterns m ws))
      = before ++ begin_marker h ++ Codec.universal_newlines s
        ++ end_marker h ++ after)
  /\ (~ In 13%N s -> Codec.universal_newlines s = s).
Proof.
  intros ws Hin (Hsize & Hprobe & Hread) Hnull Hvalid Hlim.
  split; [|apply universal_newlines_no_cr].
  unfold render_of.
  destruct (@render_keeps_block
              w m (files_to_process ws) (h, p)
              [begin_marker h; Codec.universal_newlines s; end_marker h]
              Hin)
    with (st := render_init zip_path exclude_patterns m ws)
    as (before & after & Hout).
  - intros st0.
    destruct (render_file_text w m st0 h p Hsize Hlim Hprobe Hnull Hread)
      as (content & Hc & ->).
    rewrite (decode_text_of_valid _ Hvalid) in Hc.
    injection Hc as <-. flatten_lines. reflexivity.
  - exists (concat before), (concat after).
    rewrite Hout, !concat_app. cbn [concat].
    rewrite app_nil_r, <- !app_assoc. reflexivity.
Qed.

Lemma C4_witness_hello :
  In (lit "a.txt", Sample.p_a) (files_to_process Sample.ws_proj)
  /\ readable Sample.w_proj Sample.p_a (Sample.bytes_of "hello")
  /\ (exists before after : str,
         concat (output_lines
                   (render_of Sample.w_proj Sample.zip [] (Some 1%Z)
                              Sample.ws_proj))
         = before ++ begin_marker (lit "a.txt") ++ lit "hello"
           ++ end_marker (lit "a.txt") ++ after).
Proof.
  assert (Hin : In (lit "a.txt", Sample.p_a)
                   (files_to_process Sample.ws_proj))
    by (vm_compute; tauto).
  assert (Hr : readable Sample.w_proj Sample.p_a (Sample.bytes_of "hello"))
    by (repeat split).
  split; [exact Hin|]. split; [exact Hr|].
  destruct (@C4_roundtrip_up_to_newlines
              Fnmatch.fnmatch Sample.w_proj Sample.zip [] (Some 1%Z)
              Sample.r_proj (lit "a.txt") Sample.p_a
              (Sample.bytes_of "hello") (lit "hello")
              Hin Hr eq_refl eq_refl eq_refl) as [Hblock Hsame].
  rewrite Hsame in Hblock; [exact Hblock|].
  vm_compute. intuition discriminate.
Defined.

(** ** C5: binary detection *)

(** C5.  For an intact file within the size limit, the code probes the
    first 1024 bytes: if one of the first [min(1024, size)] bytes is
    null, the block of the file is the line
    ["[Binary file - content skipped]"] between its markers, the
    skipped-binary counter goes up by one and the file is not read as
    text; otherwise, and so also when the only null bytes come later,
    that counter is unchanged and the block holds the text that was
    read. *)
Theorem C5_binary_probe
        (w : world) (m : option Z) (st : render_state) (h p : str)
        (bs : bytes) :
  intact w p bs ->
  within_limit bs m ->
  let st' := render_file w m st (h, p) in
  ((exists i, i < Nat.min 1024 (length bs) /\ nth_error bs i = Some x00) ->
   output_lines st'
   = output_lines st
     ++ [lit "--- BEGIN FILE: " ++ h ++ lit " ---" ++ nl;
         lit "[Binary file - content skipped]" ++ nl;
         nl ++ lit "--- END FILE: " ++ h ++ lit " ---" ++ nl ++ nl]
   /\ skipped_binary st' = S (skipped_binary st)
   /\ io_log st' = io_log st ++ [GetSize p; ReadProbe p])
  /\ (~ (exists i, i < Nat.min 1024 (length bs)
                   /\ nth_error bs i = Some x00) ->
      skipped_binary st' = skipped_binary st
      /\ exists content,
          Codec.decode_text (Codec.Utf8 Codec.Replace) bs = inr content
          /\ output_lines st'
             = output_lines st
               ++ [lit "--- BEGIN FILE: " ++ h ++ lit " ---" ++ nl;
                   content;
                   nl ++ lit "--- END FILE: " ++ h ++ lit " ---"
                   ++ nl ++ nl]).
Proof.
  intros (Hsize & Hprobe & Hread) Hlim st'. subst st'.
  specialize (Hprobe 1024). split.
  - intros Hnull. apply probe_null_spec in Hnull.
    rewrite (render_file_binary w m st h p Hsize Hlim Hprobe Hnull).
    flatten_lines. repeat split.
  - intros Hnone.
    assert (Hnull : has_null (firstn 1024 bs) = false).
    { destruct (has_null (firstn 1024 bs)) eqn:E; [|reflexivity].
      exfalso. apply Hnone, probe_null_spec, E. }
    destruct (render_file_text w m st h p Hsize Hlim Hprobe Hnull Hread)
      as (content & Hc & ->).
    flatten_lines. split; [reflexivity|].
    exists content. split; [exact Hc|reflexivity].
Qed.

Lemma C5_witness_bin_dat :
  (intact Sample.w_proj Sample.p_bin [x00; x01; x02]
   /\ within_limit [x00; x01; x02] (Some 1%Z)
   /\ output_lines (render_file Sample.w_proj (Some 1%Z) Sample.empty_state
                                (lit "bin.dat", Sample.p_bin))
      = [lit "--- BEGIN FILE: bin.dat ---" ++ nl;
         lit "[Binary file - content skipped]" ++ nl;
         nl ++ lit "--- END FILE: bin.dat ---" ++ nl ++ nl]
   /\ skipped_binary (render_file Sample.w_proj (Some 1%Z)
                                  Sample.empty_state
                                  (lit "bin.dat", Sample.p_bin)) = 1)
  /\ (intact Sample.w_late Sample.p_late Sample.b_late
      /\ within_limit Sample.b_late None
      /\ nth_error Sample.b_late 1024 = Some x00
      /\ output_lines (render_file Sample.w_late None Sample.empty_state
                                   (lit "late.bin", Sample.p_late))
         = [lit "--- BEGIN FILE: late.bin ---" ++ nl;
            repeat 120%N 1024 ++ [0%N];
            nl ++ lit "--- END FILE: late.bin ---" ++ nl ++ nl]
      /\ skipped_binary (render_file Sample.w_late None Sample.empty_state
                                     (lit "late.bin", Sample.p_late)) = 0).
Proof.
  split.
  - assert (Hr : intact Sample.w_proj Sample.p_bin [x00; x01; x02]).
    { split; [reflexivity|]. split; [|reflexivity].
      intros n. vm_compute. reflexivity. }
    assert (Hl : within_limit [x00; x01; x02] (Some 1%Z)) by reflexivity.
    split; [exact Hr|]. split; [exact Hl|].
    destruct (proj1 (@C5_binary_probe Sample.w_proj (Some 1%Z)
                       Sample.empty_state (lit "bin.dat") Sample.p_bin
                       [x00; x01; x02] Hr Hl)) as (Hout & Hbin & _).
    + exists 0. split; [simpl; lia|reflexivity].
    + split; [exact Hout|exact Hbin].
  - assert (Hr : intact Sample.w_late Sample.p_late Sample.b_late).
    { split; [vm_compute; reflexivity|]. split; [|reflexivity].
      intros n. unfold Sample.w_late, Sample.world_of. cbn [read_probe].
      assert (Hc : Sample.content [(Sample.p_late, Sample.b_late)]
                                  Sample.p_late = Some Sample.b_late)
        by (vm_compute; reflexivity).
      rewrite Hc. reflexivity. }
    assert (Hl : within_limit Sample.b_late None) by reflexivity.
    split; [exact Hr|]. split; [exact Hl|].
    split; [vm_compute; reflexivity|].
    destruct (proj2 (@C5_binary_probe Sample.w_late None
                       Sample.empty_state (lit "late.bin") Sample.p_late
                       Sample.b_late Hr Hl))
      as (Hbin & content & Hc & Hout).
    + intros (i & Hi & Hnull).
      assert (Hlt : i < 1024) by (vm_compute in Hi; lia).
      unfold Sample.b_late in Hnull.
      rewrite nth_error_app1 in Hnull by (rewrite repeat_length; exact Hlt).
      apply nth_error_In, repeat_spec in Hnull. discriminate Hnull.
    + split; [|exact Hbin].
      rewrite Hout. vm_compute in Hc. injection Hc as <-.
      vm_compute. reflexivity.
Defined.

(** ** C6: the size limit *)

(** Rounding half to even gives a nearest multiple, the even one of
    the two when they are as near. *)
Lemma div_half_even_near (a b : Z) :
  (0 < b)%Z -> (b = 2 * (b / 2))%Z ->
  (Z.abs (a - b * div_half_even a b) <= b / 2)%Z
  /\ ((Z.abs (a - b * div_half_even a b) = b / 2)%Z ->
      Z.even (div_half_even a b) = true).
Proof.
  intros Hb Heven. unfold div_half_even.
  pose proof (Z.div_mod a b ltac:(lia)) as Hdm.
  pose proof (Z.mod_pos_bound a b Hb) as Hr.
  destruct (Z.ltb_spec (b / 2) (a mod b)) as [Hhi|Hlo].
  - split; [lia|]. intros Htie. exfalso. lia.
  - destruct (Z.eqb_spec (a mod b) (b / 2)) as [Heq|Hne]; cbn [andb].
    + destruct (Z.odd (a / b)) eqn:Hodd.
      * split; [lia|]. intros _.
        rewrite Z.even_add, <- Z.negb_odd, Hodd. reflexivity.
      * split; [lia|]. intros _.
        rewrite <- Z.negb_odd, Hodd. reflexivity.
    + split; [lia|]. intros Htie. exfalso. lia.
Qed.

(** The float is within half a unit in the last place of the integer:
    the integer itself below [2^53]. *)
Lemma float_kb_near (n : Z) :
  (0 < n)%Z ->
  (Z.abs (n - float_kb_times_1024 n) * 2 ^ 53 <= n)%Z.
Proof.
  intros Hn. unfold float_kb_times_1024.
  destruct (Z.eqb_spec (2 ^ excess_bits n) 1) as [_|Hunit].
  { replace (n - n)%Z with 0%Z by lia. cbn [Z.abs Z.mul]. lia. }
  unfold excess_bits in *.
  destruct (Z.max_spec 0 (Z.log2 n - 52)) as [[Hs ->]|[Hs Hmax]].
  2:{ rewrite Hmax in Hunit. exfalso. apply Hunit. reflexivity. }
  set (s := (Z.log2 n - 52)%Z) in *.
  assert (Hpow : (2 ^ s = 2 * 2 ^ (s - 1))%Z).
  { rewrite <- Z.pow_succ_r by lia. f_equal. lia. }
  assert (Hpos : (0 < 2 ^ (s - 1))%Z) by (apply Z.pow_pos_nonneg; lia).
  assert (Hhalf : (2 ^ s / 2 = 2 ^ (s - 1))%Z).
  { rewrite Hpow, Z.mul_comm. apply Z.div_mul. lia. }
  destruct (@div_half_even_near n (2 ^ s)%Z) as [Hnear _]; [lia|lia|].
  rewrite Hhalf in Hnear.
  rewrite (Z.mul_comm (div_half_even n (2 ^ s))).
  assert (Hlog : (2 ^ (s - 1) * 2 ^ 53 = 2 ^ Z.log2 n)%Z).
  { rewrite <- Z.pow_add_r by lia. f_equal. subst s. lia. }
  pose proof (Z.log2_spec n Hn) as [Hle _].
  nia.
Qed.

(** [str] of an integer is the numeral that denotes it. *)
Lemma decimal_value_of_Z (n : Z) : decimal_value (of_Z n) = Some n.
Proof.
  unfold decimal_value, of_Z, lit. rewrite map_map.
  rewrite (map_ext _ (fun a => a)) by apply ascii_N_embedding.
  rewrite map_id, string_of_list_ascii_of_string.
  rewrite NilZero.isi.
  - cbn [option_map]. f_equal. apply DecimalZ.of_to.
  - intros H. pose proof (f_equal Z.of_int H) as H0.
    rewrite DecimalZ.of_to in H0. cbn in H0. subst n. discriminate H.
  - intros H. pose proof (f_equal Z.of_int H) as H0.
    rewrite DecimalZ.of_to in H0. cbn in H0. subst n. discriminate H.
Qed.

(** [str] of a digit is the one character of that digit. *)
Lemma of_Z_digit (d : Z) :
  (0 <= d < 10)%Z -> of_Z d = [Z.to_N (48 + d)].
Proof.
  intros Hd.
  assert (H : d = 0%Z \/ d = 1%Z \/ d = 2%Z \/ d = 3%Z \/ d = 4%Z
              \/ d = 5%Z \/ d = 6%Z \/ d = 7%Z \/ d = 8%Z \/ d = 9%Z)
    by lia.
  repeat (destruct H as [->|H]; [reflexivity|]). subst d. reflexivity.
Qed.

(** C6.  With a limit of [K] kilobytes, [K > 0]: a file of exactly
    [K * 1024] bytes goes through the iteration as it would without a
    limit, so a readable text file of that size has its content in its
    block.  A file of [n >= K * 1024 + 1] bytes gets, between its
    markers, the notice
    ["[File content skipped - size (W.D KB) exceeds limit (L KB)]"], in
    which [L] is the numeral of [K] and [W.D] is the size in kilobytes to
    one decimal: the numeral [W] and the digit [D] are the tenths of a
    kilobyte nearest to the float [n / 1024], the even one on a tie, and
    that float is [n / 1024] itself for [n < 2^53] and within a relative
    error of [2^-53] above.  The oversized counter goes up by one, and
    the only call made on the file is the one that sizes it.  ([n] is a
    file size, below [2^63].) *)
Theorem C6_size_boundary
        (w : world) (K : Z) (st : render_state) (h p : str) :
  (0 < K)%Z ->
  (getsize w p = inr (K * 1024)%Z ->
   render_file w (Some K) st (h, p) = render_file w None st (h, p))
  /\ (forall bs,
         readable w p bs ->
         Z.of_nat (length bs) = (K * 1024)%Z ->
         has_null (firstn 1024 bs) = false ->
         exists content,
           Codec.decode_text (Codec.Utf8 Codec.Replace) bs = inr content
           /\ output_lines (render_file w (Some K) st (h, p))
              = output_lines st
                ++ [lit "--- BEGIN FILE: " ++ h ++ lit " ---" ++ nl;
                    content;
                    nl ++ lit "--- END FILE: " ++ h ++ lit " ---"
                    ++ nl ++ nl]
           /\ skipped_size (render_file w (Some K) st (h, p))
              = skipped_size st)
  /\ (forall n,
         getsize w p = inr n ->
         (K * 1024 + 1 <= n)%Z ->
         (n < 2 ^ 63)%Z ->
         let st' := render_file w (Some K) st (h, p) in
         (exists (float tenths : Z) (whole limit : str),
             (Z.abs (n - float) * 2 ^ 53 <= n)%Z
             /\ (Z.abs (10 * float - 1024 * tenths) <= 512)%Z
             /\ ((Z.abs (10 * float - 1024 * tenths) = 512)%Z ->
                 Z.even tenths = true)
             /\ decimal_value whole = Some (tenths / 10)%Z
             /\ decimal_value limit = Some K
             /\ output_lines st'
                = output_lines st
                  ++ [lit "--- BEGIN FILE: " ++ h ++ lit " ---" ++ nl;
                      lit "[File content skipped - size (" ++ whole
                      ++ lit "." ++ [Z.to_N (48 + tenths mod 10)]
                      ++ lit " KB) exceeds limit (" ++ limit
                      ++ lit " KB)]" ++ nl;
                      nl ++ lit "--- END FILE: " ++ h ++ lit " ---"
                      ++ nl ++ nl])
         /\ skipped_size st' = S (skipped_size st)
         /\ skipped_binary st' = skipped_binary st
         /\ read_errors st' = read_errors st
         /\ io_log st' = io_log st ++ [GetSize p]).
Proof.
  intros HK.
  assert (Hmax : max_size_bytes (Some K) = Some (K * 1024)%Z).
  { unfold max_size_bytes. destruct (Z.ltb_spec 0 K); [reflexivity|lia]. }
  split; [|split].
  - intros Hsize. unfold render_file. rewrite Hsize, Hmax.
    cbn [exceeds max_size_bytes]. rewrite Z.ltb_irrefl. reflexivity.
  - intros bs (Hsize & Hprobe & Hread) Hlen Hnull.
    assert (Hlim : exceeds (Z.of_nat (length bs)) (max_size_bytes (Some K))
                   = false).
    { rewrite Hmax, Hlen. cbn [exceeds]. apply Z.ltb_irrefl. }
    destruct (render_file_text w (Some K) st h p Hsize Hlim Hprobe Hnull
                               Hread) as (content & Hc & ->).
    exists content. flatten_lines. split; [exact Hc|split; reflexivity].
  - intros n Hsize Hn Hoff st'. subst st'.
    assert (Hlim : exceeds n (max_size_bytes (Some K)) = true).
    { rewrite Hmax. cbn [exceeds]. apply Z.ltb_lt. lia. }
    rewrite (render_file_oversized w (Some K) st h p Hsize Hlim).
    flatten_lines. split; [|repeat split].
    exists (float_kb_times_1024 n), (tenths_of_kb n),
           (of_Z (tenths_of_kb n / 10)), (of_Z K).
    split; [apply float_kb_near; lia|].
    destruct (@div_half_even_near (10 * float_kb_times_1024 n) 1024)
      as [Hnear Htie]; [lia|reflexivity|].
    fold (tenths_of_kb n) in Hnear, Htie.
    split; [exact Hnear|]. split; [exact Htie|].
    split; [apply decimal_value_of_Z|].
    split; [apply decimal_value_of_Z|].
    unfold size_notice, fmt_kb, of_opt_Z. cbv zeta.
    rewrite (@of_Z_digit (tenths_of_kb n mod 10))
      by (apply Z.mod_pos_bound; lia).
    rewrite <- !app_assoc. reflexivity.
Qed.

Lemma C6_witness_one_kb :
  (0 < 1)%Z
  /\ output_lines (render_file Sample.w_proj (Some 1%Z) Sample.empty_state
                               (lit "kb.txt", Sample.p_kb))
     = [lit "--- BEGIN FILE: kb.txt ---" ++ nl; repeat 120%N 1024;
        nl ++ lit "--- END FILE: kb.txt ---" ++ nl ++ nl]
  /\ (output_lines (render_file Sample.w_proj (Some 1%Z) Sample.empty_state
                                (lit "over.txt", Sample.p_over))
      = [lit "--- BEGIN FILE: over.txt ---" ++ nl;
         lit "[File content skipped - size (1.0 KB) exceeds limit (1 KB)]"
         ++ nl;
         nl ++ lit "--- END FILE: over.txt ---" ++ nl ++ nl]
      /\ skipped_size (render_file Sample.w_proj (Some 1%Z)
                                   Sample.empty_state
                                   (lit "over.txt", Sample.p_over)) = 1
      /\ io_log (render_file Sample.w_proj (Some 1%Z) Sample.empty_state
                             (lit "over.txt", Sample.p_over))
         = [GetSize Sample.p_over])
  /\ (let notice K name :=
        nth 1 (output_lines (render_file Sample.w_sizes (Some K)
                                         Sample.empty_state
                                         (lit name, lit name))) [] in
      notice 1%Z "f1025"%string
      = lit "[File content skipped - size (1.0 KB) exceeds limit (1 KB)]"
        ++ nl
      /\ notice 1%Z "f1280"%string
         = lit "[File content skipped - size (1.2 KB) exceeds limit (1 KB)]"
           ++ nl
      /\ notice 1%Z "f1536"%string
         = lit "[File content skipped - size (1.5 KB) exceeds limit (1 KB)]"
           ++ nl
      /\ notice 1%Z "f1792"%string
         = lit "[File content skipped - size (1.8 KB) exceeds limit (1 KB)]"
           ++ nl
      /\ notice 100%Z "f1mb"%string
         = lit "[File content skipped - size (1024.0 KB) exceeds limit (100 KB)]"
           ++ nl
      /\ notice 1%Z "fbig"%string
         = lit "[File content skipped - size (1125899906842624.0 KB) exceeds limit (1 KB)]"
           ++ nl).
Proof.
  assert (HK : (0 < 1)%Z) by lia.
  split; [exact HK|]. split; [|split].
  - destruct (proj1 (proj2 (@C6_size_boundary
                              Sample.w_proj 1%Z Sample.empty_state
                              (lit "kb.txt") Sample.p_kb HK))
                    (repeat x78 1024))
      as (content & Hc & Hout & _).
    + repeat split.
    + reflexivity.
    + vm_compute. reflexivity.
    + rewrite Hout. vm_compute in Hc. injection Hc as <-.
      vm_compute. reflexivity.
  - destruct (proj2 (proj2 (@C6_size_boundary
                              Sample.w_proj 1%Z Sample.empty_state
                              (lit "over.txt") Sample.p_over HK))
                    1025%Z) as (_ & Hskip & _ & _ & Hlog).
    + vm_compute. reflexivity.
    + lia.
    + lia.
    + split; [vm_compute; reflexivity|]. split; [exact Hskip|exact Hlog].
  - cbv zeta. repeat split; vm_compute; reflexivity.
Defined.

(** ** The run as a whole *)

Section RunFacts.
Variable fnmatch : str -> str -> bool.
Variable w : world.
Variable zip_path output_txt_path : str.
Variable exclude_patterns : list str.
Variable max_file_size_kb : option Z.

(** Staging and saving decide the outcome; nothing a single file does
    can change it. *)
Lemma run_succeeds (temp_dir : str) (extracted_items : list node) :
  input_accepted w zip_path = true ->
  mkdtemp w = inr temp_dir ->
  extractall w zip_path temp_dir = Extracted extracted_items ->
  (forall d, makedirs w d = None) ->
  (forall path text, write_file w path text = None) ->
  returned (generate_repository_description
              fnmatch w zip_path output_txt_path exclude_patterns
              max_file_size_kb) = true.
Proof.
  unfold input_accepted. intros Hin Htmp Hext Hmk Hwr.
  apply andb_true_iff in Hin as [Hex Hzip].
  unfold generate_repository_description.
  rewrite Hex, Hzip, Htmp, Hext. cbn [negb]. unfold save.
  rewrite Hwr.
  destruct (negb (eqb (Posixpath.dirname output_txt_path) [])
            && negb (path_exists w (Posixpath.dirname output_txt_path)));
    [rewrite Hmk|]; reflexivity.
Qed.

(** What a successful run has done. *)
Lemma run_success_inv :
  returned (generate_repository_description
              fnmatch w zip_path output_txt_path exclude_patterns
              max_file_size_kb) = true ->
  exists temp_dir extracted_items,
    mkdtemp w = inr temp_dir
    /\ extractall w zip_path temp_dir = Extracted extracted_items
    /\ let ws := walk_of fnmatch exclude_patterns
                         (resolve_root temp_dir zip_path extracted_items) in
       let rs := render_of w zip_path exclude_patterns max_file_size_kb
                           ws in
       summary (generate_repository_description
              fnmatch w zip_path output_txt_path exclude_patterns
              max_file_size_kb)
       = success_lines output_txt_path ws rs
       /\ In (WriteFile output_txt_path (concat (output_lines rs)))
             (effects (generate_repository_description
              fnmatch w zip_path output_txt_path exclude_patterns
              max_file_size_kb)).
Proof.
  unfold generate_repository_description.
  destruct (negb (path_exists w zip_path)); [discriminate|].
  destruct (negb (endswith (lower zip_path) (lit ".zip")));
    [discriminate|].
  destruct (mkdtemp w) as [e|temp_dir] eqn:Htmp; [discriminate|].
  destruct (extractall w zip_path temp_dir) as [|e|items] eqn:Hext;
    try discriminate.
  intros Hret. exists temp_dir, items.
  split; [reflexivity|]. split; [exact Hext|].
  cbv zeta. revert Hret. unfold save.
  destruct (if negb (eqb (Posixpath.dirname output_txt_path) [])
               && negb (path_exists w (Posixpath.dirname output_txt_path))
            then makedirs w (Posixpath.dirname output_txt_path)
            else None); [discriminate|].
  destruct (write_file w output_txt_path _); [discriminate|].
  intros _. cbn [summary effects]. split; [reflexivity|].
  rewrite !in_app_iff. right. right. now left.
Qed.

End RunFacts.

(** ** C7: failures of single files *)

Lemma log_all_fields (ops : list effect) :
  forall st,
    output_lines (log_all ops st) = output_lines st
    /\ processed_files (log_all ops st) = processed_files st
    /\ skipped_binary (log_all ops st) = skipped_binary st
    /\ skipped_size (log_all ops st) = skipped_size st
    /\ read_errors (log_all ops st) = read_errors st.
Proof.
  induction ops as [|e ops IH]; intros st; cbn [log_all fold_left].
  - repeat split.
  - destruct (IH (log e st)) as (H1 & H2 & H3 & H4 & H5).
    unfold log_all in *. rewrite H1, H2, H3, H4, H5. repeat split.
Qed.

(** The iteration of a failing file: the calls made so far, the notice,
    one more read error, the END marker. *)
Lemma render_file_failure (w : world) (m : option Z) (st : render_state)
      (h p notice : str) :
  file_failure w m p notice ->
  exists ops,
    render_file w m st (h, p)
    = append (end_marker h)
        (count_error
           (append notice
              (log_all ops
                 (append (begin_marker h) (count_processed st))))).
Proof.
  intros [e Hsize|n e Hsize Hlim Hprobe
          |n chunk e Hsize Hlim Hprobe Hnull Hread
          |n e Hsize Hlim Hprobe
          |n chunk e Hsize Hlim Hprobe Hnull Hread];
    unfold render_file, render_text.
  - exists [GetSize p]. rewrite Hsize. reflexivity.
  - exists [GetSize p; ReadProbe p]. rewrite Hsize, Hlim, Hprobe.
    reflexivity.
  - exists [GetSize p; ReadProbe p;
            ReadText p (Codec.Utf8 Codec.Replace)].
    rewrite Hsize, Hlim, Hprobe, Hnull, Hread. reflexivity.
  - exists [GetSize p; ReadProbe p]. rewrite Hsize, Hlim, Hprobe.
    reflexivity.
  - exists [GetSize p; ReadProbe p;
            ReadText p (Codec.Utf8 Codec.Replace)].
    rewrite Hsize, Hlim, Hprobe, Hnull, Hread. reflexivity.
Qed.

(** What a failing file leaves in the state: its block and one more read
    error. *)
Lemma render_file_failure_fields (w : world) (m : option Z)
      (st : render_state) (h p notice : str) :
  file_failure w m p notice ->
  output_lines (render_file w m st (h, p))
  = output_lines st ++ [begin_marker h; notice; end_marker h]
  /\ read_errors (render_file w m st (h, p)) = S (read_errors st)
  /\ skipped_binary (render_file w m st (h, p)) = skipped_binary st
  /\ skipped_size (render_file w m st (h, p)) = skipped_size st
  /\ processed_files (render_file w m st (h, p)) = S (processed_files st).
Proof.
  intros Hfail.
  destruct (render_file_failure st h Hfail) as (ops & Hstep).
  destruct (log_all_fields ops (append (begin_marker h) (count_processed st)))
    as (H1 & H2 & H3 & H4 & H5).
  rewrite Hstep.
  cbn [output_lines processed_files skipped_binary skipped_size read_errors
       append count_error].
  rewrite H1, H2, H3, H4, H5. flatten_lines. repeat split.
Qed.

(** The read-error counter never goes down. *)
Lemma render_file_errors_mono (w : world) (m : option Z)
      (st : render_state) (rec : str * str) :
  read_errors st <= read_errors (render_file w m st rec).
Proof.
  destruct rec as [h p]. unfold render_file, render_text.
  destruct (getsize w p); [flatten_lines; lia|].
  destruct (exceeds _ _); [flatten_lines; lia|].
  destruct (read_probe w p 1024); [flatten_lines; lia|].
  destruct (has_null _); [flatten_lines; lia|].
  destruct (read_file w p) as [e|bs]; [flatten_lines; lia|].
  destruct (Codec.decode_text _ bs) as [[]|content]; flatten_lines; lia.
Qed.

Lemma render_errors_mono (w : world) (m : option Z)
      (records : list (str * str)) :
  forall st, read_errors st <= read_errors (render w m st records).
Proof.
  induction records as [|rec rest IH]; intros st; [cbn; lia|].
  rewrite render_cons. specialize (IH (render_file w m st rec)).
  pose proof (render_file_errors_mono w m st rec). lia.
Qed.

(** A failing file among the records is counted as a read error. *)
Lemma render_counts_failure (w : world) (m : option Z)
      (records : list (str * str)) (h p notice : str) :
  In (h, p) records ->
  file_failure w m p notice ->
  forall st, S (read_errors st) <= read_errors (render w m st records).
Proof.
  intros Hin Hfail.
  induction records as [|rec rest IH]; [contradiction|].
  intros st. rewrite render_cons. destruct Hin as [->|Hin].
  - destruct (render_file_failure_fields st h Hfail) as (_ & Herr & _).
    pose proof (render_errors_mono w m rest (render_file w m st (h, p))).
    lia.
  - specialize (IH Hin (render_file w m st rec)).
    pose proof (render_file_errors_mono w m st rec). lia.
Qed.

(** C7.  A file that fails with an I/O error [e] while it is sized,
    probed or read leaves, between its markers, the one line
    ["[Error checking file size: e]"],
    ["[Error checking if file is binary: e]"] or
    ["[Error reading file: e]"] (with ["Unexpected error"] for
    ["Error"] when probing or reading raises another exception), and
    raises the read-error counter by one and no other skip counter; the
    loop goes on with the next record; the run returns success whenever
    staging and saving succeed, and when the failing file is one of its
    records the report written holds that block and the summary printed
    counts at least one read error. *)
Theorem C7_file_failure_contained
        (w : world) (m : option Z) (st : render_state) (h p : str)
        (notice : str) :
  file_failure w m p notice ->
  let st' := render_file w m st (h, p) in
  output_lines st'
  = output_lines st
    ++ [lit "--- BEGIN FILE: " ++ h ++ lit " ---" ++ nl;
        notice;
        nl ++ lit "--- END FILE: " ++ h ++ lit " ---" ++ nl ++ nl]
  /\ read_errors st' = S (read_errors st)
  /\ skipped_binary st' = skipped_binary st
  /\ skipped_size st' = skipped_size st
  /\ processed_files st' = S (processed_files st)
  /\ (forall rest, render w m st ((h, p) :: rest) = render w m st' rest)
  /\ (forall fnmatch zip_path output_txt_path exclude_patterns temp_dir
             extracted_items,
         input_accepted w zip_path = true ->
         mkdtemp w = inr temp_dir ->
         extractall w zip_path temp_dir = Extracted extracted_items ->
         (forall d, makedirs w d = None) ->
         (forall path text, write_file w path text = None) ->
         let run := generate_repository_description
                      fnmatch w zip_path output_txt_path exclude_patterns
                      m in
         returned run = true
         /\ (In (h, p)
                (files_to_process
                   (walk_of fnmatch exclude_patterns
                            (resolve_root temp_dir zip_path
                                          extracted_items))) ->
             exists (before after : str) (files binary size errors : nat),
               In (WriteFile output_txt_path
                     (before
                      ++ lit "--- BEGIN FILE: " ++ h ++ lit " ---" ++ nl
                      ++ notice
                      ++ nl ++ lit "--- END FILE: " ++ h ++ lit " ---"
                      ++ nl ++ nl ++ after))
                  (effects run)
               /\ 1 <= errors
               /\ In (lit "  Summary: Included Files: " ++ of_nat files
                      ++ lit ", Skipped Binary: " ++ of_nat binary
                      ++ lit ", Skipped Size: " ++ of_nat size
                      ++ lit ", Read Errors: " ++ of_nat errors)
                     (summary run))).
Proof.
  intros Hfail st'. subst st'.
  destruct (render_file_failure_fields st h Hfail)
    as (Hout & Herr & Hbin & Hsize & Hproc).
  split; [exact Hout|]. split; [exact Herr|]. split; [exact Hbin|].
  split; [exact Hsize|]. split; [exact Hproc|]. split.
  - intros rest. apply render_cons.
  - intros fnmatch zip_path output_txt_path exclude_patterns temp_dir
           extracted_items Hacc Htmp Hext Hmk Hwr run.
    subst run.
    assert (Hret : returned (generate_repository_description
                               fnmatch w zip_path output_txt_path
                               exclude_patterns m) = true)
      by (eapply run_succeeds; eauto).
    split; [exact Hret|]. intros Hin.
    destruct (run_success_inv _ _ _ _ _ _ Hret)
      as (t & items & Htmp' & Hext' & Hrun).
    rewrite Htmp in Htmp'. injection Htmp' as <-.
    rewrite Hext in Hext'. injection Hext' as <-.
    cbv zeta in Hrun. destruct Hrun as [Hsum Hwrite].
    set (ws := walk_of fnmatch exclude_patterns
                       (resolve_root temp_dir zip_path extracted_items))
      in *.
    unfold render_of in Hsum, Hwrite.
    set (rs := render w m (render_init zip_path exclude_patterns m ws)
                      (files_to_process ws)) in *.
    destruct (@render_keeps_block
                w m (files_to_process ws) (h, p)
                [begin_marker h; notice; end_marker h] Hin)
      with (st := render_init zip_path exclude_patterns m ws)
      as (before & after & Hblock).
    { intros st0.
      apply (render_file_failure_fields st0 h Hfail). }
    fold rs in Hblock.
    exists (concat before), (concat after), (processed_files rs),
           (skipped_binary rs), (skipped_size rs), (read_errors rs).
    split; [|split].
    + rewrite Hblock, !concat_app in Hwrite. cbn [concat] in Hwrite.
      rewrite app_nil_r in Hwrite. unfold begin_marker, end_marker in Hwrite.
      rewrite <- !app_assoc in Hwrite. exact Hwrite.
    + pose proof (@render_counts_failure
                    w m (files_to_process ws) h p notice Hin Hfail
                    (render_init zip_path exclude_patterns m ws)) as Hge.
      fold rs in Hge. lia.
    + rewrite Hsum. unfold success_lines. right. right. left. reflexivity.
Qed.

Lemma C7_witness_vanished_file :
  (file_failure Sample.w_faulty None Sample.p_gone
                (lit "[Error checking file size: " ++ Sample.enoent
                 ++ lit "]" ++ nl)
   /\ output_lines (render_file Sample.w_faulty None Sample.empty_state
                                (lit "gone.txt", Sample.p_gone))
      = [lit "--- BEGIN FILE: gone.txt ---" ++ nl;
         lit "[Error checking file size: [Errno 2] No such file or directory]"
         ++ nl;
         nl ++ lit "--- END FILE: gone.txt ---" ++ nl ++ nl]
   /\ read_errors (render_file Sample.w_faulty None Sample.empty_state
                               (lit "gone.txt", Sample.p_gone)) = 1)
  /\ (file_failure Sample.w_faulty None Sample.p_a
                   (lit "[Error checking if file is binary: "
                    ++ Sample.eacces ++ lit "]" ++ nl)
      /\ output_lines (render_file Sample.w_faulty None Sample.empty_state
                                   (lit "a.txt", Sample.p_a))
         = [lit "--- BEGIN FILE: a.txt ---" ++ nl;
            lit "[Error checking if file is binary: [Errno 13] Permission denied]"
            ++ nl;
            nl ++ lit "--- END FILE: a.txt ---" ++ nl ++ nl]
      /\ read_errors (render_file Sample.w_faulty None Sample.empty_state
                                  (lit "a.txt", Sample.p_a)) = 1)
  /\ (file_failure Sample.w_faulty None Sample.p_crlf
                   (lit "[Error reading file: " ++ Sample.eio
                    ++ lit "]" ++ nl)
      /\ output_lines (render_file Sample.w_faulty None Sample.empty_state
                                   (lit "crlf.txt", Sample.p_crlf))
         = [lit "--- BEGIN FILE: crlf.txt ---" ++ nl;
            lit "[Error reading file: [Errno 5] Input/output error]" ++ nl;
            nl ++ lit "--- END FILE: crlf.txt ---" ++ nl ++ nl]
      /\ read_errors (render_file Sample.w_faulty None Sample.empty_state
                                  (lit "crlf.txt", Sample.p_crlf)) = 1)
  /\ returned (generate_repository_description
                 Fnmatch.fnmatch Sample.w_faulty Sample.zip Sample.out []
                 None)
     = true
  /\ In (lit "  Summary: Included Files: 7, Skipped Binary: 1, Skipped Size: 0, Read Errors: 3")
        (summary (generate_repository_description
                    Fnmatch.fnmatch Sample.w_faulty Sample.zip Sample.out
                    [] None))
  /\ exists before after : str,
      In (WriteFile Sample.out
            (before
             ++ lit "--- BEGIN FILE: a.txt ---" ++ nl
             ++ lit "[Error checking if file is binary: [Errno 13] Permission denied]"
             ++ nl
             ++ nl ++ lit "--- END FILE: a.txt ---" ++ nl ++ nl
             ++ after))
         (effects (generate_repository_description
                     Fnmatch.fnmatch Sample.w_faulty Sample.zip Sample.out
                     [] None)).
Proof.
  assert (Hgone : file_failure Sample.w_faulty None Sample.p_gone
                    (lit "[Error checking file size: " ++ Sample.enoent
                     ++ lit "]" ++ nl))
    by (apply SizeFails; reflexivity).
  assert (Ha : file_failure Sample.w_faulty None Sample.p_a
                 (lit "[Error checking if file is binary: "
                  ++ Sample.eacces ++ lit "]" ++ nl))
    by (apply ProbeFails with (n := 5%Z); reflexivity).
  assert (Hcrlf : file_failure Sample.w_faulty None Sample.p_crlf
                    (lit "[Error reading file: " ++ Sample.eio
                     ++ lit "]" ++ nl))
    by (apply ReadFails with (n := 4%Z) (chunk := Sample.b_crlf);
        reflexivity).
  split; [|split; [|split]].
  - split; [exact Hgone|].
    destruct (@C7_file_failure_contained
                Sample.w_faulty None Sample.empty_state (lit "gone.txt")
                Sample.p_gone _ Hgone) as (Hout & Herr & _).
    split; [rewrite Hout; vm_compute; reflexivity|exact Herr].
  - split; [exact Ha|].
    destruct (@C7_file_failure_contained
                Sample.w_faulty None Sample.empty_state (lit "a.txt")
                Sample.p_a _ Ha) as (Hout & Herr & _).
    split; [rewrite Hout; vm_compute; reflexivity|exact Herr].
  - split; [exact Hcrlf|].
    destruct (@C7_file_failure_contained
                Sample.w_faulty None Sample.empty_state (lit "crlf.txt")
                Sample.p_crlf _ Hcrlf) as (Hout & Herr & _).
    split; [rewrite Hout; vm_compute; reflexivity|exact Herr].
  - destruct (@C7_file_failure_contained
                Sample.w_faulty None Sample.empty_state (lit "a.txt")
                Sample.p_a _ Ha) as (_ & _ & _ & _ & _ & _ & Hrun).
    destruct (Hrun Fnmatch.fnmatch Sample.zip Sample.out [] (lit "/tmp/t")
                   Sample.proj) as [Hret Hreport]; try reflexivity.
    split; [exact Hret|]. split; [vm_compute; tauto|].
    destruct Hreport as (before & after & _ & _ & _ & _ & Hwrite & _).
    { vm_compute. tauto. }
    exists before, after. exact Hwrite.
Defined.

(** ** C8: root resolution *)

(** C8.  The candidates are the top-level directories whose name does not
    start with a dot.  With exactly one candidate the root is that
    directory and the display name its name; with none or several the
    root is the extraction directory and the display name the archive's
    base name without its extension.  [resolve_root] is total: there is
    no layout on which it fails. *)
Theorem C8_root_resolution
        (temp_dir zip_path : str) (extracted_items : list node) :
  let r := resolve_root temp_dir zip_path extracted_items in
  (forall n,
      In n (potential_dirs extracted_items)
      <-> In n extracted_items /\ isdir n = true
          /\ startswith (node_name n) (lit ".") = false)
  /\ (forall d,
         potential_dirs extracted_items = [d] ->
         repo_root_in_temp r = Posixpath.join temp_dir (node_name d)
         /\ repo_display_name r = node_name d
         /\ root_entries r = entries_of d)
  /\ (length (potential_dirs extracted_items) <> 1 ->
      repo_root_in_temp r = temp_dir
      /\ repo_display_name r
         = fst (Posixpath.splitext (Posixpath.basename zip_path))
      /\ root_entries r = extracted_items).
Proof.
  intros r. subst r. unfold resolve_root. split; [|split].
  - intros n. unfold potential_dirs. rewrite filter_In, andb_true_iff.
    rewrite negb_true_iff. tauto.
  - intros d ->. repeat split.
  - intros Hlen.
    destruct (potential_dirs extracted_items) as [|d [|d' ds]];
      [repeat split| |repeat split].
    exfalso. apply Hlen. reflexivity.
Qed.

Lemma C8_witness_layouts :
  (let r := resolve_root (lit "/tmp/t") (lit "dl/repo.zip")
                         (File (lit "README") :: Dir (lit ".git") []
                          :: Sample.proj) in
   repo_root_in_temp r = lit "/tmp/t/proj"
   /\ repo_display_name r = lit "proj")
  /\ (let r := resolve_root (lit "/tmp/t") (lit "dl/repo.zip")
                            [Dir (lit "x") []; Dir (lit "y") []] in
      repo_root_in_temp r = lit "/tmp/t"
      /\ repo_display_name r = lit "repo").
Proof.
  split.
  - destruct (proj1 (proj2 (@C8_root_resolution
                              (lit "/tmp/t") (lit "dl/repo.zip")
                              (File (lit "README") :: Dir (lit ".git") []
                               :: Sample.proj)))
                    (Dir (lit "proj") Sample.proj_entries)
                    eq_refl) as (Hroot & Hname & _).
    cbv zeta. rewrite Hroot, Hname. split; reflexivity.
  - destruct (proj2 (proj2 (@C8_root_resolution
                              (lit "/tmp/t") (lit "dl/repo.zip")
                              [Dir (lit "x") []; Dir (lit "y") []])))
      as (Hroot & Hname & _).
    + simpl. lia.
    + cbv zeta. rewrite Hroot, Hname. split; reflexivity.
Defined.

(** ** C9: input validation *)

(** C9.  When the input path does not exist, or its lower-cased form does
    not end in [.zip], the function returns [False] having made no call
    at all: no temporary directory, no extraction, nothing written. *)
Theorem C9_invalid_input_fails_first
        (fnmatch : str -> str -> bool) (w : world)
        (zip_path output_txt_path : str) (exclude_patterns : list str)
        (max_file_size_kb : option Z) :
  path_exists w zip_path = false
  \/ endswith (lower zip_path) (lit ".zip") = false ->
  let run := generate_repository_description
               fnmatch w zip_path output_txt_path exclude_patterns
               max_file_size_kb in
  returned run = false /\ effects run = [].
Proof.
  intros Hbad run. subst run. unfold generate_repository_description.
  destruct (path_exists w zip_path); cbn [negb].
  - destruct Hbad as [Hbad|Hbad]; [discriminate|].
    rewrite Hbad. repeat split.
  - repeat split.
Qed.

Lemma C9_witness_missing_and_misnamed :
  (path_exists Sample.w_proj (lit "nowhere.zip") = false
   /\ effects (generate_repository_description
                 Fnmatch.fnmatch Sample.w_proj (lit "nowhere.zip")
                 Sample.out [] None) = [])
  /\ (endswith (lower (lit "repo.tar")) (lit ".zip") = false
      /\ returned (generate_repository_description
                     Fnmatch.fnmatch Sample.w_proj (lit "repo.tar")
                     Sample.out [] None) = false).
Proof.
  split.
  - split; [reflexivity|].
    apply (@C9_invalid_input_fails_first
             Fnmatch.fnmatch Sample.w_proj (lit "nowhere.zip") Sample.out
             [] None).
    left. reflexivity.
  - split; [reflexivity|].
    apply (@C9_invalid_input_fails_first
             Fnmatch.fnmatch Sample.w_proj (lit "repo.tar") Sample.out
             [] None).
    right. reflexivity.
Defined.

(** ** C10: what the counters count *)

Section WalkFacts.
Variable fnmatch : str -> str -> bool.
Variable exclude_patterns : list str.
Variable root_path display_name : str.

Lemma list_files_tally (root relative_path file_indent : str)
      (files : list str) :
  forall st,
    tally st ->
    tally (fold_left (list_file root relative_path file_indent) files st).
Proof.
  induction files as [|f files IH]; intros st Hst; cbn [fold_left];
    [exact Hst|].
  apply IH. destruct Hst as [Hf Hl]. unfold tally, list_file.
  cbn [total_files files_to_process structure_lines total_dirs].
  rewrite !length_app. cbn [length]. lia.
Qed.

Lemma walk_step_tally (st : walk_state) (item : walk_item) :
  tally st ->
  tally (walk_step fnmatch exclude_patterns root_path display_name
                   st item).
Proof.
  intros Hst. destruct item as [[root dirs] files]. unfold walk_step.
  destruct (is_excluded fnmatch exclude_patterns root root_path
            && negb (eqb root root_path)).
  - exact Hst.
  - apply list_files_tally. destruct Hst as [Hf Hl]. unfold tally.
    cbn [total_files files_to_process structure_lines total_dirs].
    rewrite length_app. cbn [length]. lia.
Qed.

Lemma walk_tally (items : list walk_item) :
  tally (walk fnmatch exclude_patterns root_path display_name items).
Proof.
  unfold walk.
  assert (H : forall st, tally st ->
              tally (fold_left
                       (walk_step fnmatch exclude_patterns root_path
                                  display_name) items st)).
  { induction items as [|item items IH]; intros st Hst; cbn [fold_left];
      [exact Hst|].
    apply IH, walk_step_tally, Hst. }
  apply H. split; reflexivity.
Qed.

End WalkFacts.

(** An iteration raises at most one of the three skip counters, by one. *)
Lemma render_file_skips (w : world) (m : option Z) (st : render_state)
      (rec : str * str) :
  skipped_binary (render_file w m st rec)
  + skipped_size (render_file w m st rec)
  + read_errors (render_file w m st rec)
  <= S (skipped_binary st + skipped_size st + read_errors st).
Proof.
  destruct rec as [h p]. unfold render_file, render_text.
  destruct (getsize w p); [flatten_lines; lia|].
  destruct (exceeds _ _); [flatten_lines; lia|].
  destruct (read_probe w p 1024); [flatten_lines; lia|].
  destruct (has_null _); [flatten_lines; lia|].
  destruct (read_file w p) as [e|bs]; [flatten_lines; lia|].
  destruct (Codec.decode_text _ bs) as [[]|content]; flatten_lines; lia.
Qed.

Lemma render_skips (w : world) (m : option Z) (records : list (str * str)) :
  forall st,
    skipped_binary (render w m st records)
    + skipped_size (render w m st records)
    + read_errors (render w m st records)
    <= skipped_binary st + skipped_size st + read_errors st
       + length records.
Proof.
  induction records as [|rec rest IH]; intros st.
  - cbn [render fold_left length]. lia.
  - rewrite render_cons. specialize (IH (render_file w m st rec)).
    pose proof (render_file_skips w m st rec). cbn [length]. lia.
Qed.

(** C10.  In a run that succeeds, the number printed as "Included Files"
    is the number of records, which is the number of files listed in the
    structure section; the files skipped as binary or oversized and those
    with a read error are among the files counted; and the content section
    is one block per record, in order, each made of the line
    ["--- BEGIN FILE: <path> ---"], one or two chunks, and the line
    ["--- END FILE: <path> ---"] after an empty line and before another,
    with the path of the record. *)
Theorem C10_included_files_are_the_records
        (fnmatch : str -> str -> bool) (w : world)
        (zip_path output_txt_path : str) (exclude_patterns : list str)
        (max_file_size_kb : option Z) :
  let run := generate_repository_description
               fnmatch w zip_path output_txt_path exclude_patterns
               max_file_size_kb in
  returned run = true ->
  exists temp_dir extracted_items,
    mkdtemp w = inr temp_dir
    /\ extractall w zip_path temp_dir = Extracted extracted_items
    /\ let ws := walk_of fnmatch exclude_patterns
                         (resolve_root temp_dir zip_path extracted_items) in
       let rs := render_of w zip_path exclude_patterns max_file_size_kb ws in
       In (lit "  Summary: Included Files: "
           ++ of_nat (length (files_to_process ws))
           ++ lit ", Skipped Binary: " ++ of_nat (skipped_binary rs)
           ++ lit ", Skipped Size: " ++ of_nat (skipped_size rs)
           ++ lit ", Read Errors: " ++ of_nat (read_errors rs))
          (summary run)
       /\ processed_files rs = length (files_to_process ws)
       /\ total_files ws = length (files_to_process ws)
       /\ length (structure_lines ws) = total_dirs ws + total_files ws
       /\ skipped_binary rs + skipped_size rs + read_errors rs
          <= processed_files rs
       /\ exists blocks,
           Forall2 file_block (files_to_process ws) blocks
           /\ output_lines rs
              = header_lines zip_path exclude_patterns max_file_size_kb
                ++ structure_lines ws ++ totals_lines ws ++ concat blocks
           /\ In (WriteFile output_txt_path (concat (output_lines rs)))
                 (effects run).
Proof.
  intros run Hret. subst run.
  destruct (run_success_inv _ _ _ _ _ _ Hret)
    as (temp_dir & items & Htmp & Hext & Hrun).
  exists temp_dir, items. split; [exact Htmp|]. split; [exact Hext|].
  cbv zeta in Hrun |- *. destruct Hrun as [Hcon Hwr].
  set (ws := walk_of fnmatch exclude_patterns
                     (resolve_root temp_dir zip_path items)) in *.
  destruct (walk_tally fnmatch exclude_patterns
              (repo_root_in_temp (resolve_root temp_dir zip_path items))
              (repo_display_name (resolve_root temp_dir zip_path items))
              (os_walk
                 (repo_root_in_temp (resolve_root temp_dir zip_path items))
                 (root_entries (resolve_root temp_dir zip_path items))))
    as [Hfiles Hlines].
  fold (walk_of fnmatch exclude_patterns
                (resolve_root temp_dir zip_path items)) in Hfiles, Hlines.
  fold ws in Hfiles, Hlines.
  unfold render_of in *.
  destruct (render_blocks w max_file_size_kb (files_to_process ws)
              (render_init zip_path exclude_patterns max_file_size_kb ws))
    as (blocks & Hall & Hout & Hcount).
  pose proof (render_skips w max_file_size_kb (files_to_process ws)
                (render_init zip_path exclude_patterns max_file_size_kb ws))
    as Hskips.
  cbn [render_init processed_files skipped_binary skipped_size read_errors
       output_lines] in Hout, Hcount, Hskips.
  repeat split.
  - rewrite Hcon. unfold success_lines. rewrite Hcount. cbn [Nat.add].
    right. right. left. reflexivity.
  - rewrite Hcount. reflexivity.
  - exact Hfiles.
  - exact Hlines.
  - rewrite Hcount. cbn [Nat.add] in *. exact Hskips.
  - exists blocks. split; [exact Hall|]. split; [|exact Hwr].
    rewrite Hout. rewrite <- !app_assoc. reflexivity.
Qed.

Lemma C10_witness_proj :
  (returned (generate_repository_description
               Fnmatch.fnmatch Sample.w_proj Sample.zip Sample.out []
               (Some 1%Z)) = true
   /\ In (lit "  Summary: Included Files: 7, Skipped Binary: 1, Skipped Size: 1, Read Errors: 1")
         (summary (generate_repository_description
                     Fnmatch.fnmatch Sample.w_proj Sample.zip Sample.out []
                     (Some 1%Z))))
  /\ (returned (generate_repository_description
                  Fnmatch.fnmatch Sample.w_one Sample.zip Sample.out []
                  None) = true
      /\ In (WriteFile Sample.out
               (lit "Repository structure and content from file: repo.zip"
                ++ nl
                ++ lit "================================================================================"
                ++ nl
                ++ lit "DIRECTORY STRUCTURE:" ++ nl
                ++ lit "--------------------------------------------------------------------------------"
                ++ nl
                ++ lit "proj/" ++ nl
                ++ lit "  |-- a.txt" ++ nl
                ++ nl
                ++ lit "(Included directories: 1, Included files: 1)" ++ nl
                ++ nl
                ++ lit "================================================================================"
                ++ nl
                ++ lit "FILE CONTENTS:" ++ nl
                ++ lit "--------------------------------------------------------------------------------"
                ++ nl ++ nl
                ++ lit "--- BEGIN FILE: a.txt ---" ++ nl
                ++ lit "hello"
                ++ nl
                ++ lit "--- END FILE: a.txt ---" ++ nl
                ++ nl))
            (effects (generate_repository_description
                        Fnmatch.fnmatch Sample.w_one Sample.zip Sample.out
                        [] None))).
Proof.
  split.
  - assert (Hret : returned (generate_repository_description
                               Fnmatch.fnmatch Sample.w_proj Sample.zip
                               Sample.out [] (Some 1%Z)) = true)
      by (vm_compute; reflexivity).
    split; [exact Hret|].
    destruct (@C10_included_files_are_the_records
                Fnmatch.fnmatch Sample.w_proj Sample.zip Sample.out []
                (Some 1%Z) Hret)
      as (temp_dir & items & Htmp & Hext & Hsum & _).
    injection Htmp as <-. injection Hext as <-.
    vm_compute in Hsum |- *. exact Hsum.
  - assert (Hret : returned (generate_repository_description
                               Fnmatch.fnmatch Sample.w_one Sample.zip
                               Sample.out [] None) = true)
      by (vm_compute; reflexivity).
    split; [exact Hret|].
    destruct (@C10_included_files_are_the_records
                Fnmatch.fnmatch Sample.w_one Sample.zip Sample.out []
                None Hret)
      as (temp_dir & items & Htmp & Hext & _ & _ & _ & _ & _
          & blocks & _ & _ & Hwrite).
    injection Htmp as <-. injection Hext as <-.
    vm_compute in Hwrite |- *. exact Hwrite.
Defined.

(** ** [list.sort] on names *)

Lemma leb_total (a : str) : forall b, leb a b = true \/ leb b a = true.
Proof.
  induction a as [|x a IH]; intros [|y b]; cbn [leb]; auto.
  destruct (N.ltb_spec x y) as [Hxy|Hxy]; [now left|].
  destruct (N.ltb_spec y x) as [Hyx|Hyx]; [now right|].
  assert (x = y) by lia. subst y. rewrite N.eqb_refl. apply IH.
Qed.

Lemma leb_antisym (a : str) :
  forall b, leb a b = true -> leb b a = true -> a = b.
Proof.
  induction a as [|x a IH]; intros [|y b]; cbn [leb]; try discriminate;
    [reflexivity|].
  destruct (N.ltb_spec x y) as [Hxy|Hxy].
  - destruct (N.ltb_spec y x); [lia|].
    destruct (N.eqb_spec y x); [lia|discriminate].
  - destruct (N.eqb_spec x y) as [->|Hne]; [|discriminate].
    rewrite N.ltb_irrefl, N.eqb_refl. intros H1 H2.
    f_equal. now apply IH.
Qed.

Lemma leb_trans (a : str) :
  forall b c, leb a b = true -> leb b c = true -> leb a c = true.
Proof.
  induction a as [|x a IH]; intros [|y b] [|z c]; cbn [leb];
    try discriminate; auto.
  destruct (N.ltb_spec x y) as [Hxy|Hxy].
  - intros _. destruct (N.ltb_spec y z) as [Hyz|Hyz].
    + intros _. destruct (N.ltb_spec x z); [reflexivity|lia].
    + destruct (N.eqb_spec y z) as [->|]; [|discriminate].
      intros _. destruct (N.ltb_spec x z); [reflexivity|lia].
  - destruct (N.eqb_spec x y) as [->|]; [|discriminate].
    destruct (N.ltb_spec y z); [reflexivity|].
    destruct (N.eqb_spec y z); [|discriminate].
    apply IH.
Qed.

Lemma insert_perm (x : str) (xs : list str) :
  Permutation (insert x xs) (x :: xs).
Proof.
  induction xs as [|y ys IH]; cbn [insert]; [reflexivity|].
  destruct (leb x y); [reflexivity|].
  rewrite IH. apply perm_swap.
Qed.

Lemma sort_perm (xs : list str) : Permutation (sort xs) xs.
Proof.
  induction xs as [|x xs IH]; cbn [sort fold_right]; [reflexivity|].
  rewrite insert_perm. now constructor.
Qed.

Lemma insert_sorted (x : str) (xs : list str) :
  StronglySorted name_le xs -> StronglySorted name_le (insert x xs).
Proof.
  induction 1 as [|y ys Hys IH Hall]; cbn [insert].
  - repeat constructor.
  - destruct (leb x y) eqn:Hxy.
    + constructor; [now constructor|].
      constructor; [exact Hxy|].
      eapply Forall_impl; [|exact Hall].
      intros z Hz. eapply leb_trans; eauto.
    + constructor; [exact IH|].
      apply (Permutation_Forall (Permutation_sym (insert_perm x ys))).
      constructor; [|exact Hall].
      destruct (leb_total x y) as [H|H]; [congruence|exact H].
Qed.

Lemma sort_sorted (xs : list str) : StronglySorted name_le (sort xs).
Proof.
  induction xs as [|x xs IH]; cbn [sort fold_right]; [constructor|].
  apply insert_sorted, IH.
Qed.

Lemma sorted_perm_unique (l1 : list str) :
  forall l2,
    StronglySorted name_le l1 -> StronglySorted name_le l2 ->
    Permutation l1 l2 -> l1 = l2.
Proof.
  induction l1 as [|a l1 IH]; intros l2 H1 H2 Hp.
  - apply Permutation_nil in Hp. now subst.
  - destruct l2 as [|b l2];
      [apply Permutation_sym, Permutation_nil in Hp; discriminate|].
    inversion H1 as [|? ? Hs1 Ha]; subst.
    inversion H2 as [|? ? Hs2 Hb]; subst.
    assert (a = b) as ->.
    { assert (Hin_a : In a (b :: l2))
        by (eapply Permutation_in; [exact Hp|now left]).
      assert (Hin_b : In b (a :: l1))
        by (eapply Permutation_in;
            [apply Permutation_sym; exact Hp|now left]).
      destruct Hin_a as [->|Hin_a]; [reflexivity|].
      destruct Hin_b as [->|Hin_b]; [reflexivity|].
      rewrite Forall_forall in Ha, Hb.
      apply leb_antisym; [apply Ha, Hin_b|apply Hb, Hin_a]. }
    f_equal. apply IH; auto.
    eapply Permutation_cons_inv; exact Hp.
Qed.

(** The sorted list depends on the names only, not on their order. *)
Lemma sort_of_permutation (xs ys : list str) :
  Permutation xs ys -> sort xs = sort ys.
Proof.
  intros Hp. apply sorted_perm_unique; try apply sort_sorted.
  rewrite !sort_perm. exact Hp.
Qed.

Lemma filter_of_permutation (f : str -> bool) (xs ys : list str) :
  Permutation xs ys -> Permutation (filter f xs) (filter f ys).
Proof.
  induction 1 as [|x xs ys _ IH|x y xs|xs ys zs _ IH1 _ IH2];
    cbn [filter].
  - reflexivity.
  - destruct (f x); [now constructor|exact IH].
  - destruct (f x), (f y); try reflexivity. apply perm_swap.
  - now rewrite IH1.
Qed.

(** The files of a directory, unlike its subdirectories, are listed and
    counted the same in whatever order the file system gives them. *)
Lemma walk_step_files_order (fnmatch : str -> str -> bool)
      (exclude_patterns : list str) (root_path display_name : str)
      (st : walk_state) (root : str) (dirs files files' : list str) :
  Permutation files files' ->
  walk_step fnmatch exclude_patterns root_path display_name st
            (root, dirs, files)
  = walk_step fnmatch exclude_patterns root_path display_name st
              (root, dirs, files').
Proof.
  intros Hp. unfold walk_step.
  rewrite (Permutation_length Hp).
  rewrite (Permutation_length
             (filter_of_permutation
                (fun f => is_excluded fnmatch exclude_patterns
                                      (Posixpath.join root f) root_path)
                Hp)).
  rewrite (sort_of_permutation
             (filter_of_permutation
                (fun f => negb (is_excluded fnmatch exclude_patterns
                                            (Posixpath.join root f)
                                            root_path))
                Hp)).
  reflexivity.
Qed.

(** ** C1 and C2: pruning and ordering of directories *)

(** C1 (the code departs from the claim).  With the pattern [build] and
    the archive [proj/build/sub/file.txt], the directory [build] is
    excluded, yet [sub/] and [file.txt] below it are in the structure
    listing and [build/sub/file.txt] is a record of the content section:
    the walk list is complete before the loop starts, so emptying [dirs]
    prunes nothing.  The pruned subtree has two directories and one file;
    the counters say three directories ([build] is counted at its parent
    and again at itself) and no file. *)
Theorem C1_excluded_directory_descendants_listed :
  let ws := walk_of Fnmatch.fnmatch [lit "build"]
                    (resolve_root (lit "/tmp/t") Sample.zip Sample.nested) in
  is_excluded Fnmatch.fnmatch [lit "build"]
              (lit "/tmp/t/proj/build") (lit "/tmp/t/proj") = true
  /\ structure_lines ws
     = [lit "proj/" ++ nl;
        lit "    |-- sub/" ++ nl;
        lit "      |-- file.txt" ++ nl]
  /\ files_to_process ws
     = [(lit "build/sub/file.txt", lit "/tmp/t/proj/build/sub/file.txt")]
  /\ total_dirs ws = 2
  /\ total_files ws = 1
  /\ excluded_dirs_count ws = 3
  /\ excluded_files_count ws = 0.
Proof. cbv zeta. repeat split; vm_compute; reflexivity. Qed.

(** C2 (the code departs from the claim).  [proj/] holds the directories
    [a] and [b].  When the file system lists [b] first, the structure
    section has [b/] before [a/]; when it lists [a] first, [a/] comes
    first.  [dirs.sort()] sorts a list that the finished walk no longer
    reads, so directories come out in listing order and the two reports
    differ. *)
Theorem C2_directories_in_listing_order :
  let walk_listed items :=
    walk_of Fnmatch.fnmatch []
            (resolve_root (lit "/tmp/t") Sample.zip items) in
  Permutation Sample.entries_b_a Sample.entries_a_b
  /\ structure_lines (walk_listed Sample.listed_b_a)
     = [lit "proj/" ++ nl; lit "  |-- b/" ++ nl; lit "  |-- a/" ++ nl]
  /\ structure_lines (walk_listed Sample.listed_a_b)
     = [lit "proj/" ++ nl; lit "  |-- a/" ++ nl; lit "  |-- b/" ++ nl]
  /\ structure_lines (walk_listed Sample.listed_b_a)
     <> structure_lines (walk_listed Sample.listed_a_b).
Proof.
  cbv zeta. split; [apply perm_swap|].
  split; [vm_compute; reflexivity|].
  split; [vm_compute; reflexivity|].
  vm_compute. discriminate.
Qed.

(** ** Checks on the library models *)

Example fmt_kb_two_kb : fmt_kb 2048 = lit "2.0".
Proof. reflexivity. Qed.

Example fmt_kb_half_even : fmt_kb 256 = lit "0.2".
Proof. reflexivity. Qed.

Example fnmatch_log :
  Fnmatch.fnmatch (lit "app.log") (lit "*.log") = true
  /\ Fnmatch.fnmatch (lit "app.log.bak") (lit "*.log") = false
  /\ Fnmatch.fnmatch (lit "src/app.log") (lit "*.log") = true
  /\ Fnmatch.fnmatch (lit "abc") (lit "a[a-c]?") = true
  /\ Fnmatch.fnmatch (lit "abc") (lit "a[!a-c]?") = false.
Proof. repeat split. Qed.

Example utf8_scalars :
  Codec.decode_utf8 Codec.Strict [xc3; xa9; xe2; x82; xac; xf0; x9f; x98; x80]
  = inr [233; 8364; 128512]%N.
Proof. reflexivity. Qed.

Example utf8_surrogate_rejected :
  Codec.decode_utf8 Codec.Strict [xed; xa0; x80] = inl UnicodeDecodeError.
Proof. reflexivity. Qed.

Example utf8_replace_truncated :
  Codec.decode_utf8 Codec.Replace [xe2; x28; xe2; x82]
  = inr [65533; 40; 65533]%N.
Proof. reflexivity. Qed.

Example splitext_samples :
  Posixpath.splitext (lit "repo.tar.zip") = (lit "repo.tar", lit ".zip")
  /\ Posixpath.splitext (lit ".zip") = (lit ".zip", [])
  /\ Posixpath.dirname (lit "out/sub/r.txt") = lit "out/sub"
  /\ Posixpath.relpath (lit "/tmp/t/proj/a/b") (lit "/tmp/t/proj")
     = lit "a/b"
  /\ Posixpath.relpath (lit "/tmp/t/proj") (lit "/tmp/t/proj") = lit ".".
Proof. repeat split. Qed.

(** ** More on the structure walk *)

Lemma eqb_refl (a : str) : eqb a a = true.
Proof.
  induction a as [|x a IH]; cbn [eqb]; [reflexivity|].
  now rewrite N.eqb_refl, IH.
Qed.

Lemma eqb_eq (a : str) : forall b, eqb a b = true <-> a = b.
Proof.
  induction a as [|x a IH]; intros [|y b]; cbn [eqb]; split;
    try discriminate; try reflexivity.
  - intros H. apply andb_true_iff in H as [Hx Ha].
    apply N.eqb_eq in Hx. apply IH in Ha. now subst.
  - intros H. injection H as -> ->. now rewrite N.eqb_refl, eqb_refl.
Qed.

(** Induction on a tree, with the hypothesis for every entry of a
    directory. *)
Lemma node_nested_ind (P : node -> Prop) :
  (forall name, P (File name)) ->
  (forall name es, Forall P es -> P (Dir name es)) ->
  forall n, P n.
Proof.
  intros HF HD. fix IH 1. intros [name|name es].
  - apply HF.
  - apply HD. induction es as [|e es IHes]; constructor.
    + apply IH.
    + exact IHes.
Qed.

Section WalkMore.
Variable fnmatch : str -> str -> bool.
Variable exclude_patterns : list str.
Variable root_path display_name : str.

(** The files of one directory become records of that directory. *)
Lemma list_files_records (root relative_path file_indent : str)
      (fs : list str) :
  forall st rec,
    In rec (files_to_process
              (fold_left (list_file root relative_path file_indent) fs st)) ->
    In rec (files_to_process st)
    \/ exists f, In f fs /\ snd rec = Posixpath.join root f.
Proof.
  induction fs as [|f fs IH]; intros st rec; cbn [fold_left]; [now left|].
  intros Hin. apply IH in Hin as [Hin|(g & Hg & Hrec)].
  - unfold list_file in Hin. cbn [files_to_process] in Hin.
    apply in_app_or in Hin as [Hin|[<-|[]]]; [now left|].
    right. exists f. split; [now left|reflexivity].
  - right. exists g. split; [now right|exact Hrec].
Qed.

(** Where the records added by one iteration come from. *)
Lemma walk_step_records (st : walk_state) (root : str)
      (dirs files : list str) (rec : str * str) :
  In rec (files_to_process
            (walk_step fnmatch exclude_patterns root_path display_name st
                       (root, dirs, files))) ->
  In rec (files_to_process st)
  \/ (exists f, In f files /\ snd rec = Posixpath.join root f)
     /\ is_excluded fnmatch exclude_patterns (snd rec) root_path = false
     /\ (is_excluded fnmatch exclude_patterns root root_path = false
         \/ root = root_path).
Proof.
  unfold walk_step.
  destruct (is_excluded fnmatch exclude_patterns root root_path
            && negb (eqb root root_path)) eqn:Hgate.
  - cbn [files_to_process]. now left.
  - intros Hin. apply list_files_records in Hin as [Hin|(f & Hf & Hrec)].
    + cbn [files_to_process] in Hin. now left.
    + right.
      apply (Permutation_in _ (sort_perm _)), filter_In in Hf
        as [Hf Hkeep].
      apply negb_true_iff in Hkeep. rewrite Hrec. split; [|split].
      * exists f. now split.
      * exact Hkeep.
      * apply andb_false_iff in Hgate as [H|H]; [now left|right].
        apply negb_false_iff, eqb_eq in H. exact H.
Qed.

End WalkMore.

(** Every record of a walk is a file that no pattern matches, by its path
    relative to the root or by its bare name, and lies in a walked
    directory that is the root or is itself not excluded: an excluded file
    never reaches the content section, nor does a file directly inside an
    excluded directory. *)
Theorem walk_records_not_excluded
        (fnmatch : str -> str -> bool) (exclude_patterns : list str)
        (root_path display_name : str) (items : list walk_item)
        (h p : str) :
  In (h, p)
     (files_to_process
        (walk fnmatch exclude_patterns root_path display_name items)) ->
  (forall pattern,
      In pattern exclude_patterns ->
      fnmatch (Posixpath.relpath p root_path) pattern = false
      /\ fnmatch (Posixpath.basename p) pattern = false)
  /\ exists root dirs files f,
      In (root, dirs, files) items
      /\ In f files
      /\ p = Posixpath.join root f
      /\ (is_excluded fnmatch exclude_patterns root root_path = false
          \/ root = root_path).
Proof.
  unfold walk.
  assert (H : forall its st,
             In (h, p)
                (files_to_process
                   (fold_left
                      (walk_step fnmatch exclude_patterns root_path
                                 display_name) its st)) ->
             In (h, p) (files_to_process st)
             \/ is_excluded fnmatch exclude_patterns p root_path = false
                /\ exists root dirs files f,
                    In (root, dirs, files) its
                    /\ In f files
                    /\ p = Posixpath.join root f
                    /\ (is_excluded fnmatch exclude_patterns root root_path
                        = false
                        \/ root = root_path)).
  { induction its as [|[[root dirs] files] its IH]; intros st;
      cbn [fold_left]; [now left|].
    intros Hin. apply IH in Hin as [Hin|(Hp & r & d & fs & f & Hi & Hf & Hj)].
    - apply walk_step_records in Hin
        as [Hin|((f & Hf & Hrec) & Hex & Hroot)]; [now left|].
      right. split; [exact Hex|].
      exists root, dirs, files, f. repeat split; auto. now left.
    - right. split; [exact Hp|].
      exists r, d, fs, f. split; [now right|]. exact (conj Hf Hj). }
  intros Hin. apply H in Hin as [[]|(Hp & Hfrom)].
  split; [|exact Hfrom].
  intros pattern Hpat. unfold is_excluded in Hp.
  destruct exclude_patterns as [|q qs]; [contradiction|].
  apply orb_false_iff.
  destruct (fnmatch (Posixpath.relpath p root_path) pattern
            || fnmatch (Posixpath.basename p) pattern) eqn:E;
    [|reflexivity].
  assert (Hex : existsb
                  (fun pattern =>
                     fnmatch (Posixpath.relpath p root_path) pattern
                     || fnmatch (Posixpath.basename p) pattern)
                  (q :: qs) = true).
  { apply existsb_exists. exists pattern. now split. }
  congruence.
Qed.

Lemma walk_records_not_excluded_witness :
  In (lit "a.txt", Sample.p_a)
     (files_to_process
        (walk Fnmatch.fnmatch Sample.pats (lit "/tmp/t/proj") (lit "proj")
              (os_walk (lit "/tmp/t/proj") Sample.proj_entries)))
  /\ Fnmatch.fnmatch (Posixpath.basename Sample.p_a) (lit "*.dat") = false.
Proof.
  assert (Hin : In (lit "a.txt", Sample.p_a)
                   (files_to_process
                      (walk Fnmatch.fnmatch Sample.pats (lit "/tmp/t/proj")
                            (lit "proj")
                            (os_walk (lit "/tmp/t/proj")
                                     Sample.proj_entries))))
    by (vm_compute; tauto).
  split; [exact Hin|].
  apply (proj1 (@walk_records_not_excluded
                  Fnmatch.fnmatch Sample.pats (lit "/tmp/t/proj")
                  (lit "proj")
                  (os_walk (lit "/tmp/t/proj") Sample.proj_entries)
                  (lit "a.txt") Sample.p_a Hin) (lit "*.dat")).
  left. reflexivity.
Defined.

(** *** Without patterns *)

Lemma filter_all (A : Type) (l : list A) : filter (fun _ => true) l = l.
Proof.
  induction l as [|x l IH]; cbn [filter]; [reflexivity|now rewrite IH].
Qed.

Lemma filter_none (A : Type) (l : list A) : filter (fun _ => false) l = [].
Proof. induction l as [|x l IH]; cbn [filter]; auto. Qed.

Lemma list_files_counts (root relative_path file_indent : str)
      (fs : list str) :
  forall st,
    let st' := fold_left (list_file root relative_path file_indent) fs st in
    total_files st' = total_files st + length fs
    /\ total_dirs st' = total_dirs st
    /\ excluded_dirs_count st' = excluded_dirs_count st
    /\ excluded_files_count st' = excluded_files_count st.
Proof.
  induction fs as [|f fs IH]; intros st; cbn [fold_left length].
  - repeat split. lia.
  - destruct (IH (list_file root relative_path file_indent st f))
      as (H1 & H2 & H3 & H4).
    cbv zeta. rewrite H1, H2, H3, H4. unfold list_file.
    cbn [total_files total_dirs excluded_dirs_count excluded_files_count].
    repeat split. lia.
Qed.

Lemma list_sum_cons (a : nat) (l : list nat) :
  list_sum (a :: l) = a + list_sum l.
Proof. reflexivity. Qed.

(** The walk items below the entries of a directory: one per directory of
    the trees, and the files named in them, with the files among the
    entries themselves, are the files of the trees. *)
Lemma walk_entries_counts (es : list node) :
  Forall (fun n =>
            forall parent,
              length (walk_node parent n) = count_dirs n
              /\ list_sum (map (fun item : walk_item => length (snd item))
                               (walk_node parent n))
                 + (if isfile n then 1 else 0)
                 = count_files n) es ->
  forall parent,
    length (flat_map (walk_node parent) es) = list_sum (map count_dirs es)
    /\ length (filenames es)
       + list_sum (map (fun item : walk_item => length (snd item))
                       (flat_map (walk_node parent) es))
       = list_sum (map count_files es).
Proof.
  intros Hall parent. unfold filenames. rewrite length_map.
  induction Hall as [|e es He _ IHes]; cbn [flat_map map filter].
  - split; reflexivity.
  - destruct IHes as [Hd Hf]. destruct (He parent) as [Hd1 Hf1].
    rewrite length_app, map_app, list_sum_app, !list_sum_cons.
    split; [lia|].
    destruct (isfile e); cbn [length]; lia.
Qed.

Lemma walk_node_counts (n : node) :
  forall parent,
    length (walk_node parent n) = count_dirs n
    /\ list_sum (map (fun item : walk_item => length (snd item))
                     (walk_node parent n))
       + (if isfile n then 1 else 0)
       = count_files n.
Proof.
  induction n as [name|name es IH] using node_nested_ind; intros parent;
    cbn [walk_node count_dirs count_files isfile].
  - split; reflexivity.
  - destruct (walk_entries_counts IH (Posixpath.join parent name))
      as [Hd Hf].
    cbn [length map snd]. rewrite list_sum_cons, Hd.
    split; [reflexivity|lia].
Qed.

Lemma os_walk_counts (top : str) (es : list node) :
  length (os_walk top es) = S (list_sum (map count_dirs es))
  /\ list_sum (map (fun item : walk_item => length (snd item))
                   (os_walk top es))
     = list_sum (map count_files es).
Proof.
  assert (Hall : Forall (fun n =>
                           forall parent,
                             length (walk_node parent n) = count_dirs n
                             /\ list_sum
                                  (map (fun item : walk_item =>
                                          length (snd item))
                                       (walk_node parent n))
                                + (if isfile n then 1 else 0)
                                = count_files n) es).
  { apply Forall_forall. intros n _. apply walk_node_counts. }
  destruct (walk_entries_counts Hall top) as [Hd Hf].
  unfold os_walk. cbn [length map snd]. rewrite list_sum_cons, Hd.
  split; [reflexivity|exact Hf].
Qed.

(** With no exclusion pattern the walk lists the whole tree: the root and
    every directory below it, every file, and nothing is counted as
    excluded. *)
Theorem walk_without_patterns_lists_all
        (fnmatch : str -> str -> bool) (r : resolved) :
  let ws := walk_of fnmatch [] r in
  total_dirs ws = S (list_sum (map count_dirs (root_entries r)))
  /\ total_files ws = list_sum (map count_files (root_entries r))
  /\ length (files_to_process ws)
     = list_sum (map count_files (root_entries r))
  /\ excluded_dirs_count ws = 0
  /\ excluded_files_count ws = 0.
Proof.
  intros ws. subst ws. unfold walk_of, walk.
  destruct (os_walk_counts (repo_root_in_temp r) (root_entries r))
    as [<- <-].
  generalize (os_walk (repo_root_in_temp r) (root_entries r)) as items.
  intros items.
  assert (H : forall st,
             let st' :=
               fold_left (walk_step fnmatch [] (repo_root_in_temp r)
                                    (repo_display_name r)) items st in
             total_dirs st' = total_dirs st + length items
             /\ total_files st'
                = total_files st
                  + list_sum (map (fun item : walk_item =>
                                     length (snd item)) items)
             /\ excluded_dirs_count st' = excluded_dirs_count st
             /\ excluded_files_count st' = excluded_files_count st).
  { induction items as [|[[root dirs] files] items IH]; intros st;
      cbn [fold_left length map snd].
    - cbn [list_sum fold_right]. repeat split; lia.
    - destruct (IH (walk_step fnmatch [] (repo_root_in_temp r)
                              (repo_display_name r) st (root, dirs, files)))
        as (H1 & H2 & H3 & H4).
      cbv zeta. rewrite H1, H2, H3, H4, list_sum_cons.
      unfold walk_step. cbn [is_excluded andb negb].
      rewrite !filter_all, filter_none.
      match goal with
      | |- context [fold_left (list_file ?a ?b ?c) ?fs ?s0] =>
          destruct (list_files_counts a b c fs s0) as (G1 & G2 & G3 & G4)
      end.
      rewrite G1, G2, G3, G4.
      rewrite (Permutation_length (sort_perm files)).
      cbn [total_files total_dirs excluded_dirs_count excluded_files_count
           length].
      repeat split; lia. }
  destruct (H walk_init) as (H1 & H2 & H3 & H4).
  pose proof (walk_tally fnmatch [] (repo_root_in_temp r)
                (repo_display_name r) items) as [Hrec _].
  unfold walk in Hrec. rewrite <- Hrec.
  cbn [walk_init total_dirs total_files excluded_dirs_count
       excluded_files_count] in H1, H2, H3, H4.
  repeat split; assumption.
Qed.

(** *** The patterns as a set *)

Lemma existsb_of_permutation (A : Type) (f : A -> bool) (l l' : list A) :
  Permutation l l' -> existsb f l = existsb f l'.
Proof.
  induction 1 as [|x l l' _ IH|x y l|l l' l'' _ IH1 _ IH2];
    cbn [existsb].
  - reflexivity.
  - now rewrite IH.
  - destruct (f x), (f y); reflexivity.
  - now rewrite IH1.
Qed.

Lemma is_excluded_existsb (fnmatch : str -> str -> bool)
      (patterns : list str) (p root : str) :
  is_excluded fnmatch patterns p root
  = existsb (fun pattern =>
               fnmatch (Posixpath.relpath p root) pattern
               || fnmatch (Posixpath.basename p) pattern) patterns.
Proof. destruct patterns; reflexivity. Qed.

(** Two pattern lists that exclude the same paths give the same walk. *)
Lemma walk_of_equal_exclusions (fnmatch : str -> str -> bool)
      (ps qs : list str) (root_path display_name : str) :
  (forall p, is_excluded fnmatch ps p root_path
             = is_excluded fnmatch qs p root_path) ->
  forall items,
    walk fnmatch ps root_path display_name items
    = walk fnmatch qs root_path display_name items.
Proof.
  intros Hsame items. unfold walk. generalize walk_init as st.
  induction items as [|[[root dirs] files] items IH]; intros st;
    cbn [fold_left]; [reflexivity|].
  rewrite IH. f_equal. unfold walk_step. rewrite Hsame.
  assert (Hkeep : forall l,
             filter (fun d => negb (is_excluded fnmatch ps
                                                (Posixpath.join root d)
                                                root_path)) l
             = filter (fun d => negb (is_excluded fnmatch qs
                                                  (Posixpath.join root d)
                                                  root_path)) l)
    by (intros l; apply filter_ext; intros d; now rewrite Hsame).
  assert (Hdrop : forall l,
             filter (fun f => is_excluded fnmatch ps (Posixpath.join root f)
                                          root_path) l
             = filter (fun f => is_excluded fnmatch qs
                                            (Posixpath.join root f)
                                            root_path) l)
    by (intros l; apply filter_ext; intros f; now rewrite Hsame).
  rewrite !Hkeep, !Hdrop. reflexivity.
Qed.

(** The order in which the patterns are given, and giving one twice, does
    not change the structure listing, the records or the counters: only
    the set of patterns matters. *)
Theorem walk_depends_on_pattern_set
        (fnmatch : str -> str -> bool) (ps qs : list str) (r : resolved) :
  (forall pattern, In pattern ps <-> In pattern qs) ->
  walk_of fnmatch ps r = walk_of fnmatch qs r.
Proof.
  intros Hset. unfold walk_of. apply walk_of_equal_exclusions.
  intros p. rewrite !is_excluded_existsb.
  apply eq_true_iff_eq. rewrite !existsb_exists.
  split; intros (pattern & Hin & Hm); exists pattern;
    (split; [apply Hset; exact Hin|exact Hm]).
Qed.

Lemma walk_depends_on_pattern_set_witness :
  walk_of Fnmatch.fnmatch [lit "gone.txt"; lit "*.dat"; lit "*.dat"]
          Sample.r_proj
  = walk_of Fnmatch.fnmatch Sample.pats Sample.r_proj.
Proof.
  apply walk_depends_on_pattern_set.
  intros pattern. unfold Sample.pats. cbn [In]. tauto.
Defined.

(** *** The root *)

Lemma relpath_self (p : str) : Posixpath.relpath p p = Posixpath.curdir.
Proof.
  unfold Posixpath.relpath.
  assert (H : forall l, Posixpath.drop_common l l = ([], [])).
  { induction l as [|x l IH]; cbn [Posixpath.drop_common];
      [reflexivity|now rewrite eqb_refl]. }
  rewrite H. reflexivity.
Qed.

Lemma list_files_lines (root relative_path file_indent : str)
      (fs : list str) :
  forall st,
  exists more,
    structure_lines
      (fold_left (list_file root relative_path file_indent) fs st)
    = structure_lines st ++ more.
Proof.
  induction fs as [|f fs IH]; intros st; cbn [fold_left].
  - exists []. now rewrite app_nil_r.
  - destruct (IH (list_file root relative_path file_indent st f))
      as (more & Hmore).
    exists ([file_indent ++ f ++ nl] ++ more).
    rewrite Hmore. unfold list_file. cbn [structure_lines].
    now rewrite <- app_assoc.
Qed.

(** The loop only appends to the structure listing and never lowers the
    count of directories. *)
Lemma walk_fold_grows (fnmatch : str -> str -> bool) (ps : list str)
      (root_path display_name : str) (items : list walk_item) :
  forall st,
  exists more,
    structure_lines
      (fold_left (walk_step fnmatch ps root_path display_name) items st)
    = structure_lines st ++ more
    /\ total_dirs st
       <= total_dirs
            (fold_left (walk_step fnmatch ps root_path display_name)
                       items st).
Proof.
  induction items as [|[[root dirs] files] items IH]; intros st;
    cbn [fold_left].
  - exists []. split; [now rewrite app_nil_r|lia].
  - destruct (IH (walk_step fnmatch ps root_path display_name st
                            (root, dirs, files))) as (more & Hmore & Hle).
    assert (Hstep : exists more1,
               structure_lines
                 (walk_step fnmatch ps root_path display_name st
                            (root, dirs, files))
               = structure_lines st ++ more1
               /\ total_dirs st
                  <= total_dirs
                       (walk_step fnmatch ps root_path display_name st
                                  (root, dirs, files))).
    { unfold walk_step.
      destruct (is_excluded fnmatch ps root root_path
                && negb (eqb root root_path)).
      - exists []. cbn [structure_lines total_dirs].
        split; [now rewrite app_nil_r|lia].
      - match goal with
        | |- context [fold_left (list_file ?a ?b ?c) ?fs ?s0] =>
            destruct (list_files_lines a b c fs s0) as (more1 & Hm1);
            destruct (list_files_counts a b c fs s0) as (_ & Hd1 & _)
        end.
        rewrite Hm1, Hd1. cbn [structure_lines total_dirs].
        eexists. split; [rewrite <- app_assoc; reflexivity|lia]. }
    destruct Hstep as (more1 & Hm1 & Hle1).
    exists (more1 ++ more). rewrite Hmore, Hm1.
    split; [now rewrite app_assoc|lia].
Qed.

(** The root is listed whatever the patterns are, even one that matches
    everything: the structure section starts with the display name and a
    slash, and at least one directory is counted as included. *)
Theorem walk_lists_root_first
        (fnmatch : str -> str -> bool) (exclude_patterns : list str)
        (r : resolved) :
  let ws := walk_of fnmatch exclude_patterns r in
  (exists rest,
      structure_lines ws
      = (repo_display_name r ++ lit "/" ++ nl) :: rest)
  /\ 1 <= total_dirs ws.
Proof.
  intros ws. subst ws. unfold walk_of, walk, os_walk. cbn [fold_left].
  match goal with
  | |- context [fold_left ?f ?items ?s0] =>
      destruct (walk_fold_grows fnmatch exclude_patterns
                  (repo_root_in_temp r) (repo_display_name r) items s0)
        as (more & Hmore & Hle);
      assert (Hfirst : exists more1,
                 structure_lines s0
                 = (repo_display_name r ++ lit "/" ++ nl) :: more1
                 /\ 1 <= total_dirs s0)
  end.
  { unfold walk_step. rewrite eqb_refl, andb_false_r, relpath_self.
    cbn [eqb Posixpath.curdir Posixpath.dot_char N.eqb Pos.eqb andb].
    match goal with
    | |- context [fold_left (list_file ?a ?b ?c) ?fs ?s1] =>
        destruct (list_files_lines a b c fs s1) as (more1 & Hm1);
        destruct (list_files_counts a b c fs s1) as (_ & Hd1 & _)
    end.
    rewrite Hm1, Hd1. cbn [structure_lines total_dirs walk_init app].
    exists more1. split; [reflexivity|lia]. }
  destruct Hfirst as (more1 & Hm1 & Hle1).
  split; [|lia].
  exists (more1 ++ more). rewrite Hmore, Hm1. reflexivity.
Qed.

(** ** More on the content loop *)

(** The calls one iteration makes: the file is sized, probed only if the
    size is known and within the limit, and read as text only if the probe
    succeeded and found no null byte; it is not read as Latin-1, since
    decoding with [errors='replace'] does not raise. *)
Lemma render_file_calls (w : world) (m : option Z) (st : render_state)
      (h p : str) :
  exists calls,
    io_log (render_file w m st (h, p)) = io_log st ++ GetSize p :: calls
    /\ sized calls = []
    /\ forallb file_call calls = true
    /\ (forall q, In (ReadProbe q) calls ->
                  q = p
                  /\ exists n, getsize w p = inr n
                               /\ exceeds n (max_size_bytes m) = false)
    /\ (forall q enc, In (ReadText q enc) calls ->
                      q = p
                      /\ (exists n chunk,
                             getsize w p = inr n
                             /\ exceeds n (max_size_bytes m) = false
                             /\ read_probe w p 1024 = inr chunk
                             /\ has_null chunk = false)
                      /\ enc <> Codec.Latin1).
Proof.
  unfold render_file.
  destruct (getsize w p) as [e|n] eqn:Hsize.
  { exists []. flatten_lines. repeat split; try reflexivity;
      intros; contradiction. }
  destruct (exceeds n (max_size_bytes m)) eqn:Hlim.
  { exists []. flatten_lines. repeat split; try reflexivity;
      intros; contradiction. }
  destruct (read_probe w p 1024) as [e|chunk] eqn:Hprobe.
  { exists [ReadProbe p]. flatten_lines.
    split; [reflexivity|]. split; [reflexivity|]. split; [reflexivity|].
    split.
    - intros q [H|[]]. injection H as <-. split; [reflexivity|eauto].
    - intros q enc [H|[]]. discriminate H. }
  destruct (has_null chunk) eqn:Hnull.
  { exists [ReadProbe p]. flatten_lines.
    split; [reflexivity|]. split; [reflexivity|]. split; [reflexivity|].
    split.
    - intros q [H|[]]. injection H as <-. split; [reflexivity|eauto].
    - intros q enc [H|[]]. discriminate H. }
  unfold render_text.
  destruct (read_file w p) as [e|bs] eqn:Hread;
    [|destruct (decode_text_replace_total bs) as [content ->]];
    (exists [ReadProbe p; ReadText p (Codec.Utf8 Codec.Replace)];
     flatten_lines;
     split; [reflexivity|]; split; [reflexivity|]; split; [reflexivity|];
     split;
     [ intros q [H|[H|[]]]; [|discriminate H];
       injection H as <-; split; [reflexivity|eauto]
     | intros q enc [H|[H|[]]]; [discriminate H|];
       injection H as <- <-; split; [reflexivity|];
       split; [exists n, chunk; auto|discriminate] ]).
Qed.

Lemma sized_app (a b : list effect) : sized (a ++ b) = sized a ++ sized b.
Proof. unfold sized. apply flat_map_app. Qed.

(** What the loop adds to the call log: file calls only, one sizing per
    record in the order of the records. *)
Lemma render_calls (w : world) (m : option Z) (records : list (str * str)) :
  forall st,
  exists calls,
    io_log (render w m st records) = io_log st ++ calls
    /\ forallb file_call calls = true
    /\ sized calls = map snd records
    /\ (forall q enc,
           In (ReadText q enc) calls ->
           (exists h, In (h, q) records)
           /\ (exists n chunk,
                  getsize w q = inr n
                  /\ exceeds n (max_size_bytes m) = false
                  /\ read_probe w q 1024 = inr chunk
                  /\ has_null chunk = false)
           /\ enc <> Codec.Latin1).
Proof.
  induction records as [|[h p] rest IH]; intros st.
  - exists []. cbn [render fold_left map]. rewrite app_nil_r.
    repeat split; intros; contradiction.
  - rewrite render_cons.
    destruct (render_file_calls w m st h p)
      as (c1 & Hlog1 & Hs1 & Hf1 & _ & Ht1).
    destruct (IH (render_file w m st (h, p)))
      as (c2 & Hlog2 & Hf2 & Hs2 & Ht2).
    exists (GetSize p :: c1 ++ c2).
    split; [|split; [|split]].
    + rewrite Hlog2, Hlog1, <- app_assoc. reflexivity.
    + cbn [forallb file_call andb]. rewrite forallb_app, Hf1, Hf2.
      reflexivity.
    + change (GetSize p :: c1 ++ c2) with ([GetSize p] ++ c1 ++ c2).
      rewrite !sized_app, Hs1, Hs2. reflexivity.
    + intros q enc [H|H]; [discriminate H|].
      apply in_app_or in H as [H|H].
      * destruct (Ht1 q enc H) as (-> & Hg & Hl).
        split; [exists h; now left|]. split; assumption.
      * destruct (Ht2 q enc H) as ((h' & Hin) & Hg & Hl).
        split; [exists h'; now right|]. split; assumption.
Qed.

(** The content loop sizes every record exactly once, in the order of the
    records, and sizes nothing else. *)
Theorem render_sizes_each_record_once
        (w : world) (m : option Z) (st : render_state)
        (records : list (str * str)) :
  sized (io_log (render w m st records))
  = sized (io_log st) ++ map snd records.
Proof.
  destruct (render_calls w m records st) as (calls & -> & _ & Hs & _).
  now rewrite sized_app, Hs.
Qed.

(** The content loop opens a file as text only if it is a record whose
    size was obtained and did not exceed the limit and whose probe
    succeeded without a null byte: the content of an oversized, binary or
    unprobed file is never read. *)
Theorem render_reads_text_only_past_the_gates
        (w : world) (m : option Z) (st : render_state)
        (records : list (str * str)) (q : str) (enc : Codec.encoding) :
  In (ReadText q enc) (io_log (render w m st records)) ->
  In (ReadText q enc) (io_log st)
  \/ (exists h, In (h, q) records)
     /\ exists n chunk,
         getsize w q = inr n
         /\ exceeds n (max_size_bytes m) = false
         /\ read_probe w q 1024 = inr chunk
         /\ has_null chunk = false.
Proof.
  destruct (render_calls w m records st) as (calls & -> & _ & _ & Ht).
  intros H. apply in_app_or in H as [H|H]; [now left|right].
  destruct (Ht q enc H) as (Hrec & Hg & _). now split.
Qed.

Lemma render_reads_text_only_past_the_gates_witness :
  In (ReadText Sample.p_a (Codec.Utf8 Codec.Replace))
     (io_log (render Sample.w_proj (Some 1%Z) Sample.empty_state
                     (files_to_process Sample.ws_proj)))
  /\ ~ In (ReadText Sample.p_bin (Codec.Utf8 Codec.Replace))
          (io_log (render Sample.w_proj (Some 1%Z) Sample.empty_state
                          (files_to_process Sample.ws_proj))).
Proof.
  split.
  - vm_compute. tauto.
  - intros H.
    apply (@render_reads_text_only_past_the_gates
             Sample.w_proj (Some 1%Z) Sample.empty_state
             (files_to_process Sample.ws_proj) Sample.p_bin
             (Codec.Utf8 Codec.Replace)) in H.
    destruct H as [[]|(_ & n & chunk & _ & _ & Hprobe & Hnull)].
    vm_compute in Hprobe. injection Hprobe as <-.
    vm_compute in Hnull. discriminate Hnull.
Defined.

(** The content loop never opens a file as Latin-1: with
    [errors='replace'] decoding does not raise, and the fallback of lines
    265-273 is not reached for any file, whatever the file system
    answers. *)
Theorem render_never_reads_latin1
        (w : world) (m : option Z) (st : render_state)
        (records : list (str * str)) (q : str) :
  In (ReadText q Codec.Latin1) (io_log (render w m st records)) ->
  In (ReadText q Codec.Latin1) (io_log st).
Proof.
  destruct (render_calls w m records st) as (calls & -> & _ & _ & Ht).
  intros H. apply in_app_or in H as [H|H]; [exact H|].
  destruct (Ht q Codec.Latin1 H) as (_ & _ & Hl).
  exfalso. apply Hl. reflexivity.
Qed.

Lemma render_never_reads_latin1_witness :
  In (ReadText Sample.p_l1 (Codec.Utf8 Codec.Replace))
     (io_log (render Sample.w_proj None Sample.empty_state
                     (files_to_process Sample.ws_proj)))
  /\ ~ In (ReadText Sample.p_l1 Codec.Latin1)
          (io_log (render Sample.w_proj None Sample.empty_state
                          (files_to_process Sample.ws_proj))).
Proof.
  split; [vm_compute; tauto|].
  intros H.
  apply (@render_never_reads_latin1
           Sample.w_proj None Sample.empty_state
           (files_to_process Sample.ws_proj) Sample.p_l1) in H.
  exact H.
Defined.

(** *** What the counters count *)

(** One iteration raises the counter of the file's verdict and no other;
    a file that is emitted raises none. *)
Lemma render_file_verdict (w : world) (m : option Z) (st : render_state)
      (h p : str) :
  let st' := render_file w m st (h, p) in
  let one v := if verdict_eqb (verdict_of w m p) v then 1 else 0 in
  skipped_size st' = skipped_size st + one Oversized
  /\ skipped_binary st' = skipped_binary st + one Binary
  /\ read_errors st' = read_errors st + one Failed.
Proof.
  cbv zeta. unfold render_file, verdict_of.
  destruct (getsize w p) as [e|n].
  { flatten_lines. cbn [verdict_eqb]. repeat split; lia. }
  destruct (exceeds n (max_size_bytes m)).
  { flatten_lines. cbn [verdict_eqb]. repeat split; lia. }
  destruct (read_probe w p 1024) as [e|chunk].
  { flatten_lines. cbn [verdict_eqb]. repeat split; lia. }
  destruct (has_null chunk).
  { flatten_lines. cbn [verdict_eqb]. repeat split; lia. }
  unfold render_text.
  destruct (read_file w p) as [e|bs].
  - flatten_lines; cbn [verdict_eqb]; repeat split; lia.
  - destruct (decode_text_replace_total bs) as [content ->].
    flatten_lines. cbn [verdict_eqb]. repeat split; lia.
Qed.

(** The three skip counters are exact: after the loop each one has grown
    by the number of records with that verdict (too large; a null byte in
    the probe; a failed call), every record is counted as processed, and
    the records that raise no skip counter are those whose text was
    emitted. *)
Theorem render_counters_are_exact
        (w : world) (m : option Z) (records : list (str * str))
        (st : render_state) :
  let st' := render w m st records in
  skipped_size st' = skipped_size st + tally_of w m Oversized records
  /\ skipped_binary st' = skipped_binary st + tally_of w m Binary records
  /\ read_errors st' = read_errors st + tally_of w m Failed records
  /\ processed_files st' = processed_files st + length records
  /\ length records
     = tally_of w m Oversized records + tally_of w m Binary records
       + tally_of w m Failed records + tally_of w m Emitted records.
Proof.
  cbv zeta. revert st.
  induction records as [|[h p] rest IH]; intros st.
  - cbn [render fold_left length]. unfold tally_of. cbn [filter length].
    repeat split; lia.
  - rewrite render_cons.
    destruct (IH (render_file w m st (h, p))) as (H1 & H2 & H3 & H4 & H5).
    destruct (render_file_verdict w m st h p) as (G1 & G2 & G3).
    destruct (render_file_block w m st (h, p)) as (G4 & _).
    rewrite H1, H2, H3, H4, G1, G2, G3, G4.
    unfold tally_of in *. cbn [filter snd length].
    destruct (verdict_of w m p); cbn [verdict_eqb length];
      repeat split; lia.
Qed.

(** ** More on the run *)

Lemma max_size_bytes_nonpositive (k : Z) :
  (k <= 0)%Z -> max_size_bytes (Some k) = None.
Proof.
  intros Hk. unfold max_size_bytes.
  destruct (Z.ltb_spec 0 k); [lia|reflexivity].
Qed.

Lemma render_nonpositive_limit (w : world) (k : Z)
      (records : list (str * str)) :
  (k <= 0)%Z ->
  forall st, render w (Some k) st records = render w None st records.
Proof.
  intros Hk. induction records as [|[h p] rest IH]; intros st;
    [reflexivity|].
  rewrite !render_cons, IH. f_equal.
  unfold render_file. rewrite (max_size_bytes_nonpositive Hk).
  cbn [max_size_bytes exceeds].
  destruct (getsize w p); reflexivity.
Qed.

(** A size limit that is zero or negative is no limit: the run makes the
    same calls, writes the same report and returns the same value as
    without [max_file_size_kb]. *)
Theorem nonpositive_limit_is_no_limit
        (fnmatch : str -> str -> bool) (w : world)
        (zip_path output_txt_path : str) (exclude_patterns : list str)
        (k : Z) :
  (k <= 0)%Z ->
  generate_repository_description
    fnmatch w zip_path output_txt_path exclude_patterns (Some k)
  = generate_repository_description
      fnmatch w zip_path output_txt_path exclude_patterns None.
Proof.
  intros Hk. unfold generate_repository_description.
  destruct (negb (path_exists w zip_path)); [reflexivity|].
  destruct (negb (endswith (lower zip_path) (lit ".zip"))); [reflexivity|].
  destruct (mkdtemp w) as [e|temp_dir]; [reflexivity|].
  destruct (extractall w zip_path temp_dir) as [|e|items];
    try reflexivity.
  cbv zeta.
  assert (Hrs : forall ws,
             render_of w zip_path exclude_patterns (Some k) ws
             = render_of w zip_path exclude_patterns None ws).
  { intros ws. unfold render_of.
    rewrite (render_nonpositive_limit w _ Hk). f_equal.
    unfold render_init, header_lines.
    rewrite (max_size_bytes_nonpositive Hk). reflexivity. }
  rewrite Hrs. reflexivity.
Qed.

Lemma nonpositive_limit_is_no_limit_witness :
  (0 <= 0)%Z
  /\ generate_repository_description
       Fnmatch.fnmatch Sample.w_proj Sample.zip Sample.out [] (Some 0%Z)
     = generate_repository_description
         Fnmatch.fnmatch Sample.w_proj Sample.zip Sample.out [] None.
Proof.
  assert (H0 : (0 <= 0)%Z) by lia.
  split; [exact H0|].
  apply (@nonpositive_limit_is_no_limit
           Fnmatch.fnmatch Sample.w_proj Sample.zip Sample.out [] 0%Z H0).
Defined.

(** The run returns [True] exactly when the input passes the two checks,
    the temporary directory is created, the archive is extracted, the
    output directory exists or can be made, and the report is written:
    nothing that happens to a single file decides the outcome. *)
Theorem run_succeeds_iff_staged_and_saved
        (fnmatch : str -> str -> bool) (w : world)
        (zip_path output_txt_path : str) (exclude_patterns : list str)
        (max_file_size_kb : option Z) :
  returned (generate_repository_description
              fnmatch w zip_path output_txt_path exclude_patterns
              max_file_size_kb) = true
  <-> input_accepted w zip_path = true
      /\ exists temp_dir extracted_items,
          mkdtemp w = inr temp_dir
          /\ extractall w zip_path temp_dir = Extracted extracted_items
          /\ (Posixpath.dirname output_txt_path <> [] ->
              path_exists w (Posixpath.dirname output_txt_path) = false ->
              makedirs w (Posixpath.dirname output_txt_path) = None)
          /\ write_file
               w output_txt_path
               (concat
                  (output_lines
                     (render_of w zip_path exclude_patterns max_file_size_kb
                        (walk_of fnmatch exclude_patterns
                           (resolve_root temp_dir zip_path
                                         extracted_items)))))
             = None.
Proof.
  unfold generate_repository_description, input_accepted.
  destruct (path_exists w zip_path); cbn [negb andb];
    [|split; [discriminate|intros [H _]; discriminate H]].
  destruct (endswith (lower zip_path) (lit ".zip")); cbn [negb];
    [|split; [discriminate|intros [H _]; discriminate H]].
  destruct (mkdtemp w) as [e|temp_dir].
  { split; [discriminate|]. intros (_ & t & i & H & _). discriminate H. }
  destruct (extractall w zip_path temp_dir) as [|e|items] eqn:Hext.
  1,2: split; [discriminate|];
       intros (_ & t & i & Ht & Hx & _); injection Ht as <-; congruence.
  cbv zeta. unfold save.
  set (dir := Posixpath.dirname output_txt_path).
  set (text := concat (output_lines _)).
  assert (Hempty : eqb dir [] = true <-> dir = []) by apply eqb_eq.
  split.
  - intros Hret. split; [reflexivity|]. exists temp_dir, items.
    split; [reflexivity|]. split; [exact Hext|].
    destruct (negb (eqb dir []) && negb (path_exists w dir)) eqn:Hmust.
    + destruct (makedirs w dir) eqn:Hmk; [discriminate Hret|].
      destruct (write_file w output_txt_path text) eqn:Hwr;
        [discriminate Hret|].
      split; [intros; reflexivity|first [reflexivity|exact Hwr]].
    + destruct (write_file w output_txt_path text) eqn:Hwr;
        [discriminate Hret|].
      split; [|first [reflexivity|exact Hwr]]. intros Hdir Hno.
      apply andb_false_iff in Hmust as [H|H].
      * apply negb_false_iff, Hempty in H. contradiction.
      * rewrite Hno in H. discriminate H.
  - intros (_ & t & i & Ht & Hx & Hmk & Hwr).
    injection Ht as <-. rewrite Hext in Hx. injection Hx as <-.
    fold text in Hwr. rewrite Hwr.
    destruct (negb (eqb dir []) && negb (path_exists w dir)) eqn:Hmust;
      [|reflexivity].
    apply andb_true_iff in Hmust as [H1 H2].
    apply negb_true_iff in H1, H2.
    rewrite Hmk; [reflexivity| |exact H2].
    intros Hd. apply Hempty in Hd. congruence.
Qed.

(** *** The order of the calls *)

(** The calls of a run that got past the input checks and has its
    temporary directory. *)
Lemma run_effects_shape
      (fnmatch : str -> str -> bool) (w : world)
      (zip_path output_txt_path : str) (exclude_patterns : list str)
      (max_file_size_kb : option Z) (temp_dir : str) :
  input_accepted w zip_path = true ->
  mkdtemp w = inr temp_dir ->
  exists tail,
    effects (generate_repository_description
               fnmatch w zip_path output_txt_path exclude_patterns
               max_file_size_kb)
    = MkTemp :: ExtractAll zip_path temp_dir :: tail
    /\ match extractall w zip_path temp_dir with
       | Extracted extracted_items =>
           run_tail w output_txt_path temp_dir
             (concat
                (output_lines
                   (render_of w zip_path exclude_patterns max_file_size_kb
                      (walk_of fnmatch exclude_patterns
                         (resolve_root temp_dir zip_path
                                       extracted_items)))))
             tail
       | _ => tail = [RmTemp temp_dir]
       end.
Proof.
  unfold input_accepted. intros Hin Htmp.
  apply andb_true_iff in Hin as [Hex Hzip].
  unfold generate_repository_description.
  rewrite Hex, Hzip, Htmp. cbn [negb].
  destruct (extractall w zip_path temp_dir) as [|e|items].
  1,2: exists [RmTemp temp_dir]; split; reflexivity.
  cbv zeta. unfold save, render_of.
  set (ws := walk_of fnmatch exclude_patterns
                     (resolve_root temp_dir zip_path items)).
  destruct (render_calls w max_file_size_kb (files_to_process ws)
              (render_init zip_path exclude_patterns max_file_size_kb ws))
    as (calls & Hlog & Hfile & _).
  cbn [render_init io_log app] in Hlog. rewrite Hlog.
  set (dir := Posixpath.dirname output_txt_path).
  set (text := concat (output_lines _)).
  destruct (negb (eqb dir []) && negb (path_exists w dir)) eqn:Hmust.
  - apply andb_true_iff in Hmust as [H1 H2].
    apply negb_true_iff in H1, H2.
    assert (Hdir : dir <> []).
    { intros Hd. apply eqb_eq in Hd. congruence. }
    destruct (makedirs w dir).
    + eexists. split; [cbn [effects failure app]; reflexivity|].
      exists calls, [MakeDirs dir], []. repeat split; auto.
    + destruct (write_file w output_txt_path text);
        (eexists; split; [cbn [effects failure app]; reflexivity|]);
        exists calls, [MakeDirs dir], [WriteFile output_txt_path text];
        repeat split; auto.
  - destruct (write_file w output_txt_path text);
      (eexists; split; [cbn [effects failure app]; reflexivity|]);
      exists calls, [], [WriteFile output_txt_path text];
      repeat split; auto.
Qed.

Lemma file_call_not_other (reads : list effect) (e : effect) :
  forallb file_call reads = true -> file_call e = false -> ~ In e reads.
Proof.
  intros Hall He Hin. rewrite forallb_forall in Hall.
  apply Hall in Hin. congruence.
Qed.

(** A run that has created its temporary directory removes it as its last
    call and only then, whether the extraction, the making of the output
    directory or the write fails or all of them succeed. *)
Theorem run_removes_temp_dir_last
        (fnmatch : str -> str -> bool) (w : world)
        (zip_path output_txt_path : str) (exclude_patterns : list str)
        (max_file_size_kb : option Z) (temp_dir : str) :
  input_accepted w zip_path = true ->
  mkdtemp w = inr temp_dir ->
  exists before,
    effects (generate_repository_description
               fnmatch w zip_path output_txt_path exclude_patterns
               max_file_size_kb)
    = before ++ [RmTemp temp_dir]
    /\ forall d, ~ In (RmTemp d) before.
Proof.
  intros Hin Htmp.
  destruct (run_effects_shape fnmatch w zip_path output_txt_path
              exclude_patterns max_file_size_kb Hin Htmp)
    as (tail & -> & Htail).
  destruct (extractall w zip_path temp_dir) as [|e|items].
  1,2: subst tail; exists [MkTemp; ExtractAll zip_path temp_dir];
       (split; [reflexivity|]);
       intros d [H|[H|[]]]; discriminate H.
  destruct Htail as (reads & dirs & writes & -> & Hreads & Hdirs & Hwrites).
  exists (MkTemp :: ExtractAll zip_path temp_dir
          :: reads ++ dirs ++ writes).
  split.
  - cbn [app]. rewrite <- !app_assoc. reflexivity.
  - intros d [H|[H|H]]; try discriminate H.
    apply in_app_or in H as [H|H].
    + revert H. now apply file_call_not_other.
    + apply in_app_or in H as [H|H].
      * destruct Hdirs as [->|(-> & _)]; [contradiction|].
        destruct H as [H|[]]. discriminate H.
      * destruct Hwrites as [->| ->]; [contradiction|].
        destruct H as [H|[]]. discriminate H.
Qed.

Lemma run_removes_temp_dir_last_witness :
  input_accepted Sample.w_proj Sample.zip = true
  /\ exists before,
      effects (generate_repository_description
                 Fnmatch.fnmatch Sample.w_proj Sample.zip Sample.out
                 Sample.pats (Some 1%Z))
      = before ++ [RmTemp (lit "/tmp/t")]
      /\ forall d, ~ In (RmTemp d) before.
Proof.
  assert (Hin : input_accepted Sample.w_proj Sample.zip = true)
    by reflexivity.
  split; [exact Hin|].
  apply (@run_removes_temp_dir_last
           Fnmatch.fnmatch Sample.w_proj Sample.zip Sample.out Sample.pats
           (Some 1%Z) (lit "/tmp/t") Hin eq_refl).
Defined.

(** The output file is written at most once, under the path asked for,
    with the complete report, after the archive has been extracted and
    every file call has been made; the only call after it is the removal
    of the temporary directory. *)
Theorem run_writes_once_at_the_end
        (fnmatch : str -> str -> bool) (w : world)
        (zip_path output_txt_path : str) (exclude_patterns : list str)
        (max_file_size_kb : option Z) (path text : str) :
  In (WriteFile path text)
     (effects (generate_repository_description
                 fnmatch w zip_path output_txt_path exclude_patterns
                 max_file_size_kb)) ->
  path = output_txt_path
  /\ exists temp_dir extracted_items before,
      mkdtemp w = inr temp_dir
      /\ extractall w zip_path temp_dir = Extracted extracted_items
      /\ text
         = concat
             (output_lines
                (render_of w zip_path exclude_patterns max_file_size_kb
                   (walk_of fnmatch exclude_patterns
                      (resolve_root temp_dir zip_path extracted_items))))
      /\ effects (generate_repository_description
                    fnmatch w zip_path output_txt_path exclude_patterns
                    max_file_size_kb)
         = before ++ [WriteFile path text; RmTemp temp_dir]
      /\ forall p t, ~ In (WriteFile p t) before.
Proof.
  destruct (input_accepted w zip_path) eqn:Hin.
  2:{ unfold generate_repository_description.
      unfold input_accepted in Hin.
      destruct (path_exists w zip_path); cbn [negb andb] in *;
        [|contradiction].
      rewrite Hin. cbn [negb effects failure]. contradiction. }
  destruct (mkdtemp w) as [e|temp_dir] eqn:Htmp.
  { unfold generate_repository_description.
    unfold input_accepted in Hin.
    apply andb_true_iff in Hin as [-> ->]. rewrite Htmp.
    cbn [negb effects failure]. intros [H|[]]. discriminate H. }
  destruct (run_effects_shape fnmatch w zip_path output_txt_path
              exclude_patterns max_file_size_kb Hin Htmp)
    as (tail & -> & Htail).
  destruct (extractall w zip_path temp_dir) as [|e|items] eqn:Hext.
  1,2: subst tail; intros [H|[H|[H|[]]]]; discriminate H.
  destruct Htail as (reads & dirs & writes & -> & Hreads & Hdirs & Hwrites).
  assert (Hnodirs : forall p t, ~ In (WriteFile p t) dirs).
  { intros p t H. destruct Hdirs as [->|(-> & _)]; [contradiction|].
    destruct H as [H|[]]. discriminate H. }
  intros [H|[H|H]]; try discriminate H.
  apply in_app_or in H as [H|H];
    [exfalso; revert H; now apply file_call_not_other|].
  apply in_app_or in H as [H|H]; [exfalso; eapply Hnodirs; exact H|].
  apply in_app_or in H as [H|[H|[]]]; [|discriminate H].
  destruct Hwrites as [->| ->]; [contradiction|].
  destruct H as [H|[]]. injection H as <- <-.
  split; [reflexivity|].
  exists temp_dir, items,
    (MkTemp :: ExtractAll zip_path temp_dir :: reads ++ dirs).
  split; [reflexivity|]. split; [exact Hext|]. split; [reflexivity|].
  split.
  - cbn [app]. rewrite <- !app_assoc. reflexivity.
  - intros p t [H|[H|H]]; try discriminate H.
    apply in_app_or in H as [H|H].
    + revert H. now apply file_call_not_other.
    + eapply Hnodirs; exact H.
Qed.

Lemma run_writes_once_at_the_end_witness :
  exists text before,
    In (WriteFile Sample.out text)
       (effects (generate_repository_description
                   Fnmatch.fnmatch Sample.w_proj Sample.zip Sample.out
                   Sample.pats None))
    /\ effects (generate_repository_description
                  Fnmatch.fnmatch Sample.w_proj Sample.zip Sample.out
                  Sample.pats None)
       = before ++ [WriteFile Sample.out text; RmTemp (lit "/tmp/t")].
Proof.
  exists (concat
            (output_lines
               (render_of Sample.w_proj Sample.zip Sample.pats None
                  (walk_of Fnmatch.fnmatch Sample.pats Sample.r_proj)))).
  match goal with
  | |- exists before, In ?e ?es /\ _ =>
      assert (Hin : In e es)
        by (vm_compute; repeat (first [left; reflexivity|right]))
  end.
  destruct (@run_writes_once_at_the_end
              Fnmatch.fnmatch Sample.w_proj Sample.zip Sample.out
              Sample.pats None _ _ Hin)
    as (_ & temp_dir & items & before & Htmp & _ & _ & Heff & _).
  injection Htmp as <-.
  exists before. split; [exact Hin|exact Heff].
Defined.

(** A directory is made only for the output file: only the directory part
    of the output path, only when that part is not empty and does not
    exist yet, and only after the archive was extracted. *)
Theorem run_makes_only_the_output_directory
        (fnmatch : str -> str -> bool) (w : world)
        (zip_path output_txt_path : str) (exclude_patterns : list str)
        (max_file_size_kb : option Z) (d : str) :
  In (MakeDirs d)
     (effects (generate_repository_description
                 fnmatch w zip_path output_txt_path exclude_patterns
                 max_file_size_kb)) ->
  d = Posixpath.dirname output_txt_path
  /\ d <> []
  /\ path_exists w d = false
  /\ exists temp_dir extracted_items,
      mkdtemp w = inr temp_dir
      /\ extractall w zip_path temp_dir = Extracted extracted_items.
Proof.
  destruct (input_accepted w zip_path) eqn:Hin.
  2:{ unfold generate_repository_description.
      unfold input_accepted in Hin.
      destruct (path_exists w zip_path); cbn [negb andb] in *;
        [|contradiction].
      rewrite Hin. cbn [negb effects failure]. contradiction. }
  destruct (mkdtemp w) as [e|temp_dir] eqn:Htmp.
  { unfold generate_repository_description.
    unfold input_accepted in Hin.
    apply andb_true_iff in Hin as [-> ->]. rewrite Htmp.
    cbn [negb effects failure]. intros [H|[]]. discriminate H. }
  destruct (run_effects_shape fnmatch w zip_path output_txt_path
              exclude_patterns max_file_size_kb Hin Htmp)
    as (tail & -> & Htail).
  destruct (extractall w zip_path temp_dir) as [|e|items] eqn:Hext.
  1,2: subst tail; intros [H|[H|[H|[]]]]; discriminate H.
  destruct Htail as (reads & dirs & writes & -> & Hreads & Hdirs & Hwrites).
  intros [H|[H|H]]; try discriminate H.
  apply in_app_or in H as [H|H];
    [exfalso; revert H; now apply file_call_not_other|].
  apply in_app_or in H as [H|H].
  - destruct Hdirs as [->|(-> & Hne & Hno)]; [contradiction|].
    destruct H as [H|[]]. injection H as <-.
    repeat split; auto. exists temp_dir, items. split; [reflexivity|exact Hext].
  - exfalso. apply in_app_or in H as [H|[H|[]]]; [|discriminate H].
    destruct Hwrites as [->| ->]; [contradiction|].
    destruct H as [H|[]]. discriminate H.
Qed.

Lemma run_makes_only_the_output_directory_witness :
  In (MakeDirs (lit "reports/2024"))
     (effects (generate_repository_description
                 Fnmatch.fnmatch Sample.w_proj Sample.zip
                 (lit "reports/2024/out.txt") Sample.pats None))
  /\ path_exists Sample.w_proj (lit "reports/2024") = false.
Proof.
  assert (Hin : In (MakeDirs (lit "reports/2024"))
                   (effects (generate_repository_description
                               Fnmatch.fnmatch Sample.w_proj Sample.zip
                               (lit "reports/2024/out.txt") Sample.pats
                               None)))
    by (vm_compute; repeat (first [left; reflexivity|right])).
  split; [exact Hin|].
  apply (@run_makes_only_the_output_directory
           Fnmatch.fnmatch Sample.w_proj Sample.zip
           (lit "reports/2024/out.txt") Sample.pats None _ Hin).
Defined.

(** ** The command line *)

Lemma split_on_pieces (s : str) :
  Forall (fun piece => ~ In Posixpath.sep_char piece)
         (split_on Posixpath.sep_char s).
Proof.
  induction s as [|c s IH]; cbn [split_on].
  - constructor; [intros []|constructor].
  - destruct (N.eqb_spec c Posixpath.sep_char) as [Hc|Hc].
    + constructor; [intros []|exact IH].
    + destruct (split_on Posixpath.sep_char s) as [|piece pieces].
      * constructor; [|constructor]. intros [H|[]]. congruence.
      * inversion IH as [|? ? Hp Hps]; subst.
        constructor; [|exact Hps].
        intros [H|H]; [congruence|contradiction].
Qed.

Lemma split_on_whole (s : str) :
  ~ In Posixpath.sep_char s -> split_on Posixpath.sep_char s = [s].
Proof.
  induction s as [|c s IH]; intros Hno; cbn [split_on]; [reflexivity|].
  destruct (N.eqb_spec c Posixpath.sep_char) as [Hc|Hc].
  - exfalso. apply Hno. now left.
  - rewrite IH; [reflexivity|]. intros H. apply Hno. now right.
Qed.

Lemma basename_has_no_sep (p : str) :
  ~ In Posixpath.sep_char (Posixpath.basename p).
Proof.
  unfold Posixpath.basename. pose proof (split_on_pieces p) as Hall.
  induction Hall as [|piece pieces Hp _ IH]; cbn [last]; [intros []|].
  destruct pieces; [exact Hp|exact IH].
Qed.

Lemma basename_of_name (s : str) :
  ~ In Posixpath.sep_char s -> Posixpath.basename s = s.
Proof.
  intros Hno. unfold Posixpath.basename. now rewrite split_on_whole.
Qed.

Lemma dirname_of_name (s : str) :
  ~ In Posixpath.sep_char s -> Posixpath.dirname s = [].
Proof.
  intros Hno. unfold Posixpath.dirname.
  rewrite (basename_of_name _ Hno), Nat.sub_diag. reflexivity.
Qed.

Lemma span_dots_parts (s : str) :
  forall d r, Posixpath.span_dots s = (d, r) -> s = d ++ r.
Proof.
  induction s as [|c s IH]; intros d r; cbn [Posixpath.span_dots].
  - intros H. injection H as <- <-. reflexivity.
  - destruct (N.eqb c Posixpath.dot_char).
    + destruct (Posixpath.span_dots s) as [d' r'].
      intros H. injection H as <- <-. cbn [app]. f_equal. now apply IH.
    + intros H. injection H as <- <-. reflexivity.
Qed.

Lemma break_dot_parts (s : str) :
  forall a b,
    Posixpath.break_dot s = Some (a, b) ->
    s = a ++ Posixpath.dot_char :: b.
Proof.
  induction s as [|c s IH]; intros a b; cbn [Posixpath.break_dot];
    [discriminate|].
  destruct (N.eqb_spec c Posixpath.dot_char) as [->|Hc].
  - intros H. injection H as <- <-. reflexivity.
  - destruct (Posixpath.break_dot s) as [[a' b']|]; [|discriminate].
    intros H. injection H as <- <-. cbn [app]. f_equal. now apply IH.
Qed.

(** The stem that [splitext] leaves of a bare name is made of characters
    of that name. *)
Lemma splitext_stem_chars (q : str) (c : N) :
  ~ In Posixpath.sep_char q ->
  In c (fst (Posixpath.splitext q)) -> In c q.
Proof.
  intros Hno. unfold Posixpath.splitext.
  rewrite (basename_of_name _ Hno), Nat.sub_diag. cbn [firstn app].
  destruct (Posixpath.span_dots q) as [dots rest] eqn:Hspan.
  apply span_dots_parts in Hspan.
  destruct (Posixpath.break_dot (rev rest)) as [[rext rroot]|] eqn:Hbreak;
    cbn [fst]; [|auto].
  apply break_dot_parts in Hbreak.
  intros Hin. rewrite Hspan. apply in_or_app.
  apply in_app_or in Hin as [Hin|Hin]; [now left|right].
  apply in_rev. rewrite Hbreak. apply in_or_app. right. right.
  now apply in_rev.
Qed.

Lemma default_output_is_a_name (input_zip : str) :
  ~ In Posixpath.sep_char (Cli.default_output input_zip).
Proof.
  unfold Cli.default_output, base_name_zip. intros Hin.
  apply in_app_or in Hin as [Hin|Hin].
  - apply splitext_stem_chars in Hin; [|apply basename_has_no_sep].
    revert Hin. apply basename_has_no_sep.
  - vm_compute in Hin. intuition discriminate.
Qed.

(** The calls of any run: none, the failed creation of the temporary
    directory, or staging followed by a tail. *)
Lemma run_effects_all
      (fnmatch : str -> str -> bool) (w : world)
      (zip_path output_txt_path : str) (exclude_patterns : list str)
      (max_file_size_kb : option Z) :
  let es := effects (generate_repository_description
                       fnmatch w zip_path output_txt_path exclude_patterns
                       max_file_size_kb) in
  es = [] \/ es = [MkTemp]
  \/ exists temp_dir tail,
      es = MkTemp :: ExtractAll zip_path temp_dir :: tail
      /\ (tail = [RmTemp temp_dir]
          \/ exists text, run_tail w output_txt_path temp_dir text tail).
Proof.
  cbv zeta. destruct (input_accepted w zip_path) eqn:Hin.
  2:{ left. unfold generate_repository_description.
      unfold input_accepted in Hin.
      destruct (path_exists w zip_path); cbn [negb andb] in *;
        [|reflexivity].
      rewrite Hin. reflexivity. }
  destruct (mkdtemp w) as [e|temp_dir] eqn:Htmp.
  { right. left. unfold generate_repository_description.
    unfold input_accepted in Hin.
    apply andb_true_iff in Hin as [-> ->]. rewrite Htmp. reflexivity. }
  right. right.
  destruct (run_effects_shape fnmatch w zip_path output_txt_path
              exclude_patterns max_file_size_kb Hin Htmp)
    as (tail & Heff & Htail).
  exists temp_dir, tail. split; [exact Heff|].
  destruct (extractall w zip_path temp_dir); eauto.
Qed.

(** In the tail of a run a directory is made only when the output path
    has a directory part, and a file is written only under the output
    path. *)
Lemma run_tail_targets (w : world) (output_txt_path temp_dir text : str)
      (tail : list effect) :
  run_tail w output_txt_path temp_dir text tail ->
  (forall d, In (MakeDirs d) tail ->
             Posixpath.dirname output_txt_path <> [])
  /\ (forall path t, In (WriteFile path t) tail -> path = output_txt_path).
Proof.
  intros (reads & dirs & writes & -> & Hreads & Hdirs & Hwrites). split.
  - intros d H. apply in_app_or in H as [H|H];
      [exfalso; revert H; now apply file_call_not_other|].
    apply in_app_or in H as [H|H].
    + destruct Hdirs as [->|(_ & Hne & _)]; [contradiction|exact Hne].
    + exfalso. apply in_app_or in H as [H|[H|[]]]; [|discriminate H].
      destruct Hwrites as [->| ->]; [contradiction|].
      destruct H as [H|[]]. discriminate H.
  - intros path t H. apply in_app_or in H as [H|H];
      [exfalso; revert H; now apply file_call_not_other|].
    apply in_app_or in H as [H|H].
    + exfalso. destruct Hdirs as [->|(-> & _)]; [contradiction|].
      destruct H as [H|[]]. discriminate H.
    + apply in_app_or in H as [H|[H|[]]]; [|discriminate H].
      destruct Hwrites as [->| ->]; [contradiction|].
      destruct H as [H|[]]. now injection H as <- _.
Qed.

(** Without [-o] (or with an empty one) the report goes to the current
    directory under the archive's base name followed by
    [_structure_and_content.txt]: the output path has no directory part,
    no directory is ever made, nothing is written under another path, and
    the exit status is [0] when the run returned [True] and [1] when it
    returned [False]. *)
Theorem main_default_output_stays_in_cwd
        (fnmatch : str -> str -> bool) (w : world) (a : Cli.args) :
  Cli.output a = None \/ Cli.output a = Some [] ->
  let out := base_name_zip (Cli.input_zip a)
             ++ lit "_structure_and_content.txt" in
  let status := fst (Cli.main fnmatch w a) in
  let run := snd (Cli.main fnmatch w a) in
  run = generate_repository_description
          fnmatch w (Cli.input_zip a) out (Cli.exclude a)
          (Cli.max_file_size a)
  /\ Posixpath.dirname out = []
  /\ (forall d, ~ In (MakeDirs d) (effects run))
  /\ (forall path text, In (WriteFile path text) (effects run) -> path = out)
  /\ (returned run = true -> status = 0%Z)
  /\ (returned run = false -> status = 1%Z).
Proof.
  intros Hout out status run.
  assert (Hpath : Cli.output_path a = out).
  { unfold Cli.output_path. destruct Hout as [-> | ->]; reflexivity. }
  assert (Hdir : Posixpath.dirname out = [])
    by (apply dirname_of_name, default_output_is_a_name).
  subst status run. unfold Cli.main. cbn [fst snd]. rewrite Hpath.
  split; [reflexivity|]. split; [exact Hdir|].
  pose proof (run_effects_all fnmatch w (Cli.input_zip a) out
                (Cli.exclude a) (Cli.max_file_size a)) as Hall.
  cbv zeta in Hall.
  split; [|split; [|split]].
  - intros d Hin.
    destruct Hall as [E|[E|(t & tail & E & Htail)]]; rewrite E in Hin.
    + contradiction.
    + destruct Hin as [H|[]]. discriminate H.
    + destruct Hin as [H|[H|Hin]]; try discriminate H.
      destruct Htail as [-> |(text & Htail)].
      * destruct Hin as [H|[]]. discriminate H.
      * apply run_tail_targets in Htail as [Hmk _].
        apply (Hmk d Hin), Hdir.
  - intros path text Hin.
    destruct Hall as [E|[E|(t & tail & E & Htail)]]; rewrite E in Hin.
    + contradiction.
    + destruct Hin as [H|[]]. discriminate H.
    + destruct Hin as [H|[H|Hin]]; try discriminate H.
      destruct Htail as [-> |(text' & Htail)].
      * destruct Hin as [H|[]]. discriminate H.
      * apply run_tail_targets in Htail as [_ Hwr].
        exact (Hwr path text Hin).
  - intros ->. reflexivity.
  - intros ->. reflexivity.
Qed.

Lemma main_default_output_stays_in_cwd_witness :
  Cli.output Sample.cli = None
  /\ fst (Cli.main Fnmatch.fnmatch Sample.w_proj Sample.cli) = 0%Z
  /\ forall path text,
      In (WriteFile path text)
         (effects (snd (Cli.main Fnmatch.fnmatch Sample.w_proj Sample.cli)))
      -> path = lit "repo_structure_and_content.txt".
Proof.
  assert (Hout : Cli.output Sample.cli = None
                 \/ Cli.output Sample.cli = Some [])
    by (left; reflexivity).
  split; [reflexivity|]. split; [vm_compute; reflexivity|].
  apply (@main_default_output_stays_in_cwd
           Fnmatch.fnmatch Sample.w_proj Sample.cli Hout).
Defined.

(** ** More on the counters of the walk *)

Lemma walk_step_files_order_witness :
  Permutation [lit "b.txt"; lit "a.txt"] [lit "a.txt"; lit "b.txt"]
  /\ walk_step Fnmatch.fnmatch Sample.pats (lit "/tmp/t/proj") (lit "proj")
               walk_init
               (lit "/tmp/t/proj", [], [lit "b.txt"; lit "a.txt"])
     = walk_step Fnmatch.fnmatch Sample.pats (lit "/tmp/t/proj")
                 (lit "proj") walk_init
                 (lit "/tmp/t/proj", [], [lit "a.txt"; lit "b.txt"]).
Proof.
  assert (Hp : Permutation [lit "b.txt"; lit "a.txt"]
                           [lit "a.txt"; lit "b.txt"])
    by apply perm_swap.
  split; [exact Hp|].
  apply (@walk_step_files_order
           Fnmatch.fnmatch Sample.pats (lit "/tmp/t/proj") (lit "proj")
           walk_init (lit "/tmp/t/proj") []
           [lit "b.txt"; lit "a.txt"] [lit "a.txt"; lit "b.txt"] Hp).
Defined.

Lemma filter_split_length (A : Type) (f : A -> bool) (l : list A) :
  length (filter f l) + length (filter (fun x => negb (f x)) l) = length l.
Proof.
  induction l as [|x l IH]; cbn [filter length]; [reflexivity|].
  destruct (f x); cbn [negb length]; lia.
Qed.

(** Whatever the patterns, every file of the tree under the root is
    counted exactly once, as an included file or as an excluded file: the
    two counters of the report add up to the number of files. *)
Theorem walk_counts_every_file_once
        (fnmatch : str -> str -> bool) (exclude_patterns : list str)
        (r : resolved) :
  let ws := walk_of fnmatch exclude_patterns r in
  total_files ws + excluded_files_count ws
  = list_sum (map count_files (root_entries r)).
Proof.
  intros ws. subst ws. unfold walk_of, walk.
  destruct (os_walk_counts (repo_root_in_temp r) (root_entries r))
    as [_ <-].
  generalize (os_walk (repo_root_in_temp r) (root_entries r)) as items.
  intros items.
  assert (H : forall st,
             let st' :=
               fold_left (walk_step fnmatch exclude_patterns
                                    (repo_root_in_temp r)
                                    (repo_display_name r)) items st in
             total_files st' + excluded_files_count st'
             = total_files st + excluded_files_count st
               + list_sum (map (fun item : walk_item =>
                                  length (snd item)) items)).
  { induction items as [|[[root dirs] files] items IH]; intros st;
      cbn [fold_left map snd].
    - cbn [list_sum fold_right]. lia.
    - cbv zeta. rewrite IH, list_sum_cons. unfold walk_step.
      destruct (is_excluded fnmatch exclude_patterns root
                            (repo_root_in_temp r)
                && negb (eqb root (repo_root_in_temp r))).
      + cbn [total_files excluded_files_count]. lia.
      + match goal with
        | |- context [fold_left (list_file ?a ?b ?c) ?fs ?s0] =>
            destruct (list_files_counts a b c fs s0) as (G1 & _ & _ & G4)
        end.
        rewrite G1, G4. cbn [total_files excluded_files_count].
        rewrite (Permutation_length (sort_perm _)).
        pose proof (filter_split_length
                      (fun f => is_excluded fnmatch exclude_patterns
                                            (Posixpath.join root f)
                                            (repo_root_in_temp r))
                      files).
        lia. }
  specialize (H walk_init). cbv zeta in H. rewrite H.
  cbn [walk_init total_files excluded_files_count]. lia.
Qed.

(** ** The header paths of the records *)

Lemma split_on_nonempty (c : N) (s : str) : split_on c s <> [].
Proof.
  destruct s as [|x s]; cbn [split_on]; [discriminate|].
  destruct (N.eqb x c); [discriminate|].
  destruct (split_on c s); discriminate.
Qed.

Lemma split_on_app_sep (c : N) (a b : str) :
  split_on c (a ++ c :: b) = split_on c a ++ split_on c b.
Proof.
  induction a as [|x a IH]; cbn [app split_on].
  - now rewrite N.eqb_refl.
  - destruct (N.eqb x c); [now rewrite IH|].
    rewrite IH. pose proof (split_on_nonempty c a) as Hne.
    destruct (split_on c a) as [|piece pieces]; [contradiction|].
    reflexivity.
Qed.

Lemma components_app_sep (a b : str) :
  Posixpath.components (a ++ Posixpath.sep_char :: b)
  = Posixpath.components a ++ Posixpath.components b.
Proof.
  unfold Posixpath.components. now rewrite split_on_app_sep, filter_app.
Qed.

Lemma components_of_name (n : str) :
  entry_name n -> Posixpath.components n = [n].
Proof.
  intros (Hne & Hsep & _). unfold Posixpath.components.
  rewrite (split_on_whole _ Hsep). cbn [filter].
  destruct n; [contradiction|reflexivity].
Qed.

Lemma endswith_sep (s : str) :
  endswith s Posixpath.sep = true ->
  exists s', s = s' ++ [Posixpath.sep_char].
Proof.
  unfold endswith. intros H. exists (rev (tl (rev s))).
  destruct (rev s) as [|x r] eqn:Hrev; cbn [startswith rev] in H;
    [discriminate|].
  apply andb_true_iff in H as [Hx _]. apply N.eqb_eq in Hx. subst x.
  cbn [tl]. rewrite <- (rev_involutive s), Hrev. reflexivity.
Qed.

Lemma name_not_at_sep (n : str) :
  entry_name n -> startswith n Posixpath.sep = false.
Proof.
  intros (Hne & Hsep & _). destruct n as [|x n]; [contradiction|].
  cbn [startswith Posixpath.sep]. destruct (N.eqb_spec x Posixpath.sep_char)
    as [->|]; [|reflexivity].
  exfalso. apply Hsep. now left.
Qed.

(** [join] adds one component. *)
Lemma components_join (R n : str) :
  entry_name n ->
  Posixpath.components (Posixpath.join R n) = Posixpath.components R ++ [n].
Proof.
  intros Hn. unfold Posixpath.join. rewrite (name_not_at_sep Hn).
  destruct R as [|x R]; [now rewrite components_of_name|].
  destruct (endswith (x :: R) Posixpath.sep) eqn:Hend.
  - apply endswith_sep in Hend as (R' & ->).
    rewrite <- app_assoc. cbn [app].
    rewrite components_app_sep, (components_of_name Hn).
    rewrite (components_app_sep R' []).
    cbn [Posixpath.components split_on filter eqb]. now rewrite app_nil_r.
  - cbn [Posixpath.sep app].
    change (x :: R ++ Posixpath.sep_char :: n)
      with ((x :: R) ++ Posixpath.sep_char :: n).
    now rewrite components_app_sep, (components_of_name Hn).
Qed.

Lemma drop_common_prefix (l cs : list str) :
  Posixpath.drop_common l (l ++ cs) = ([], cs).
Proof.
  induction l as [|x l IH]; cbn [app Posixpath.drop_common].
  - destruct cs; reflexivity.
  - now rewrite eqb_refl.
Qed.

(** The path relative to [R] of a path that lies [cs] below it. *)
Lemma relpath_below (p R : str) (cs : list str) :
  Posixpath.components p = Posixpath.components R ++ cs ->
  Posixpath.relpath p R
  = match cs with
    | [] => Posixpath.curdir
    | _ => join Posixpath.sep cs
    end.
Proof.
  intros Hp. unfold Posixpath.relpath.
  rewrite Hp, drop_common_prefix. cbn [map app].
  destruct cs; reflexivity.
Qed.

Lemma join_snoc (cs : list str) (c : str) :
  cs <> [] ->
  join Posixpath.sep (cs ++ [c])
  = join Posixpath.sep cs ++ Posixpath.sep ++ c.
Proof.
  induction cs as [|x cs IH]; intros Hne; [contradiction|].
  destruct cs as [|y cs]; [reflexivity|].
  change (join Posixpath.sep ((x :: y :: cs) ++ [c]))
    with (x ++ Posixpath.sep ++ join Posixpath.sep ((y :: cs) ++ [c])).
  rewrite IH by discriminate.
  change (join Posixpath.sep (x :: y :: cs))
    with (x ++ Posixpath.sep ++ join Posixpath.sep (y :: cs)).
  now rewrite <- !app_assoc.
Qed.

(** A joined path of names ends with the last character of its last
    name. *)
Lemma join_names_end (cs : list str) :
  cs <> [] -> Forall entry_name cs ->
  exists s k, join Posixpath.sep cs = s ++ [k] /\ k <> Posixpath.sep_char.
Proof.
  intros Hne Hall.
  destruct (exists_last Hne) as (cs' & c & ->).
  apply Forall_app in Hall as [_ Hc]. inversion Hc as [|? ? Hname _]; subst.
  destruct Hname as (Hcne & Hsep & _).
  destruct (exists_last Hcne) as (c' & k & ->).
  assert (Hk : k <> Posixpath.sep_char).
  { intros ->. apply Hsep, in_or_app. right. now left. }
  destruct cs' as [|x cs'].
  - exists c', k. split; [reflexivity|exact Hk].
  - rewrite join_snoc by discriminate.
    exists (join Posixpath.sep (x :: cs') ++ Posixpath.sep ++ c'), k.
    split; [now rewrite <- !app_assoc|exact Hk].
Qed.

(** Joining a relative directory path and a file name puts one separator
    between them. *)
Lemma join_rel_file (cs : list str) (f : str) :
  cs <> [] -> Forall entry_name cs -> entry_name f ->
  Posixpath.join (join Posixpath.sep cs) f
  = join Posixpath.sep (cs ++ [f]).
Proof.
  intros Hne Hall Hf. unfold Posixpath.join.
  rewrite (name_not_at_sep Hf), (join_snoc f Hne).
  destruct (join_names_end Hne Hall) as (s & k & Hs & Hk).
  rewrite Hs.
  destruct (s ++ [k]) as [|x r] eqn:Hsk; [now destruct s|].
  rewrite <- Hsk.
  destruct (endswith (s ++ [k]) Posixpath.sep) eqn:Hend; [|reflexivity].
  apply endswith_sep in Hend as (s' & Hend).
  apply app_inj_tail in Hend as [_ ->]. contradiction.
Qed.

Lemma join_names_not_curdir (cs : list str) :
  cs <> [] -> Forall entry_name cs ->
  eqb (join Posixpath.sep cs) Posixpath.curdir = false.
Proof.
  intros Hne Hall.
  destruct (eqb (join Posixpath.sep cs) Posixpath.curdir) eqn:E;
    [|reflexivity].
  apply eqb_eq in E. exfalso.
  destruct cs as [|c cs]; [contradiction|].
  inversion Hall as [|? ? (Hcne & _ & Hdot & _) Hrest]; subst.
  destruct cs as [|d cs].
  - cbn [join] in E. contradiction.
  - change (join Posixpath.sep (c :: d :: cs))
      with (c ++ Posixpath.sep ++ join Posixpath.sep (d :: cs)) in E.
    destruct c as [|x c]; [contradiction|].
    cbn [app] in E. unfold Posixpath.curdir in E.
    injection E as _ E. destruct c; discriminate E.
Qed.

Lemma well_named_name (n : node) : well_named n -> entry_name (node_name n).
Proof. intros [name H|name es H _]; exact H. Qed.

Lemma filenames_named (es : list node) :
  Forall well_named es -> Forall entry_name (filenames es).
Proof.
  intros Hall. unfold filenames. apply Forall_map.
  apply Forall_forall. intros e He. apply filter_In in He as [He _].
  rewrite Forall_forall in Hall. apply well_named_name, Hall, He.
Qed.

(** Every item of the walk of a well-named tree lies below the root. *)
Lemma walk_node_below (R : str) (n : node) :
  well_named n ->
  forall parent cs0,
    Forall entry_name cs0 ->
    Posixpath.components parent = Posixpath.components R ++ cs0 ->
    Forall (item_below R) (walk_node parent n).
Proof.
  induction n as [name|name es IH] using node_nested_ind;
    intros Hwn parent cs0 Hcs0 Hparent; cbn [walk_node];
    [constructor|].
  inversion Hwn as [|? ? Hname Hes]; subst.
  assert (Htop : Posixpath.components (Posixpath.join parent name)
                 = Posixpath.components R ++ (cs0 ++ [name])).
  { rewrite (components_join _ Hname), Hparent. now rewrite app_assoc. }
  assert (Hcs : Forall entry_name (cs0 ++ [name])).
  { apply Forall_app. split; [exact Hcs0|]. now constructor. }
  constructor.
  - exists (cs0 ++ [name]). cbn [fst snd].
    split; [exact Hcs|]. split; [exact Htop|].
    now apply filenames_named.
  - apply Forall_flat_map. rewrite Forall_forall in IH, Hes |- *.
    intros e He. apply (IH e He (Hes e He) _ _ Hcs Htop).
Qed.

Lemma os_walk_below (R : str) (es : list node) :
  Forall well_named es -> Forall (item_below R) (os_walk R es).
Proof.
  intros Hes. unfold os_walk. constructor.
  - exists []. cbn [fst snd]. split; [constructor|].
    split; [now rewrite app_nil_r|now apply filenames_named].
  - apply Forall_flat_map. rewrite Forall_forall in Hes |- *.
    intros e He.
    apply (@walk_node_below R e (Hes e He) R []);
      [constructor|now rewrite app_nil_r].
Qed.

(** Where a record comes from, header included. *)
Lemma list_files_origin (root relative_path file_indent : str)
      (fs : list str) :
  forall st rec,
    In rec (files_to_process
              (fold_left (list_file root relative_path file_indent) fs st)) ->
    In rec (files_to_process st)
    \/ exists f,
        In f fs
        /\ rec = (if eqb relative_path Posixpath.curdir then f
                  else Posixpath.join relative_path f,
                  Posixpath.join root f).
Proof.
  induction fs as [|f fs IH]; intros st rec; cbn [fold_left]; [now left|].
  intros Hin. apply IH in Hin as [Hin|(g & Hg & Hrec)].
  - unfold list_file in Hin. cbn [files_to_process] in Hin.
    apply in_app_or in Hin as [Hin|[<-|[]]]; [now left|].
    right. exists f. split; [now left|reflexivity].
  - right. exists g. split; [now right|exact Hrec].
Qed.

Lemma walk_records_origin
      (fnmatch : str -> str -> bool) (exclude_patterns : list str)
      (root_path display_name : str) (items : list walk_item)
      (rec : str * str) :
  forall st,
    In rec (files_to_process
              (fold_left (walk_step fnmatch exclude_patterns root_path
                                    display_name) items st)) ->
    In rec (files_to_process st)
    \/ exists root dirs files f,
        In (root, dirs, files) items
        /\ In f files
        /\ rec = (if eqb (Posixpath.relpath root root_path)
                         Posixpath.curdir
                  then f
                  else Posixpath.join (Posixpath.relpath root root_path) f,
                  Posixpath.join root f).
Proof.
  induction items as [|[[root dirs] files] items IH]; intros st;
    cbn [fold_left]; [now left|].
  intros Hin. apply IH in Hin as [Hin|(r & d & fs & f & Hi & Hf & Hrec)].
  - unfold walk_step in Hin.
    destruct (is_excluded fnmatch exclude_patterns root root_path
              && negb (eqb root root_path)); [now left|].
    apply list_files_origin in Hin as [Hin|(f & Hf & Hrec)];
      [now left|right].
    apply (Permutation_in _ (sort_perm _)), filter_In in Hf as [Hf _].
    exists root, dirs, files, f. split; [now left|]. now split.
  - right. exists r, d, fs, f. split; [now right|]. now split.
Qed.

(** In a tree whose entries have proper names, the header of every record
    is the path of its file relative to the root: the names from the root
    down to the file joined by ["/"], never empty, never absolute, without
    ["."] or [".."]. *)
Theorem walk_header_is_relative_path
        (fnmatch : str -> str -> bool) (exclude_patterns : list str)
        (r : resolved) (h p : str) :
  Forall well_named (root_entries r) ->
  In (h, p) (files_to_process (walk_of fnmatch exclude_patterns r)) ->
  h = Posixpath.relpath p (repo_root_in_temp r)
  /\ exists names,
      names <> []
      /\ Forall entry_name names
      /\ h = join Posixpath.sep names
      /\ Posixpath.components p
         = Posixpath.components (repo_root_in_temp r) ++ names.
Proof.
  intros Hwn Hin. unfold walk_of, walk in Hin.
  apply walk_records_origin in Hin
    as [[]|(root & dirs & files & f & Hitem & Hf & Hrec)].
  pose proof (os_walk_below (repo_root_in_temp r) Hwn) as Hbelow.
  rewrite Forall_forall in Hbelow.
  destruct (Hbelow _ Hitem) as (cs & Hcs & Hroot & Hfiles).
  cbn [fst snd] in Hroot, Hfiles.
  rewrite Forall_forall in Hfiles. specialize (Hfiles f Hf).
  injection Hrec as -> ->.
  assert (Hp : Posixpath.components (Posixpath.join root f)
               = Posixpath.components (repo_root_in_temp r) ++ (cs ++ [f])).
  { rewrite (components_join _ Hfiles), Hroot. now rewrite app_assoc. }
  assert (Hnames : Forall entry_name (cs ++ [f])).
  { apply Forall_app. split; [exact Hcs|]. now constructor. }
  assert (Hhead : (if eqb (Posixpath.relpath root (repo_root_in_temp r))
                          Posixpath.curdir
                   then f
                   else Posixpath.join
                          (Posixpath.relpath root (repo_root_in_temp r)) f)
                  = join Posixpath.sep (cs ++ [f])).
  { rewrite (relpath_below _ _ _ Hroot). destruct cs as [|c cs].
    - reflexivity.
    - rewrite join_names_not_curdir by (discriminate || exact Hcs).
      apply join_rel_file; [discriminate|exact Hcs|exact Hfiles]. }
  split.
  - rewrite Hhead, (relpath_below _ _ _ Hp).
    destruct cs; reflexivity.
  - exists (cs ++ [f]). split; [now destruct cs|].
    split; [exact Hnames|]. split; [exact Hhead|exact Hp].
Qed.

Lemma walk_header_is_relative_path_witness :
  Forall well_named
         (root_entries (resolve_root (lit "/tmp/t") Sample.zip Sample.nested))
  /\ In (lit "build/sub/file.txt", lit "/tmp/t/proj/build/sub/file.txt")
        (files_to_process
           (walk_of Fnmatch.fnmatch []
                    (resolve_root (lit "/tmp/t") Sample.zip Sample.nested)))
  /\ lit "build/sub/file.txt"
     = Posixpath.relpath (lit "/tmp/t/proj/build/sub/file.txt")
                         (lit "/tmp/t/proj").
Proof.
  assert (Hname : forall s,
             In s [lit "build"; lit "sub"; lit "file.txt"] ->
             entry_name s).
  { intros s [<-|[<-|[<-|[]]]];
      (split; [discriminate|]);
      (split; [vm_compute; intuition discriminate|]);
      split; discriminate. }
  assert (Hwn : Forall well_named
                       (root_entries
                          (resolve_root (lit "/tmp/t") Sample.zip
                                        Sample.nested))).
  { repeat (constructor; try (apply Hname; cbn [In]; tauto)). }
  assert (Hin : In (lit "build/sub/file.txt",
                    lit "/tmp/t/proj/build/sub/file.txt")
                   (files_to_process
                      (walk_of Fnmatch.fnmatch []
                         (resolve_root (lit "/tmp/t") Sample.zip
                                       Sample.nested))))
    by (vm_compute; tauto).
  split; [exact Hwn|]. split; [exact Hin|].
  apply (@walk_header_is_relative_path
           Fnmatch.fnmatch []
           (resolve_root (lit "/tmp/t") Sample.zip Sample.nested)
           _ _ Hwn Hin).
Defined.

(** *** Headers are unique *)

Lemma NoDup_map_filter (A B : Type) (f : A -> B) (g : A -> bool)
      (l : list A) :
  NoDup (map f l) -> NoDup (map f (filter g l)).
Proof.
  induction l as [|a l IH]; cbn [map filter]; intros H; [constructor|].
  inversion H as [|? ? Hnot Hrest]; subst.
  destruct (g a); [|now apply IH].
  cbn [map]. constructor; [|now apply IH].
  intros Hin. apply Hnot. apply in_map_iff in Hin as (x & Hx & Hin).
  apply filter_In in Hin as [Hin _]. rewrite <- Hx. now apply in_map.
Qed.

Lemma app_cons_not_self (A : Type) (l : list A) (x : A) (y : list A) :
  l ++ x :: y <> l.
Proof.
  intros H. apply (f_equal (@length A)) in H.
  rewrite length_app in H. cbn [length] in H. lia.
Qed.

(** The items below the entries of a directory, given the facts for each
    entry: their file lists have no repetition, their directories lie
    under the name of an entry, and no two have the same directory. *)
Lemma entries_keys (top : str) (es : list node) :
  NoDup (map node_name es) ->
  Forall (fun e =>
            forall parent,
              Forall (fun it : walk_item => NoDup (snd it))
                     (walk_node parent e)
              /\ Forall (fun it =>
                           exists cs',
                             item_key it
                             = Posixpath.components parent
                               ++ node_name e :: cs')
                        (walk_node parent e)
              /\ NoDup (map item_key (walk_node parent e))) es ->
  Forall (fun it : walk_item => NoDup (snd it))
         (flat_map (walk_node top) es)
  /\ Forall (fun it =>
               exists nm cs',
                 In nm (map node_name es)
                 /\ item_key it = Posixpath.components top ++ nm :: cs')
            (flat_map (walk_node top) es)
  /\ NoDup (map item_key (flat_map (walk_node top) es)).
Proof.
  intros Hnames Hall.
  induction Hall as [|e es He _ IH]; cbn [flat_map map].
  - split; [constructor|]. split; constructor.
  - inversion Hnames as [|? ? Hnot Hrest]; subst.
    destruct (IH Hrest) as (I1 & I2 & I3).
    destruct (He top) as (E1 & E2 & E3).
    split; [apply Forall_app; now split|]. split.
    + apply Forall_app. split.
      * eapply Forall_impl; [|exact E2].
        intros it (cs' & Hk). exists (node_name e), cs'.
        split; [now left|exact Hk].
      * eapply Forall_impl; [|exact I2].
        intros it (nm & cs' & Hnm & Hk). exists nm, cs'.
        split; [now right|exact Hk].
    + rewrite map_app. apply NoDup_app; [exact E3|exact I3|].
      intros k Hk1 Hk2.
      apply in_map_iff in Hk1 as (it1 & <- & Hit1).
      apply in_map_iff in Hk2 as (it2 & Heq & Hit2).
      rewrite Forall_forall in E2, I2.
      destruct (E2 _ Hit1) as (cs1 & H1).
      destruct (I2 _ Hit2) as (nm & cs2 & Hnm & H2).
      rewrite H1, H2 in Heq. apply app_inv_head in Heq.
      injection Heq as -> _. contradiction.
Qed.

(** The item of a directory followed by the items below its entries. *)
Lemma directory_keys (top : str) (dirs : list str) (es : list node) :
  NoDup (map node_name es) ->
  Forall (fun e =>
            forall parent,
              Forall (fun it : walk_item => NoDup (snd it))
                     (walk_node parent e)
              /\ Forall (fun it =>
                           exists cs',
                             item_key it
                             = Posixpath.components parent
                               ++ node_name e :: cs')
                        (walk_node parent e)
              /\ NoDup (map item_key (walk_node parent e))) es ->
  let items := (top, dirs, filenames es) :: flat_map (walk_node top) es in
  Forall (fun it : walk_item => NoDup (snd it)) items
  /\ Forall (fun it =>
               exists cs, item_key it = Posixpath.components top ++ cs)
            items
  /\ NoDup (map item_key items).
Proof.
  intros Hnames Hall items. subst items.
  destruct (entries_keys top Hnames Hall) as (I1 & I2 & I3).
  split; [|split].
  - constructor; [|exact I1]. cbn [snd]. unfold filenames.
    now apply NoDup_map_filter.
  - constructor.
    + exists []. unfold item_key. cbn [fst]. now rewrite app_nil_r.
    + eapply Forall_impl; [|exact I2].
      intros it (nm & cs' & _ & Hk). now exists (nm :: cs').
  - cbn [map]. constructor; [|exact I3].
    intros Hin. apply in_map_iff in Hin as (it & Heq & Hit).
    rewrite Forall_forall in I2.
    destruct (I2 _ Hit) as (nm & cs' & _ & Hk).
    unfold item_key at 2 in Heq. cbn [fst] in Heq.
    rewrite Hk in Heq. revert Heq. apply app_cons_not_self.
Qed.

Lemma walk_node_keys (n : node) :
  well_named n -> distinct_siblings n ->
  forall parent,
    Forall (fun it : walk_item => NoDup (snd it)) (walk_node parent n)
    /\ Forall (fun it =>
                 exists cs',
                   item_key it
                   = Posixpath.components parent ++ node_name n :: cs')
              (walk_node parent n)
    /\ NoDup (map item_key (walk_node parent n)).
Proof.
  induction n as [name|name es IH] using node_nested_ind;
    intros Hwn Hds parent; cbn [walk_node node_name].
  - split; [constructor|]. split; constructor.
  - inversion Hwn as [|? ? Hname Hes]; subst.
    inversion Hds as [|? ? Hnames Hdes]; subst.
    assert (Hall : Forall
                     (fun e =>
                        forall parent,
                          Forall (fun it : walk_item => NoDup (snd it))
                                 (walk_node parent e)
                          /\ Forall (fun it =>
                                       exists cs',
                                         item_key it
                                         = Posixpath.components parent
                                           ++ node_name e :: cs')
                                    (walk_node parent e)
                          /\ NoDup (map item_key (walk_node parent e))) es).
    { rewrite Forall_forall in IH, Hes, Hdes |- *.
      intros e He. apply (IH e He (Hes e He) (Hdes e He)). }
    destruct (directory_keys (Posixpath.join parent name) (dirnames es)
                             Hnames Hall) as (D1 & D2 & D3).
    split; [exact D1|]. split; [|exact D3].
    eapply Forall_impl; [|exact D2].
    intros it (cs & Hk). exists cs.
    rewrite Hk, (components_join _ Hname), <- app_assoc. reflexivity.
Qed.

Lemma os_walk_keys (R : str) (es : list node) :
  Forall well_named es -> NoDup (map node_name es) ->
  Forall distinct_siblings es ->
  Forall (fun it : walk_item => NoDup (snd it)) (os_walk R es)
  /\ NoDup (map item_key (os_walk R es)).
Proof.
  intros Hes Hnames Hdes.
  assert (Hall : Forall
                   (fun e =>
                      forall parent,
                        Forall (fun it : walk_item => NoDup (snd it))
                               (walk_node parent e)
                        /\ Forall (fun it =>
                                     exists cs',
                                       item_key it
                                       = Posixpath.components parent
                                         ++ node_name e :: cs')
                                  (walk_node parent e)
                        /\ NoDup (map item_key (walk_node parent e))) es).
  { rewrite Forall_forall in Hes, Hdes |- *.
    intros e He. apply (walk_node_keys (Hes e He) (Hdes e He)). }
  destruct (directory_keys R (dirnames es) Hnames Hall) as (D1 & _ & D3).
  unfold os_walk. split; assumption.
Qed.

Lemma components_join_names (names : list str) :
  Forall entry_name names ->
  Posixpath.components (join Posixpath.sep names) = names.
Proof.
  induction 1 as [|x names Hx Hall IH]; [reflexivity|].
  destruct names as [|y names]; [now apply components_of_name|].
  change (join Posixpath.sep (x :: y :: names))
    with (x ++ Posixpath.sep_char :: join Posixpath.sep (y :: names)).
  now rewrite components_app_sep, IH, (components_of_name Hx).
Qed.

(** The header the walk gives to file [f] of a directory [cs] below the
    root. *)
Lemma header_of_item (R root f : str) (cs : list str) :
  Posixpath.components root = Posixpath.components R ++ cs ->
  Forall entry_name cs -> entry_name f ->
  (if eqb (Posixpath.relpath root R) Posixpath.curdir then f
   else Posixpath.join (Posixpath.relpath root R) f)
  = join Posixpath.sep (cs ++ [f]).
Proof.
  intros Hroot Hcs Hf. rewrite (relpath_below _ _ _ Hroot).
  destruct cs as [|c cs]; [reflexivity|].
  rewrite join_names_not_curdir by (discriminate || exact Hcs).
  apply join_rel_file; [discriminate|exact Hcs|exact Hf].
Qed.

Lemma list_files_exact (root relative_path file_indent : str)
      (fs : list str) :
  forall st,
    files_to_process
      (fold_left (list_file root relative_path file_indent) fs st)
    = files_to_process st
      ++ map (fun f =>
                (if eqb relative_path Posixpath.curdir then f
                 else Posixpath.join relative_path f,
                 Posixpath.join root f)) fs.
Proof.
  induction fs as [|f fs IH]; intros st; cbn [fold_left map].
  - now rewrite app_nil_r.
  - rewrite IH. unfold list_file. cbn [files_to_process].
    now rewrite <- app_assoc.
Qed.

(** The headers one iteration adds: those of some of the files of the
    item, each at most once. *)
Lemma walk_step_headers
      (fnmatch : str -> str -> bool) (exclude_patterns : list str)
      (R display_name : str) (st : walk_state) (item : walk_item)
      (cs : list str) :
  item_key item = Posixpath.components R ++ cs ->
  Forall entry_name cs ->
  Forall entry_name (snd item) ->
  NoDup (snd item) ->
  exists kept,
    NoDup kept
    /\ (forall f, In f kept -> entry_name f)
    /\ map fst (files_to_process
                  (walk_step fnmatch exclude_patterns R display_name
                             st item))
       = map fst (files_to_process st)
         ++ map (fun f => join Posixpath.sep (cs ++ [f])) kept.
Proof.
  destruct item as [[root dirs] files]. unfold item_key. cbn [fst snd].
  intros Hroot Hcs Hfiles Hnodup. unfold walk_step.
  destruct (is_excluded fnmatch exclude_patterns root R
            && negb (eqb root R)).
  - exists []. split; [constructor|]. split; [intros f []|].
    cbn [files_to_process map]. now rewrite app_nil_r.
  - match goal with
    | |- context [fold_left _ (sort ?l) _] => set (kept := sort l)
    end.
    assert (Hsub : forall f, In f kept -> In f files).
    { intros f Hf. subst kept.
      apply (Permutation_in _ (sort_perm _)), filter_In in Hf. tauto. }
    exists kept. split; [|split].
    + subst kept. apply (Permutation_NoDup (Permutation_sym (sort_perm _))).
      now apply NoDup_filter.
    + intros f Hf. rewrite Forall_forall in Hfiles. auto.
    + rewrite list_files_exact. cbn [files_to_process].
      rewrite map_app, map_map. cbn [fst]. f_equal.
      apply map_ext_in. intros f Hf.
      apply header_of_item; [exact Hroot|exact Hcs|].
      rewrite Forall_forall in Hfiles. auto.
Qed.

Lemma walk_headers_nodup
      (fnmatch : str -> str -> bool) (exclude_patterns : list str)
      (R display_name : str) (items : list walk_item) :
  forall seen st,
    Forall (item_below R) items ->
    Forall (fun it : walk_item => NoDup (snd it)) items ->
    NoDup (seen ++ map item_key items) ->
    NoDup (map fst (files_to_process st)) ->
    (forall h,
        In h (map fst (files_to_process st)) ->
        exists cs f,
          h = join Posixpath.sep (cs ++ [f])
          /\ Forall entry_name (cs ++ [f])
          /\ In (Posixpath.components R ++ cs) seen) ->
    NoDup (map fst
               (files_to_process
                  (fold_left (walk_step fnmatch exclude_patterns R
                                        display_name) items st))).
Proof.
  induction items as [|item items IH];
    intros seen st Hbelow Hfiles Hkeys Hst Hold; cbn [fold_left];
    [exact Hst|].
  inversion Hbelow as [|? ? (cs0 & Hcs0 & Hroot & Hnamed) Hbelow'];
    subst.
  inversion Hfiles as [|? ? Hnodup Hfiles']; subst.
  destruct (@walk_step_headers fnmatch exclude_patterns R display_name st
                               item cs0 Hroot Hcs0 Hnamed Hnodup)
    as (kept & Hkept & Hvalid & Hnew).
  cbn [map] in Hkeys.
  assert (Hfresh : ~ In (item_key item) seen).
  { intros Hin. apply NoDup_remove_2 in Hkeys. apply Hkeys.
    apply in_or_app. now left. }
  assert (Hinj : forall cs f cs' f',
             Forall entry_name (cs ++ [f]) ->
             Forall entry_name (cs' ++ [f']) ->
             join Posixpath.sep (cs ++ [f])
             = join Posixpath.sep (cs' ++ [f']) ->
             cs = cs' /\ f = f').
  { intros cs f cs' f' H1 H2 Heq.
    apply (f_equal Posixpath.components) in Heq.
    rewrite !components_join_names in Heq by assumption.
    now apply app_inj_tail in Heq. }
  assert (Hnames : forall f, In f kept -> Forall entry_name (cs0 ++ [f])).
  { intros f Hf. apply Forall_app. split; [exact Hcs0|].
    constructor; [now apply Hvalid|constructor]. }
  apply (IH (seen ++ [item_key item])).
  - exact Hbelow'.
  - exact Hfiles'.
  - rewrite <- app_assoc. exact Hkeys.
  - rewrite Hnew. apply NoDup_app; [exact Hst| |].
    + apply NoDup_map_NoDup_ForallPairs; [|exact Hkept].
      intros f f' Hf Hf' Heq.
      apply Hinj in Heq; [tauto|now apply Hnames|now apply Hnames].
    + intros h Hh Hh'. destruct (Hold h Hh) as (cs & f & -> & Hv & Hseen).
      apply in_map_iff in Hh' as (f' & Heq & Hf').
      apply Hinj in Heq as [-> _]; [|now apply Hnames|exact Hv].
      apply Hfresh. unfold item_key. rewrite Hroot. exact Hseen.
  - intros h Hh. rewrite Hnew in Hh. apply in_app_or in Hh as [Hh|Hh].
    + destruct (Hold h Hh) as (cs & f & Hh1 & Hv & Hseen).
      exists cs, f. split; [exact Hh1|]. split; [exact Hv|].
      apply in_or_app. now left.
    + apply in_map_iff in Hh as (f & <- & Hf).
      exists cs0, f. split; [reflexivity|]. split; [now apply Hnames|].
      apply in_or_app. right. left. exact Hroot.
Qed.

(** In a tree whose entries have proper names, different in each
    directory, no two records have the same header: every BEGIN and END
    marker of the content section names one file. *)
Theorem walk_headers_are_unique
        (fnmatch : str -> str -> bool) (exclude_patterns : list str)
        (r : resolved) :
  Forall well_named (root_entries r) ->
  NoDup (map node_name (root_entries r)) ->
  Forall distinct_siblings (root_entries r) ->
  NoDup (map fst (files_to_process (walk_of fnmatch exclude_patterns r))).
Proof.
  intros Hwn Hnames Hds. unfold walk_of, walk.
  destruct (os_walk_keys (repo_root_in_temp r) Hwn Hnames Hds)
    as [Hfiles Hkeys].
  apply (@walk_headers_nodup fnmatch exclude_patterns
           (repo_root_in_temp r) (repo_display_name r)
           (os_walk (repo_root_in_temp r) (root_entries r)) []).
  - now apply os_walk_below.
  - exact Hfiles.
  - exact Hkeys.
  - constructor.
  - intros h [].
Qed.

Lemma walk_headers_are_unique_witness :
  Forall well_named (root_entries Sample.r_proj)
  /\ NoDup (map node_name (root_entries Sample.r_proj))
  /\ NoDup (map fst (files_to_process
                       (walk_of Fnmatch.fnmatch Sample.pats Sample.r_proj))).
Proof.
  assert (Hname : forall s,
             In s (map node_name (root_entries Sample.r_proj)) ->
             entry_name s).
  { intros s Hs. vm_compute in Hs.
    repeat (destruct Hs as [<-|Hs];
            [split; [discriminate|];
             split; [vm_compute; intuition discriminate|];
             split; discriminate|]).
    contradiction. }
  assert (Hwn : Forall well_named (root_entries Sample.r_proj)).
  { apply Forall_forall. intros e He.
    assert (Hn : entry_name (node_name e)) by (apply Hname, in_map, He).
    vm_compute in He.
    repeat (destruct He as [<-|He]; [now constructor|]).
    contradiction. }
  assert (Hnd : NoDup (map node_name (root_entries Sample.r_proj))).
  { vm_compute.
    repeat (constructor; [cbn [In]; intuition discriminate|]).
    constructor. }
  assert (Hds : Forall distinct_siblings (root_entries Sample.r_proj)).
  { apply Forall_forall. intros e He. vm_compute in He.
    repeat (destruct He as [<-|He]; [constructor|]).
    contradiction. }
  split; [exact Hwn|]. split; [exact Hnd|].
  apply (@walk_headers_are_unique
           Fnmatch.fnmatch Sample.pats Sample.r_proj Hwn Hnd Hds).
Defined.

(** ** The indentation of the structure listing *)

Lemma count_in_name (n : str) :
  ~ In Posixpath.sep_char n -> count Posixpath.sep_char n = 0.
Proof.
  unfold count. induction n as [|x n IH]; intros Hno; [reflexivity|].
  cbn [filter]. destruct (N.eqb_spec Posixpath.sep_char x) as [E|_].
  - exfalso. apply Hno. left. symmetry. exact E.
  - apply IH. intros H. apply Hno. now right.
Qed.

Lemma count_app (c : N) (a b : str) :
  count c (a ++ b) = count c a + count c b.
Proof. unfold count. now rewrite filter_app, length_app. Qed.

(** A relative path of [n] names has [n - 1] separators. *)
Lemma count_sep_join_names (cs : list str) :
  cs <> [] -> Forall entry_name cs ->
  count Posixpath.sep_char (join Posixpath.sep cs) + 1 = length cs.
Proof.
  intros Hne Hall. induction Hall as [|x cs (_ & Hx & _) Hall IH];
    [contradiction|].
  destruct cs as [|y cs].
  - cbn [join length]. now rewrite (count_in_name _ Hx).
  - change (join Posixpath.sep (x :: y :: cs))
      with (x ++ Posixpath.sep ++ join Posixpath.sep (y :: cs)).
    rewrite !count_app, (count_in_name _ Hx).
    specialize (IH ltac:(discriminate)).
    cbn [length] in IH |- *.
    change (count Posixpath.sep_char Posixpath.sep) with 1. lia.
Qed.

Lemma basename_app_sep (a b : str) :
  Posixpath.basename (a ++ Posixpath.sep_char :: b) = Posixpath.basename b.
Proof.
  unfold Posixpath.basename. rewrite split_on_app_sep.
  pose proof (split_on_nonempty Posixpath.sep_char b) as Hne.
  destruct (exists_last Hne) as (l & x & ->).
  now rewrite app_assoc, !last_last.
Qed.

Lemma basename_join (parent name : str) :
  entry_name name ->
  Posixpath.basename (Posixpath.join parent name) = name.
Proof.
  intros Hn. pose proof Hn as (_ & Hsep & _).
  unfold Posixpath.join. rewrite (name_not_at_sep Hn).
  destruct parent as [|x parent]; [now apply basename_of_name|].
  destruct (endswith (x :: parent) Posixpath.sep) eqn:Hend.
  - apply endswith_sep in Hend as (p' & ->).
    rewrite <- app_assoc. cbn [app].
    rewrite basename_app_sep. now apply basename_of_name.
  - cbn [Posixpath.sep app].
    change (x :: parent ++ Posixpath.sep_char :: name)
      with ((x :: parent) ++ Posixpath.sep_char :: name).
    rewrite basename_app_sep. now apply basename_of_name.
Qed.

Lemma list_files_lines_exact (root relative_path file_indent : str)
      (fs : list str) :
  forall st,
    structure_lines
      (fold_left (list_file root relative_path file_indent) fs st)
    = structure_lines st ++ map (fun f => file_indent ++ f ++ nl) fs.
Proof.
  induction fs as [|f fs IH]; intros st; cbn [fold_left map].
  - now rewrite app_nil_r.
  - rewrite IH. unfold list_file. cbn [structure_lines].
    now rewrite <- app_assoc.
Qed.

(** The lines of the structure listing that one directory [cs] below the
    root contributes. *)
Lemma walk_step_lines
      (fnmatch : str -> str -> bool) (exclude_patterns : list str)
      (R display_name : str) (st : walk_state) (item : walk_item)
      (cs : list str) (line : str) :
  item_key item = Posixpath.components R ++ cs ->
  Forall entry_name cs ->
  Forall entry_name (snd item) ->
  In line (structure_lines
             (walk_step fnmatch exclude_patterns R display_name st item)) ->
  In line (structure_lines st)
  \/ (cs = [] /\ line = display_name ++ lit "/" ++ nl)
  \/ (cs <> []
      /\ line = indent_of (length cs)
                ++ Posixpath.basename (fst (fst item)) ++ lit "/" ++ nl)
  \/ exists f,
      In f (snd item) /\ entry_name f
      /\ line = indent_of (length cs + 1) ++ f ++ nl.
Proof.
  destruct item as [[root dirs] files]. unfold item_key. cbn [fst snd].
  intros Hroot Hcs Hfiles. unfold walk_step.
  destruct (is_excluded fnmatch exclude_patterns root R
            && negb (eqb root R)); [now left|].
  rewrite list_files_lines_exact. cbn [structure_lines].
  rewrite (relpath_below _ _ _ Hroot).
  assert (Hlevel : (if eqb match cs with
                           | [] => Posixpath.curdir
                           | _ :: _ => join Posixpath.sep cs
                           end Posixpath.curdir
                    then 0
                    else count Posixpath.sep_char
                               match cs with
                               | [] => Posixpath.curdir
                               | _ :: _ => join Posixpath.sep cs
                               end + 1)
                   = length cs).
  { destruct cs as [|c cs]; [reflexivity|].
    rewrite join_names_not_curdir by (discriminate || exact Hcs).
    apply count_sep_join_names; [discriminate|exact Hcs]. }
  rewrite Hlevel. intros Hin.
  apply in_app_or in Hin as [Hin|Hin].
  - apply in_app_or in Hin as [Hin|[<-|[]]]; [now left|right].
    destruct cs as [|c cs].
    + left. split; reflexivity.
    + right. left. split; [discriminate|].
      rewrite join_names_not_curdir by (discriminate || exact Hcs).
      reflexivity.
  - right. right. right.
    apply in_map_iff in Hin as (f & <- & Hf).
    apply (Permutation_in _ (sort_perm _)), filter_In in Hf as [Hf _].
    exists f. split; [exact Hf|]. split; [|reflexivity].
    rewrite Forall_forall in Hfiles. auto.
Qed.

Lemma filenames_paths (es : list node) (f : str) :
  In f (filenames es) -> In ([f], false) (tree_paths es).
Proof.
  unfold filenames, tree_paths. intros Hf.
  apply in_map_iff in Hf as (e & <- & He).
  apply filter_In in He as [He Hfile].
  apply in_flat_map. exists e. split; [exact He|].
  destruct e as [name|name es']; [now left|discriminate Hfile].
Qed.

(** Every item of the walk of a directory is that directory or one
    further down in it, and lists file entries of its own. *)
Lemma walk_node_paths (R : str) (n : node) :
  well_named n ->
  forall parent cs0,
    Forall entry_name cs0 ->
    Posixpath.components parent = Posixpath.components R ++ cs0 ->
    Forall (fun it : walk_item =>
              exists q,
                item_key it = Posixpath.components R ++ cs0 ++ q
                /\ Forall entry_name q
                /\ Forall entry_name (snd it)
                /\ In (q, true) (node_paths n)
                /\ (exists q' name,
                       q = q' ++ [name]
                       /\ Posixpath.basename (fst (fst it)) = name)
                /\ (forall f, In f (snd it) ->
                              In (q ++ [f], false) (node_paths n)))
           (walk_node parent n).
Proof.
  induction n as [name|name es IH] using node_nested_ind;
    intros Hwn parent cs0 Hcs0 Hparent; cbn [walk_node];
    [constructor|].
  inversion Hwn as [|? ? Hname Hes]; subst.
  assert (Htop : Posixpath.components (Posixpath.join parent name)
                 = Posixpath.components R ++ (cs0 ++ [name])).
  { rewrite (components_join _ Hname), Hparent. now rewrite app_assoc. }
  assert (Hcs : Forall entry_name (cs0 ++ [name])).
  { apply Forall_app. split; [exact Hcs0|]. now constructor. }
  constructor.
  - exists [name]. unfold item_key. cbn [fst snd].
    split; [exact Htop|]. split; [now constructor|].
    split; [now apply filenames_named|].
    split; [now left|]. split.
    + exists [], name. split; [reflexivity|now apply basename_join].
    + intros f Hf. cbn [node_paths]. right.
      apply filenames_paths in Hf.
      apply (in_map (fun e : list str * bool => (name :: fst e, snd e)))
        in Hf. exact Hf.
  - apply Forall_flat_map. rewrite Forall_forall in IH, Hes |- *.
    intros e He.
    eapply Forall_impl; [|apply (IH e He (Hes e He) _ _ Hcs Htop)].
    intros it (q & Hkey & Hq & Hfiles & Hdir & (q' & nm & Hlast & Hbase)
               & Hfs).
    assert (Hlift : forall path kind,
               In (path, kind) (node_paths e) ->
               In (name :: path, kind) (node_paths (Dir name es))).
    { intros path kind Hpath. cbn [node_paths]. right.
      apply (in_map (fun e : list str * bool => (name :: fst e, snd e))
                    _ (path, kind)).
      apply in_flat_map. exists e. split; [exact He|exact Hpath]. }
    exists (name :: q).
    split; [rewrite Hkey, <- !app_assoc; reflexivity|].
    split; [now constructor|]. split; [exact Hfiles|].
    split; [now apply Hlift|]. split.
    + exists (name :: q'), nm. split; [now rewrite Hlast|exact Hbase].
    + intros f Hf. apply (Hlift (q ++ [f]) false), Hfs, Hf.
Qed.

Lemma os_walk_in_tree (R : str) (es : list node) :
  Forall well_named es -> Forall (item_in_tree R es) (os_walk R es).
Proof.
  intros Hes. unfold os_walk. constructor.
  - exists []. unfold item_key. cbn [fst snd].
    split; [now rewrite app_nil_r|]. split; [constructor|].
    split; [now apply filenames_named|]. split; [now left|].
    intros f Hf. now apply filenames_paths.
  - apply Forall_flat_map. rewrite Forall_forall in Hes |- *.
    intros e He.
    eapply Forall_impl;
      [|apply (@walk_node_paths R e (Hes e He) R []);
        [constructor|now rewrite app_nil_r]].
    intros it (q & Hkey & Hq & Hfiles & Hdir & Hlast & Hfs).
    assert (Hlift : forall path kind,
               In (path, kind) (node_paths e) ->
               In (path, kind) (tree_paths es)).
    { intros path kind Hpath. apply in_flat_map.
      exists e. split; [exact He|exact Hpath]. }
    exists q. split; [exact Hkey|]. split; [exact Hq|].
    split; [exact Hfiles|]. split.
    + right. split; [now apply Hlift|exact Hlast].
    + intros f Hf. apply Hlift, Hfs, Hf.
Qed.

(** The lines the loop adds for items of the tree. *)
Lemma walk_lines_in_tree
      (fnmatch : str -> str -> bool) (exclude_patterns : list str)
      (R display_name : str) (es : list node) (line : str)
      (items : list walk_item) :
  Forall (item_in_tree R es) items ->
  forall st,
    In line (structure_lines
               (fold_left (walk_step fnmatch exclude_patterns R
                                     display_name) items st)) ->
    In line (structure_lines st)
    \/ line = display_name ++ lit "/" ++ nl
    \/ exists (cs : list str) (name : str) (is_dir : bool),
        In (cs ++ [name], is_dir) (tree_paths es)
        /\ line = times (lit "  ") (length cs + 1) ++ lit "|-- " ++ name
                  ++ (if is_dir then lit "/" else []) ++ nl.
Proof.
  intros Hitems.
  induction items as [|item items IH]; intros st Hin;
    cbn [fold_left] in Hin; [now left|].
  apply Forall_cons_iff in Hitems
    as [(cs & Hroot & Hcs & Hfiles & Hdir & Hfs) Hitems].
  apply (IH Hitems) in Hin as [Hin|Hin]; [|now right].
  apply (@walk_step_lines fnmatch exclude_patterns R display_name st item
                          cs line Hroot Hcs Hfiles) in Hin
    as [Hin|[(_ & Hline)|[(Hne & Hline)|(f & Hf & Hname & Hline)]]].
  - now left.
  - right. now left.
  - right. right.
    destruct Hdir as [->|(Hpath & cs' & name & -> & Hbase)];
      [contradiction|].
    exists cs', name, true. split; [exact Hpath|].
    rewrite Hline, Hbase, length_app. cbn [length]. unfold indent_of.
    now rewrite <- !app_assoc.
  - right. right. exists cs, f, false. split; [now apply Hfs|].
    rewrite Hline. unfold indent_of. now rewrite <- !app_assoc.
Qed.

(** In a tree whose entries have proper names, every line of the
    structure section is the root line or the line of an entry of the
    tree, a directory or a file: the entry [name] that the directories
    [cs] lead to from the root is indented by two spaces for each of its
    [length cs + 1] levels of depth, before ["|-- "], its bare name and,
    for a directory, a slash. *)
Theorem walk_indentation_is_depth
        (fnmatch : str -> str -> bool) (exclude_patterns : list str)
        (r : resolved) (line : str) :
  Forall well_named (root_entries r) ->
  In line (structure_lines (walk_of fnmatch exclude_patterns r)) ->
  line = repo_display_name r ++ lit "/" ++ nl
  \/ exists (cs : list str) (name : str) (is_dir : bool),
      In (cs ++ [name], is_dir) (tree_paths (root_entries r))
      /\ line = times (lit "  ") (length cs + 1) ++ lit "|-- " ++ name
                ++ (if is_dir then lit "/" else []) ++ nl.
Proof.
  intros Hwn Hin. unfold walk_of, walk in Hin.
  apply (@walk_lines_in_tree fnmatch exclude_patterns
           (repo_root_in_temp r) (repo_display_name r) (root_entries r))
    in Hin as [[]|Hin]; [exact Hin|].
  now apply os_walk_in_tree.
Qed.

Lemma walk_indentation_is_depth_witness :
  Forall well_named
         (root_entries (resolve_root (lit "/tmp/t") Sample.zip Sample.deep))
  /\ tree_paths
       (root_entries (resolve_root (lit "/tmp/t") Sample.zip Sample.deep))
     = [([lit "README"], false);
        ([lit "src"], true);
        ([lit "src"; lit "lib"], true);
        ([lit "src"; lit "lib"; lit "util.py"], false)]
  /\ structure_lines
       (walk_of Fnmatch.fnmatch []
                (resolve_root (lit "/tmp/t") Sample.zip Sample.deep))
     = [lit "proj/" ++ nl;
        lit "  |-- README" ++ nl;
        lit "  |-- src/" ++ nl;
        lit "    |-- lib/" ++ nl;
        lit "      |-- util.py" ++ nl]
  /\ (lit "      |-- util.py" ++ nl = lit "proj" ++ lit "/" ++ nl
      \/ exists (cs : list str) (name : str) (is_dir : bool),
          In (cs ++ [name], is_dir)
             (tree_paths
                (root_entries
                   (resolve_root (lit "/tmp/t") Sample.zip Sample.deep)))
          /\ lit "      |-- util.py" ++ nl
             = times (lit "  ") (length cs + 1) ++ lit "|-- " ++ name
               ++ (if is_dir then lit "/" else []) ++ nl).
Proof.
  assert (Hname : forall s,
             In s [lit "README"; lit "src"; lit "lib"; lit "util.py"] ->
             entry_name s).
  { intros s [<-|[<-|[<-|[<-|[]]]]];
      (split; [discriminate|]);
      (split; [vm_compute; intuition discriminate|]);
      split; discriminate. }
  assert (Hwn : Forall well_named
                       (root_entries
                          (resolve_root (lit "/tmp/t") Sample.zip
                                        Sample.deep))).
  { repeat (constructor; try (apply Hname; cbn [In]; tauto)). }
  assert (Hin : In (lit "      |-- util.py" ++ nl)
                   (structure_lines
                      (walk_of Fnmatch.fnmatch []
                         (resolve_root (lit "/tmp/t") Sample.zip
                                       Sample.deep))))
    by (vm_compute; tauto).
  split; [exact Hwn|]. split; [vm_compute; reflexivity|].
  split; [vm_compute; reflexivity|].
  apply (@walk_indentation_is_depth
           Fnmatch.fnmatch []
           (resolve_root (lit "/tmp/t") Sample.zip Sample.deep)
           _ Hwn Hin).
Defined.
